(** * Loan amortization and debt-repayment engine of wealth-wise

    A shallow embedding of [src/utils/loanPrepayment.ts] (the prepayment
    impact simulator, and the debt repayment optimizer that the same file
    carries), with the properties of the engine proved over it.

    Number model.  A JavaScript [number] is an IEEE 754 binary64 value.
    The functions are embedded twice, statement by statement.

    - In binary64 arithmetic (module [Binary64]): an amount of money or a
      rate is a primitive float, and [+], [-], [*], [/], [<], [<=] and
      [===] of the source are the binary64 operations, with their
      rounding, their infinities and NaN.  [Math.round], [Math.max],
      [Math.min] and [Math.abs] are defined on the floats; [Math.pow],
      whose accuracy ECMAScript leaves to the implementation, and
      [toLocaleString], which depends on the locale, are arguments of the
      functions that call them, so that a theorem holds for every
      implementation of the two.  The statements on how the amounts, the
      tenures and the recommendation of a result are computed are made
      over this embedding.

    - In exact arithmetic (the definitions outside [Binary64]): an amount
      or a rate is a rational ([Q]), without rounding, infinities or NaN,
      and the one quotient with a variable divisor is a checked division
      whose failure is a separate outcome ([NotFinite]).  The statements
      made over this embedding are on the validation, the fields that are
      read, the two orders, the caps of the loops, the loans that need no
      simulation or bear no interest, and the comparison of two runs of
      one simulation: they rest on the tests of the code and on the order
      of the numbers.

    In both, a [number] that counts months is an integer ([Z]): the
    callers obtain the tenure and the prepayment month with [parseInt],
    and the counters of the loops are incremented from 0 up to a cap.

    Loops.  A [while] loop is a [Fixpoint] on a fuel argument that tests the
    loop's own condition; running out of fuel is a separate outcome
    ([OutOfFuel]), and the theorems show that it does not occur. *)

From Stdlib Require Import QArith Qround Qabs Qminmax Qpower Lqa Lia ZArith.
From Stdlib Require Import String DecimalString List Sorting.Sorted Sorting.Permutation.
From Stdlib Require Import Floats.
From Stdlib Require Uint63.
From stdpp Require Import gmap strings.

Local Open Scope Z_scope.
Local Open Scope Q_scope.

(** ** JavaScript primitives used by the source *)

Module JS.

(** [a < b], [a <= b], [a === b] and [a !== b] on numbers. *)
Definition ltb (a b : Q) : bool := negb (Qle_bool b a).
Definition leb (a b : Q) : bool := Qle_bool a b.
Definition eqb (a b : Q) : bool := Qeq_bool a b.
Definition neqb (a b : Q) : bool := negb (Qeq_bool a b).

(** [Math.round]: the nearest integer, halves towards plus infinity. *)
Definition Math_round (x : Q) : Z := Qfloor (x + (1 # 2)).

Definition Math_max (a b : Q) : Q := if Qle_bool a b then b else a.
Definition Math_min (a b : Q) : Q := if Qle_bool a b then a else b.
Definition Math_abs (a : Q) : Q := Qabs a.

(** [Math.pow] at an integer exponent. *)
Definition Math_pow (base : Q) (exponent : Z) : Q := Qpower base exponent.

(** [Math.round(x * 100) / 100]: rounding to two decimals. *)
Definition round2 (x : Q) : Q := inject_Z (Math_round (x * 100)) / 100.

(** Conversion of an integer number to a string, as a template literal
    does it. *)
Definition Number_toString (z : Z) : string := NilZero.string_of_int (Z.to_int z).

(** One rendering of [Number.prototype.toLocaleString], which depends on
    the locale of the host: the top-level functions take the rendering as
    an argument, and this one runs the examples. *)
Definition toLocaleString_plain (x : Q) : string := Number_toString (Math_round x).

End JS.

Import JS.

(** ** Outcomes of a call *)

Inductive Completion (A : Type) : Type :=
| Normal (value : A)          (* the call returns [value] *)
| Throw (message : string)    (* [throw new Error(message)] *)
| NotFinite                   (* a division by zero: no rational result *)
| OutOfFuel.                  (* the fuel of a loop ran out *)

Arguments Normal {A} value.
Arguments Throw {A} message.
Arguments NotFinite {A}.
Arguments OutOfFuel {A}.

Definition bind {A B : Type} (c : Completion A) (k : A -> Completion B) : Completion B :=
  match c with
  | Normal a => k a
  | Throw m => Throw m
  | NotFinite => NotFinite
  | OutOfFuel => OutOfFuel
  end.

Notation "x <- c ;; k" := (bind c (fun x => k))
  (at level 60, c at next level, right associativity).

(** A [while (cond) { if (leave) break; body }] loop over the variables
    [State] that it updates.  The condition and the [break] test are evaluated
    before a unit of fuel is asked for. *)
Section While.

Context {State : Type} (cond leave : State -> bool) (body : State -> State).

Fixpoint while (fuel : nat) (st : State) : Completion State :=
  if cond st then
    if leave st then Normal st
    else
      match fuel with
      | O => OutOfFuel
      | S fuel' => while fuel' (body st)
      end
  else Normal st.

End While.

(** The [break] test of a loop without a [break]. *)
Definition noBreak {State : Type} (st : State) : bool := false.

(** A quotient whose divisor is not a constant. *)
Definition Number_div (a b : Q) : Completion Q :=
  if Qeq_bool b 0 then NotFinite else Normal (a / b).

(** ** Loan Prepayment Impact Simulator *)

Record LoanPrepaymentInput : Type := {
  loanPrincipal : Q;
  annualInterestRate : Q;
  loanTenureMonths : Z;
  monthlyEMI : Q;
  outstandingPrincipal : Q;
  prepaymentAmount : Q;
  prepaymentMonth : Z
}.

Record LoanPrepaymentResult : Type := {
  interest_before_prepayment : Z;
  interest_after_prepayment : Z;
  interest_saved : Z;
  original_tenure_months : Z;
  new_tenure_months : Z;
  tenure_reduction_months : Z;
  summary : string
}.

(** Helper to calculate EMI. *)
Definition calculatePMT (principal monthlyRate : Q) (tenureMonths : Z) : Completion Q :=
  if eqb monthlyRate 0 then Number_div principal (inject_Z tenureMonths)
  else Number_div
         (principal * monthlyRate * Math_pow (1 + monthlyRate) tenureMonths)
         (Math_pow (1 + monthlyRate) tenureMonths - 1).

(** The variables that the simulation loop of
    [calculateLoanPrepaymentImpact] updates. *)
Record PrepayState : Type := {
  remainingPrincipal : Q;
  totalInterestPaid : Q;
  monthsElapsed : Z
}.

(** The validation at the top of [calculateLoanPrepaymentImpact]. *)
Definition prepaymentInputInvalid (input : LoanPrepaymentInput) : bool :=
  leb (loanPrincipal input) 0
  || ltb (annualInterestRate input) 0
  || (loanTenureMonths input <=? 0)%Z
  || leb (prepaymentAmount input) 0
  || (prepaymentMonth input <=? 0)%Z
  || (loanTenureMonths input <? prepaymentMonth input)%Z.

Section PrepaymentLoop.

Variables (monthlyRate calculatedEMI prepaymentAmount : Q).
Variables (prepaymentMonth SAFE_MAX_MONTHS : Z).

Definition prepaymentLoopCond (st : PrepayState) : bool :=
  ltb 1 (remainingPrincipal st) && (monthsElapsed st <? SAFE_MAX_MONTHS)%Z.

(** One iteration of the loop of lines 217-248.  The adjustments of
    [principalForMonth] and [prepaymentThisMonth] in the branch that
    clears the loan assign locals that are not read again; they are
    kept as the source has them. *)
Definition prepaymentLoopBody (st : PrepayState) : PrepayState :=
  let monthsElapsed' := (monthsElapsed st + 1)%Z in
  let interestForMonth := remainingPrincipal st * monthlyRate in
  let totalInterestPaid' := totalInterestPaid st + interestForMonth in
  let principalForMonth := calculatedEMI - interestForMonth in
  let prepaymentThisMonth :=
    if (monthsElapsed' =? prepaymentMonth)%Z then prepaymentAmount else 0 in
  if ltb (remainingPrincipal st) (principalForMonth + prepaymentThisMonth) then
    let principalForMonth1 := remainingPrincipal st - prepaymentThisMonth in
    let '(prepaymentThisMonth2, principalForMonth2) :=
      if ltb principalForMonth1 0 then (remainingPrincipal st, 0)
      else (prepaymentThisMonth, principalForMonth1) in
    {| remainingPrincipal := 0;
       totalInterestPaid := totalInterestPaid';
       monthsElapsed := monthsElapsed' |}
  else
    {| remainingPrincipal :=
         remainingPrincipal st - (principalForMonth + prepaymentThisMonth);
       totalInterestPaid := totalInterestPaid';
       monthsElapsed := monthsElapsed' |}.

Definition prepaymentLoop (fuel : nat) (st : PrepayState) : Completion PrepayState :=
  while prepaymentLoopCond noBreak prepaymentLoopBody fuel st.

End PrepaymentLoop.

Section PrepaymentImpact.

Variable toLocaleString : Q -> string.

Definition prepaymentSummary (prepaymentAmount : Q) (prepaymentMonth : Z)
    (interestSaved : Q) (tenureReduction : Z) : string :=
  ("By prepaying ₹" ++ toLocaleString prepaymentAmount
   ++ " in month " ++ Number_toString prepaymentMonth
   ++ ", you save ₹" ++ toLocaleString (inject_Z (Math_round interestSaved))
   ++ " and finish " ++ Number_toString tenureReduction
   ++ " months early.")%string.

(** Main function to calculate loan prepayment impact, at a given fuel
    for its loop. *)
Definition calculateLoanPrepaymentImpact_fuel (fuel : nat)
    (input : LoanPrepaymentInput) : Completion LoanPrepaymentResult :=
  let loanPrincipal := loanPrincipal input in
  let annualInterestRate := annualInterestRate input in
  let loanTenureMonths := loanTenureMonths input in
  let prepaymentAmount := prepaymentAmount input in
  let prepaymentMonth := prepaymentMonth input in
  if prepaymentInputInvalid input then Throw "Invalid input parameters"
  else
    let monthlyRate := annualInterestRate / 12 / 100 in
    calculatedEMI <- calculatePMT loanPrincipal monthlyRate loanTenureMonths ;;
    let totalAmountPayable := calculatedEMI * inject_Z loanTenureMonths in
    let interestBeforePrepayment := totalAmountPayable - loanPrincipal in
    let SAFE_MAX_MONTHS := (loanTenureMonths * 2)%Z in
    st <- prepaymentLoop monthlyRate calculatedEMI prepaymentAmount
            prepaymentMonth SAFE_MAX_MONTHS fuel
            {| remainingPrincipal := loanPrincipal;
               totalInterestPaid := 0;
               monthsElapsed := 0 |} ;;
    let interestAfterPrepayment := totalInterestPaid st in
    let interestSaved :=
      Math_max 0 (interestBeforePrepayment - interestAfterPrepayment) in
    let newTenureMonths := monthsElapsed st in
    let tenureReduction := Z.max 0 (loanTenureMonths - newTenureMonths) in
    Normal {|
      interest_before_prepayment := Math_round interestBeforePrepayment;
      interest_after_prepayment := Math_round interestAfterPrepayment;
      interest_saved := Math_round interestSaved;
      original_tenure_months := loanTenureMonths;
      new_tenure_months := newTenureMonths;
      tenure_reduction_months := tenureReduction;
      summary := prepaymentSummary prepaymentAmount prepaymentMonth
                   interestSaved tenureReduction
    |}.

(** The function as it is called: the loop is given as many steps as its
    cap [SAFE_MAX_MONTHS] allows. *)
Definition calculateLoanPrepaymentImpact (input : LoanPrepaymentInput)
    : Completion LoanPrepaymentResult :=
  calculateLoanPrepaymentImpact_fuel
    (Z.to_nat (loanTenureMonths input * 2)) input.

End PrepaymentImpact.

(** ** Debt Repayment Optimization *)

Record Loan : Type := {
  loan_name : string;
  outstanding_balance : Q;
  annual_interest_rate : Q;
  monthly_emi : Q
}.

Inductive RiskTolerance : Type := low | medium | high.

(** [monthly_surplus] and [risk_tolerance] are optional fields. *)
Record DebtRepaymentInput : Type := {
  loans : list Loan;
  monthly_surplus : option Q;
  risk_tolerance : option RiskTolerance
}.

Inductive Strategy : Type := avalanche | snowball.

Record DebtRepaymentResult : Type := {
  avalanche_order : list string;
  snowball_order : list string;
  recommended_strategy : Strategy;
  reason : string;
  estimated_interest_saved : Q
}.

(** The safety limit of the three simulation loops (50 years). *)
Definition maxMonths : Z := 600.

(** The threshold under which a balance counts as paid. *)
Definition paidEpsilon : Q := 1 # 100.

(** *** calculateLoanInterest: one loan paid with its own EMI *)

Module Baseline.

Record State : Type := {
  remainingBalance : Q;
  totalInterest : Q;
  months : Z
}.

Section Loop.

Variables (monthlyRate monthlyEMI : Q).

Definition cond (st : State) : bool :=
  ltb paidEpsilon (remainingBalance st) && (months st <? maxMonths)%Z.

(** [principalComponent <= 0], the test that leaves the loop. *)
Definition emiTooSmall (st : State) : bool :=
  leb (monthlyEMI - remainingBalance st * monthlyRate) 0.

Definition body (st : State) : State :=
  let interestComponent := remainingBalance st * monthlyRate in
  let principalComponent := monthlyEMI - interestComponent in
  {| remainingBalance := remainingBalance st - principalComponent;
     totalInterest := totalInterest st + interestComponent;
     months := (months st + 1)%Z |}.

Definition loop (fuel : nat) (st : State) : Completion State :=
  while cond emiTooSmall body fuel st.

End Loop.

Definition init (outstandingBalance : Q) : State :=
  {| remainingBalance := outstandingBalance; totalInterest := 0; months := 0 |}.

End Baseline.

Definition calculateLoanInterest (fuel : nat)
    (outstandingBalance annualInterestRate monthlyEMI : Q) : Completion Q :=
  let monthlyRate := annualInterestRate / 12 / 100 in
  st <- Baseline.loop monthlyRate monthlyEMI fuel (Baseline.init outstandingBalance) ;;
  Normal (round2 (Baseline.totalInterest st)).

(** Baseline total interest (no optimization): [loans.reduce] from 0. *)
Definition calculateBaselineInterest (fuel : nat) (loans : list Loan) : Completion Q :=
  fold_left
    (fun (acc : Completion Q) (loan : Loan) =>
       total <- acc ;;
       interest <- calculateLoanInterest fuel (outstanding_balance loan)
                     (annual_interest_rate loan) (monthly_emi loan) ;;
       Normal (total + interest))
    loans (Normal 0).

(** *** calculateStrategyInterest: all loans under a repayment order *)

Module Simulation.

(** The mutable variables of [calculateStrategyInterest]: the [Map] of
    balances, the [Set] of paid-off names, and the counters;
    [availableExtra] is declared anew in every month. *)
Record State : Type := {
  balances : gmap string Q;
  paidOffLoans : gset string;
  totalInterest : Q;
  availableExtra : Q;
  months : Z
}.

(** [new Map(loans.map(loan => [loan.loan_name, loan.outstanding_balance]))]:
    entries are set in order, a later one replaces an earlier one. *)
Definition initialBalances (loans : list Loan) : gmap string Q :=
  fold_left (fun m loan => <[loan_name loan := outstanding_balance loan]> m) loans ∅.

(** [balances.get(name) || 0]. *)
Definition getOrZero (m : gmap string Q) (name : string) : Q :=
  match m !! name with
  | Some b => if eqb b 0 then 0 else b
  | None => 0
  end.

(** [!currentPriorityLoanName]: undefined, or the empty string. *)
Definition noPriority (found : option string) : bool :=
  match found with
  | Some name => String.eqb name ""
  | None => true
  end.

Definition isPriority (name : string) (found : option string) : bool :=
  match found with
  | Some p => String.eqb name p
  | None => false
  end.

Section Month.

Variables (loans : list Loan) (repaymentOrder : list string) (monthlySurplus : Q).

Definition cond (st : State) : bool :=
  (size (paidOffLoans st) <? length loans)%nat && (months st <? maxMonths)%Z.

Definition findPriority (st : State) : option string :=
  find (fun name => negb (bool_decide (name ∈ paidOffLoans st))) repaymentOrder.

(** Surplus plus the EMIs of the loans already paid off. *)
Definition freedUp (st : State) : Q :=
  fold_left
    (fun extra loan =>
       if bool_decide (loan_name loan ∈ paidOffLoans st)
       then extra + monthly_emi loan else extra)
    loans monthlySurplus.

(** The body of the second [for (const loan of loans)]. *)
Definition loanStep (currentPriorityLoanName : option string)
    (st : State) (loan : Loan) : State :=
  if bool_decide (loan_name loan ∈ paidOffLoans st) then st
  else
    let balance := getOrZero (balances st) (loan_name loan) in
    if leb balance paidEpsilon then
      {| balances := balances st;
         paidOffLoans := {[ loan_name loan ]} ∪ paidOffLoans st;
         totalInterest := totalInterest st;
         availableExtra := availableExtra st;
         months := months st |}
    else
      let monthlyRate := annual_interest_rate loan / 12 / 100 in
      let interestComponent := balance * monthlyRate in
      let totalInterest' := totalInterest st + interestComponent in
      let principalFromEMI := Math_min (monthly_emi loan - interestComponent) balance in
      let newBalance := balance - principalFromEMI in
      let '(newBalance', availableExtra') :=
        if isPriority (loan_name loan) currentPriorityLoanName
           && ltb 0 (availableExtra st) && ltb paidEpsilon newBalance
        then
          let extraPayment := Math_min (availableExtra st) newBalance in
          (newBalance - extraPayment, availableExtra st - extraPayment)
        else (newBalance, availableExtra st) in
      {| balances := <[loan_name loan := Math_max 0 newBalance']> (balances st);
         paidOffLoans :=
           if leb newBalance' paidEpsilon
           then {[ loan_name loan ]} ∪ paidOffLoans st
           else paidOffLoans st;
         totalInterest := totalInterest';
         availableExtra := availableExtra';
         months := months st |}.

(** One iteration of the [while] loop, after the test for a priority
    loan. *)
Definition body (st : State) : State :=
  let currentPriorityLoanName := findPriority st in
  let st1 :=
    {| balances := balances st;
       paidOffLoans := paidOffLoans st;
       totalInterest := totalInterest st;
       availableExtra := freedUp st;
       months := months st |} in
  let st2 := fold_left (loanStep currentPriorityLoanName) loans st1 in
  {| balances := balances st2;
     paidOffLoans := paidOffLoans st2;
     totalInterest := totalInterest st2;
     availableExtra := availableExtra st2;
     months := (months st2 + 1)%Z |}.

(** [!currentPriorityLoanName], the test that leaves the loop. *)
Definition allPaid (st : State) : bool := noPriority (findPriority st).

Definition loop (fuel : nat) (st : State) : Completion State :=
  while cond allPaid body fuel st.

Definition init : State :=
  {| balances := initialBalances loans;
     paidOffLoans := ∅;
     totalInterest := 0;
     availableExtra := monthlySurplus;
     months := 0 |}.

End Month.

End Simulation.

Definition calculateStrategyInterest (fuel : nat) (loans : list Loan)
    (repaymentOrder : list string) (monthlySurplus : Q) : Completion Q :=
  st <- Simulation.loop loans repaymentOrder monthlySurplus fuel
          (Simulation.init loans monthlySurplus) ;;
  Normal (round2 (Simulation.totalInterest st)).

(** *** The two repayment orders *)

(** [Array.prototype.sort] with a comparator: a stable sort; [compare a b]
    positive puts [b] before [a].  For a consistent comparator every stable
    sort returns the same array; this is the insertion sort. *)
Section ArraySort.

Context {A : Type} (compare : A -> A -> Q).

Fixpoint sortedInsert (x : A) (l : list A) : list A :=
  match l with
  | [] => [x]
  | y :: l' => if ltb 0 (compare x y) then y :: sortedInsert x l' else x :: y :: l'
  end.

Fixpoint Array_sort (l : list A) : list A :=
  match l with
  | [] => []
  | x :: l' => sortedInsert x (Array_sort l')
  end.

End ArraySort.

Definition avalancheCompare (a b : Loan) : Q :=
  if neqb (annual_interest_rate b) (annual_interest_rate a)
  then annual_interest_rate b - annual_interest_rate a
  else outstanding_balance b - outstanding_balance a.

Definition snowballCompare (a b : Loan) : Q :=
  if neqb (outstanding_balance a) (outstanding_balance b)
  then outstanding_balance a - outstanding_balance b
  else annual_interest_rate b - annual_interest_rate a.

(** Avalanche method order (highest interest rate first). *)
Definition generateAvalancheOrder (loans : list Loan) : list string :=
  map loan_name (Array_sort avalancheCompare loans).

(** Snowball method order (smallest balance first). *)
Definition generateSnowballOrder (loans : list Loan) : list string :=
  map loan_name (Array_sort snowballCompare loans).

(** *** optimizeDebtRepayment *)

(** The test under [loans.some] in the validation. *)
Definition loanInvalid (loan : Loan) : bool :=
  String.eqb (loan_name loan) ""
  || leb (outstanding_balance loan) 0
  || ltb (annual_interest_rate loan) 0
  || leb (monthly_emi loan) 0.

Section Optimizer.

Variable toLocaleString : Q -> string.

(** The decision logic of lines 517-559: the strategy and its reason. *)
Definition decide_strategy (avalancheInterest snowballInterest : Q)
    (risk_tolerance : RiskTolerance) : Strategy * string :=
  let interestDifference := Math_abs (avalancheInterest - snowballInterest) in
  let shown := toLocaleString (inject_Z (Math_round interestDifference)) in
  let significantDifference :=
    ltb (Math_min avalancheInterest snowballInterest * (5 # 100)) interestDifference in
  if ltb avalancheInterest snowballInterest && significantDifference then
    (avalanche,
     match risk_tolerance with
     | low => "Avalanche method saves ₹" ++ shown ++ " more in interest by prioritizing high-interest loans. This is the mathematically optimal approach and aligns with conservative financial principles."
     | high => "Avalanche method saves ₹" ++ shown ++ " more in interest. While it may take longer to see the first loan paid off, the long-term savings make it the better financial choice."
     | medium => "Avalanche method saves ₹" ++ shown ++ " more in interest by targeting loans with the highest interest rates first. This approach minimizes total interest paid over time."
     end)%string
  else if ltb snowballInterest avalancheInterest && significantDifference then
    (snowball,
     "Snowball method saves ₹" ++ shown ++ " more in interest. By paying off smaller balances first, you free up cash flow faster, which can be strategically advantageous.")%string
  else
    match risk_tolerance with
    | low =>
        (snowball,
         "Both strategies have similar interest costs (difference: ₹" ++ shown ++ "). Snowball method is recommended for low risk tolerance as it provides quicker psychological wins by eliminating smaller debts first, improving cash flow and reducing stress.")%string
    | high =>
        (avalanche,
         "Both strategies have similar interest costs (difference: ₹" ++ shown ++ "). Avalanche method is recommended as it mathematically minimizes interest, and with high risk tolerance, you can benefit from the optimal financial outcome.")%string
    | medium =>
        if leb avalancheInterest snowballInterest then
          (avalanche,
           "Avalanche method saves ₹" ++ shown ++ " in interest. While the difference is modest, prioritizing high-interest loans is the financially sound approach.")%string
        else
          (snowball,
           "Snowball method provides faster debt elimination and improved cash flow. The interest difference is minimal (₹" ++ shown ++ "), making the psychological benefits of quick wins valuable.")%string
    end.

(** Main function to optimize debt repayment, at a given fuel for each of
    its simulation loops. *)
Definition optimizeDebtRepayment_fuel (fuel : nat) (input : DebtRepaymentInput)
    : Completion DebtRepaymentResult :=
  (* [loans] is a list: the [!loans] half of the first test, for a missing
     array, has no counterpart *)
  let loans := loans input in
  let monthly_surplus := default 0 (monthly_surplus input) in
  let risk_tolerance := default medium (risk_tolerance input) in
  if (length loans =? 0)%nat then Throw "At least one loan is required"
  else if existsb loanInvalid loans then Throw "Invalid loan data"
  else
    let avalancheOrder := generateAvalancheOrder loans in
    let snowballOrder := generateSnowballOrder loans in
    avalancheInterest <-
      calculateStrategyInterest fuel loans avalancheOrder monthly_surplus ;;
    snowballInterest <-
      calculateStrategyInterest fuel loans snowballOrder monthly_surplus ;;
    baselineInterest <- calculateBaselineInterest fuel loans ;;
    let avalancheSavings := baselineInterest - avalancheInterest in
    let snowballSavings := baselineInterest - snowballInterest in
    let '(recommendedStrategy, reason) :=
      decide_strategy avalancheInterest snowballInterest risk_tolerance in
    let estimatedInterestSaved :=
      match recommendedStrategy with
      | avalanche => avalancheSavings
      | snowball => snowballSavings
      end in
    Normal {|
      avalanche_order := avalancheOrder;
      snowball_order := snowballOrder;
      recommended_strategy := recommendedStrategy;
      reason := reason;
      estimated_interest_saved := round2 estimatedInterestSaved
    |}.

(** The function as it is called: each loop is given as many steps as
    its cap [maxMonths] allows. *)
Definition optimizeDebtRepayment (input : DebtRepaymentInput)
    : Completion DebtRepaymentResult :=
  optimizeDebtRepayment_fuel (Z.to_nat maxMonths) input.

End Optimizer.

(** ** The other functions of the two modules *)

(** [Math.ceil]. *)
Definition Math_ceil (x : Q) : Z := Qceiling x.

(** *** calculateNewTenure: remaining tenure at a constant EMI *)

Module NewTenure.

Record State : Type := {
  remainingPrincipal : Q;
  months : Z
}.

Section Loop.

Variables (monthlyRate emi : Q).

Definition cond (st : State) : bool :=
  ltb paidEpsilon (remainingPrincipal st) && (months st <? maxMonths)%Z.

(** [principalComponent <= 0], the test under which the loop returns. *)
Definition emiTooSmall (st : State) : bool :=
  leb (emi - remainingPrincipal st * monthlyRate) 0.

Definition body (st : State) : State :=
  let interestComponent := remainingPrincipal st * monthlyRate in
  let principalComponent := emi - interestComponent in
  {| remainingPrincipal := remainingPrincipal st - principalComponent;
     months := (months st + 1)%Z |}.

Definition loop (fuel : nat) (st : State) : Completion State :=
  while cond emiTooSmall body fuel st.

End Loop.

Definition init (principal : Q) : State :=
  {| remainingPrincipal := principal; months := 0 |}.

End NewTenure.

(** The loop is left either by its condition or by the [return maxMonths]
    of its body; in the state that [while] hands back the second case is
    the one where the condition and the test of the [return] both hold. *)
Definition calculateNewTenure (fuel : nat) (principal monthlyRate emi : Q)
    : Completion Z :=
  if eqb monthlyRate 0 then
    quotient <- Number_div principal emi ;;
    Normal (Math_ceil quotient)
  else
    st <- NewTenure.loop monthlyRate emi fuel (NewTenure.init principal) ;;
    if NewTenure.cond st && NewTenure.emiTooSmall monthlyRate emi st
    then Normal maxMonths
    else Normal (Math_ceil (inject_Z (NewTenure.months st))).

(** *** simulateLoanWithPrepayment: the month-by-month simulation *)

Module WithPrepayment.

Record Result : Type := {
  newTenureMonths : Z;
  totalInterestPaid : Q
}.

(** The variables of the [for] loop; [broke] records the [break] that
    follows a prepayment. *)
Record ForState : Type := {
  remainingPrincipal : Q;
  interestPaid : Q;
  monthsElapsed : Z;
  month : Z;
  broke : bool
}.

(** The variables of the [while] loop that follows. *)
Record TailState : Type := {
  tempPrincipal : Q;
  tailInterestPaid : Q;
  additionalMonths : Z
}.

Definition maxAdditionalMonths : Z := 600.

Section Loops.

Variables (monthlyRate emi prepaymentAmount : Q).
Variables (prepaymentMonth originalTenureMonths : Z).

Definition forCond (st : ForState) : bool :=
  negb (broke st) && (month st <=? originalTenureMonths)%Z.

(** [remainingPrincipal <= 0.01], the [break] at the top of the body. *)
Definition forPaid (st : ForState) : bool :=
  leb (remainingPrincipal st) paidEpsilon.

Definition forBody (st : ForState) : ForState :=
  let interestComponent := remainingPrincipal st * monthlyRate in
  let principalComponent := emi - interestComponent in
  let principalComponent' :=
    if ltb (remainingPrincipal st) principalComponent
    then remainingPrincipal st else principalComponent in
  let interestPaid' := interestPaid st + interestComponent in
  let remaining1 := remainingPrincipal st - principalComponent' in
  let monthsElapsed' := (monthsElapsed st + 1)%Z in
  if (month st =? prepaymentMonth)%Z && ltb 0 remaining1 then
    let prepaymentToApply := Math_min prepaymentAmount remaining1 in
    let remaining2 := remaining1 - prepaymentToApply in
    if leb remaining2 paidEpsilon then
      {| remainingPrincipal := remaining2;
         interestPaid := interestPaid';
         monthsElapsed := monthsElapsed';
         month := month st;
         broke := true |}
    else
      {| remainingPrincipal := remaining2;
         interestPaid := interestPaid';
         monthsElapsed := monthsElapsed';
         month := (month st + 1)%Z;
         broke := false |}
  else
    {| remainingPrincipal := remaining1;
       interestPaid := interestPaid';
       monthsElapsed := monthsElapsed';
       month := (month st + 1)%Z;
       broke := false |}.

Definition forLoop (fuel : nat) (st : ForState) : Completion ForState :=
  while forCond forPaid forBody fuel st.

Definition tailCond (st : TailState) : bool :=
  ltb paidEpsilon (tempPrincipal st)
  && (additionalMonths st <? maxAdditionalMonths)%Z.

(** [principalComponent <= 0], the test of the [break] that first sets
    [additionalMonths] to its cap. *)
Definition tailEmiTooSmall (st : TailState) : bool :=
  leb (emi - tempPrincipal st * monthlyRate) 0.

Definition tailBody (st : TailState) : TailState :=
  let interestComponent := tempPrincipal st * monthlyRate in
  let principalComponent := emi - interestComponent in
  {| tempPrincipal := tempPrincipal st - principalComponent;
     tailInterestPaid := tailInterestPaid st + interestComponent;
     additionalMonths := (additionalMonths st + 1)%Z |}.

Definition tailLoop (fuel : nat) (st : TailState) : Completion TailState :=
  while tailCond tailEmiTooSmall tailBody fuel st.

End Loops.

Definition forInit (originalPrincipal : Q) : ForState :=
  {| remainingPrincipal := originalPrincipal;
     interestPaid := 0;
     monthsElapsed := 0;
     month := 1;
     broke := false |}.

End WithPrepayment.

(** Simulate loan repayment with prepayment, from the start of the loan
    ([outstandingPrincipal] is a parameter that the function does not
    read). *)
Definition simulateLoanWithPrepayment (fuel : nat)
    (originalPrincipal outstandingPrincipal monthlyRate emi prepaymentAmount : Q)
    (prepaymentMonth originalTenureMonths : Z) : Completion WithPrepayment.Result :=
  st <- WithPrepayment.forLoop monthlyRate emi prepaymentAmount prepaymentMonth
          originalTenureMonths fuel (WithPrepayment.forInit originalPrincipal) ;;
  if ltb paidEpsilon (WithPrepayment.remainingPrincipal st) then
    tail <- WithPrepayment.tailLoop monthlyRate emi fuel
              {| WithPrepayment.tempPrincipal := WithPrepayment.remainingPrincipal st;
                 WithPrepayment.tailInterestPaid := WithPrepayment.interestPaid st;
                 WithPrepayment.additionalMonths := 0 |} ;;
    let additionalMonths :=
      if WithPrepayment.tailCond tail
         && WithPrepayment.tailEmiTooSmall monthlyRate emi tail
      then WithPrepayment.maxAdditionalMonths
      else WithPrepayment.additionalMonths tail in
    Normal {|
      WithPrepayment.newTenureMonths :=
        (WithPrepayment.monthsElapsed st + additionalMonths)%Z;
      WithPrepayment.totalInterestPaid :=
        round2 (WithPrepayment.tailInterestPaid tail)
    |}
  else
    Normal {|
      WithPrepayment.newTenureMonths := WithPrepayment.monthsElapsed st;
      WithPrepayment.totalInterestPaid := round2 (WithPrepayment.interestPaid st)
    |}.

(** *** The JSON entry points and the service layer *)

Section EntryPoints.

Variable toLocaleString : Q -> string.

(** [JSON.stringify] on a result record and on an [{error: message}]
    object: renderings that the entry points take as arguments. *)
Variable stringifyPrepayment : LoanPrepaymentResult -> string.
Variable stringifyRepayment : DebtRepaymentResult -> string.
Variable stringifyError : string -> string.

(** [try { ... } catch (error) { ... }] around a call whose exceptions
    are [Error] objects: the message is kept. *)
Definition simulateLoanPrepayment (input : LoanPrepaymentInput) : Completion string :=
  match calculateLoanPrepaymentImpact toLocaleString input with
  | Normal result => Normal (stringifyPrepayment result)
  | Throw message => Normal (stringifyError message)
  | NotFinite => NotFinite
  | OutOfFuel => OutOfFuel
  end.

Definition optimizeDebtRepaymentJSON (input : DebtRepaymentInput) : Completion string :=
  match optimizeDebtRepayment toLocaleString input with
  | Normal result => Normal (stringifyRepayment result)
  | Throw message => Normal (stringifyError message)
  | NotFinite => NotFinite
  | OutOfFuel => OutOfFuel
  end.

(** The service layer: loan prepayment service. *)
Definition calculatePrepaymentImpact (input : LoanPrepaymentInput) : Completion string :=
  simulateLoanPrepayment input.

Definition getPrepaymentImpact (input : LoanPrepaymentInput)
    : Completion LoanPrepaymentResult :=
  calculateLoanPrepaymentImpact toLocaleString input.

(** The service layer: debt repayment optimization service. *)
Definition optimizeDebtRepaymentStrategy (input : DebtRepaymentInput)
    : Completion string :=
  optimizeDebtRepaymentJSON input.

Definition getDebtRepaymentStrategy (input : DebtRepaymentInput)
    : Completion DebtRepaymentResult :=
  optimizeDebtRepayment toLocaleString input.

End EntryPoints.

(** ** Valid inputs, as the data model states them *)

Definition validPrepaymentInput (input : LoanPrepaymentInput) : Prop :=
  0 < loanPrincipal input
  /\ 0 <= annualInterestRate input
  /\ (0 < loanTenureMonths input)%Z
  /\ 0 < prepaymentAmount input
  /\ (1 <= prepaymentMonth input <= loanTenureMonths input)%Z.

Definition validLoan (loan : Loan) : Prop :=
  loan_name loan <> ""%string
  /\ 0 < outstanding_balance loan
  /\ 0 <= annual_interest_rate loan
  /\ 0 < monthly_emi loan.

Definition validDebtRepaymentInput (input : DebtRepaymentInput) : Prop :=
  loans input <> []
  /\ Forall validLoan (loans input)
  /\ 0 <= default 0 (monthly_surplus input).

(** ** Reference quantities of the proofs *)

(** The balance that is left of [principal] after [k] instalments of [emi],
    when nothing else is paid. *)
Fixpoint scheduled (principal monthlyRate emi : Q) (k : nat) : Q :=
  match k with
  | O => principal
  | S k' => scheduled principal monthlyRate emi k' * (1 + monthlyRate) - emi
  end.

(** The variables of the prepayment loop at its start. *)
Definition prepaymentInit (input : LoanPrepaymentInput) : PrepayState :=
  {| remainingPrincipal := loanPrincipal input;
     totalInterestPaid := 0;
     monthsElapsed := 0 |}.

(** The orders that the two comparators implement: [avalanchePrecedes a b]
    when [a] may come before [b] by rate descending, then balance
    descending; [snowballPrecedes a b] by balance ascending, then rate
    descending. *)
Definition avalanchePrecedes (a b : Loan) : Prop :=
  annual_interest_rate b < annual_interest_rate a
  \/ (annual_interest_rate a == annual_interest_rate b
      /\ outstanding_balance b <= outstanding_balance a).

Definition snowballPrecedes (a b : Loan) : Prop :=
  outstanding_balance a < outstanding_balance b
  \/ (outstanding_balance a == outstanding_balance b
      /\ annual_interest_rate b <= annual_interest_rate a).

(** The monthly rate of a loan, as the simulations compute it. *)
Definition monthlyRateOf (loan : Loan) : Q := annual_interest_rate loan / 12 / 100.

(** The EMI of the loan is more than one month of interest on its
    outstanding balance. *)
Definition emiCoversInterest (loan : Loan) : Prop :=
  outstanding_balance loan * monthlyRateOf loan < monthly_emi loan.


(** ** Sample inputs *)

(** A loan of 1200 at 12% a year over 3 months, 300 prepaid in month 2. *)
Definition sampleInput : LoanPrepaymentInput :=
  {| loanPrincipal := 1200; annualInterestRate := 12; loanTenureMonths := 3;
     monthlyEMI := 408; outstandingPrincipal := 1200;
     prepaymentAmount := 300; prepaymentMonth := 2 |}.

(** The same loan with other figures in the two unused fields. *)
Definition sampleInputOtherEMI : LoanPrepaymentInput :=
  {| loanPrincipal := 1200; annualInterestRate := 12; loanTenureMonths := 3;
     monthlyEMI := 5; outstandingPrincipal := 70;
     prepaymentAmount := 300; prepaymentMonth := 2 |}.

(** The same loan with a larger prepayment. *)
Definition sampleInputMorePrepaid : LoanPrepaymentInput :=
  {| loanPrincipal := 1200; annualInterestRate := 12; loanTenureMonths := 3;
     monthlyEMI := 408; outstandingPrincipal := 1200;
     prepaymentAmount := 500; prepaymentMonth := 2 |}.

(** Two small loans at the same rate, without a surplus. *)
Definition sampleLoans : DebtRepaymentInput :=
  {| loans :=
       [ {| loan_name := "A"; outstanding_balance := 1;
            annual_interest_rate := 48 # 10; monthly_emi := 10 |};
         {| loan_name := "B"; outstanding_balance := 1;
            annual_interest_rate := 48 # 10; monthly_emi := 10 |} ];
     monthly_surplus := None;
     risk_tolerance := None |}.

(** One loan whose EMI is below a month of interest. *)
Definition loanBelowInterest : DebtRepaymentInput :=
  {| loans :=
       [ {| loan_name := "A"; outstanding_balance := 1000;
            annual_interest_rate := 12; monthly_emi := 5 |} ];
     monthly_surplus := None;
     risk_tolerance := None |}.

(** Two loans under one name. *)
Definition loansSameName : DebtRepaymentInput :=
  {| loans :=
       [ {| loan_name := "A"; outstanding_balance := 1;
            annual_interest_rate := 1200; monthly_emi := 2 |};
         {| loan_name := "A"; outstanding_balance := 1000;
            annual_interest_rate := 0; monthly_emi := 1000 |} ];
     monthly_surplus := None;
     risk_tolerance := None |}.

(** The three loans of the usage example: credit card, personal loan and
    home loan. *)
Definition exampleLoans : list Loan :=
  [ {| loan_name := "Credit Card"; outstanding_balance := 150000;
       annual_interest_rate := 24; monthly_emi := 5000 |};
    {| loan_name := "Personal Loan"; outstanding_balance := 500000;
       annual_interest_rate := 125 # 10; monthly_emi := 15000 |};
    {| loan_name := "Home Loan"; outstanding_balance := 3000000;
       annual_interest_rate := 85 # 10; monthly_emi := 35000 |} ].

(** The interest that the schedule of [emi] charges in its first [k]
    months. *)
Fixpoint scheduledInterest (principal monthlyRate emi : Q) (k : nat) : Q :=
  match k with
  | O => 0
  | S k' => scheduledInterest principal monthlyRate emi k'
            + scheduled principal monthlyRate emi k' * monthlyRate
  end.

(** A loan of one unit of currency. *)
Definition sampleInputTiny : LoanPrepaymentInput :=
  {| loanPrincipal := 1; annualInterestRate := 12; loanTenureMonths := 3;
     monthlyEMI := 1; outstandingPrincipal := 1;
     prepaymentAmount := 1; prepaymentMonth := 2 |}.


(** ** The engine in binary64 arithmetic

    The same functions, with every [number] that holds an amount or a
    rate as an IEEE 754 binary64 value and every operation of the source
    as the binary64 operation, rounding, infinities and NaN included.
    Counts of months stay integers.  Two functions of the host are taken
    as arguments: [Math.pow], which ECMAScript leaves to the
    implementation to approximate, and [toLocaleString]. *)

Module Binary64.

Local Set Warnings "-inexact-float".
Local Open Scope float_scope.

(** *** JavaScript primitives on binary64 numbers

    [a < b], [a <= b] and [a === b] are [a <? b], [a <=? b] and
    [a =? b]: false on NaN, and [0 =? -0]. *)

(** An integer count as a number (for integers below 2^63 in magnitude:
    the binary64 value nearest to them, which is the integer itself up
    to 2^53). *)
Definition Number_of_Z (z : Z) : float :=
  if (0 <=? z)%Z then of_uint63 (Uint63.of_Z z)
  else - of_uint63 (Uint63.of_Z (- z)).

(** [Math.round]: the integer nearest to [x], halves towards plus
    infinity; NaN, the infinities and the zeros are returned as they
    are, and so is a number without a fractional part.  A number
    [m * 2^e] with [e < 0] is below 2^53 in magnitude, and
    [floor (x + 1/2)] is taken on its exact value; a negative number
    that rounds to zero gives [-0]. *)
Definition Math_round (x : float) : float :=
  match Prim2SF x with
  | S754_finite s m e =>
      if (0 <=? e)%Z then x
      else
        let scaled := cond_Zopp s (Zpos m) in
        let z := ((2 * scaled + 2 ^ (- e)) / 2 ^ (1 - e))%Z in
        if (z =? 0)%Z && s then neg_zero else Number_of_Z z
  | _ => x
  end.

(** [Math.max] and [Math.min]: NaN when an argument is NaN; [+0] is
    larger than [-0]. *)
Definition Math_max (a b : float) : float :=
  if is_nan a || is_nan b then nan
  else if a <? b then b
  else if b <? a then a
  else if is_zero a && get_sign a then b else a.

Definition Math_min (a b : float) : float :=
  if is_nan a || is_nan b then nan
  else if a <? b then a
  else if b <? a then b
  else if is_zero a && negb (get_sign a) then b else a.

Definition Math_abs (a : float) : float := abs a.

(** [Math.round(x * 100) / 100]: rounding to two decimals. *)
Definition round2 (x : float) : float := Math_round (x * 100) / 100.

(** The integer that a number without a fractional part holds. *)
Definition integerValue (x : float) : option Z :=
  match Prim2SF x with
  | S754_zero _ => Some 0%Z
  | S754_finite s m e =>
      Some (if (0 <=? e)%Z then cond_Zopp s (Zpos m) * 2 ^ e
            else cond_Zopp s (Zpos m) / 2 ^ (- e))%Z
  | _ => None
  end.

(** One rendering of [Number.prototype.toLocaleString], which depends on
    the locale of the host: the top-level functions take the rendering as
    an argument, and this one, which shows the nearest integer, runs the
    examples. *)
Definition toLocaleString_plain (x : float) : string :=
  match integerValue (Math_round x) with
  | Some z => Number_toString z
  | None => "NaN"
  end.

(** The correctly rounded power at a positive integer exponent: the value
    that an implementation of [Math.pow] approximates, and returns
    whenever the power is a binary64 number.  It runs the examples. *)
Definition Math_pow_rounded (base : float) (exponent : Z) : float :=
  match Prim2SF base with
  | S754_finite s m e =>
      SF2Prim (binary_normalize prec emax (cond_Zopp s (Zpos m) ^ exponent)
                 (e * exponent) false)
  | S754_infinity s => if s && Z.odd exponent then neg_infinity else infinity
  | S754_zero s => if s && Z.odd exponent then neg_zero else 0
  | S754_nan => nan
  end.

(** *** Loan Prepayment Impact Simulator *)

Record LoanPrepaymentInput : Type := {
  loanPrincipal : float;
  annualInterestRate : float;
  loanTenureMonths : Z;
  monthlyEMI : float;
  outstandingPrincipal : float;
  prepaymentAmount : float;
  prepaymentMonth : Z
}.

Record LoanPrepaymentResult : Type := {
  interest_before_prepayment : float;
  interest_after_prepayment : float;
  interest_saved : float;
  original_tenure_months : Z;
  new_tenure_months : Z;
  tenure_reduction_months : Z;
  summary : string
}.

(** The variables of the simulation loop. *)
Record PrepayState : Type := {
  remainingPrincipal : float;
  totalInterestPaid : float;
  monthsElapsed : Z
}.

(** The test of the input validation: true when the call throws. *)
Definition prepaymentInputInvalid (input : LoanPrepaymentInput) : bool :=
  (loanPrincipal input <=? 0)
  || (annualInterestRate input <? 0)
  || (loanTenureMonths input <=? 0)%Z
  || (prepaymentAmount input <=? 0)
  || (prepaymentMonth input <=? 0)%Z
  || (loanTenureMonths input <? prepaymentMonth input)%Z.

Section PrepaymentImpact.

Variable Math_pow : float -> Z -> float.
Variable toLocaleString : float -> string.

(** Helper to calculate EMI. *)
Definition calculatePMT (principal monthlyRate : float) (tenureMonths : Z) : float :=
  if monthlyRate =? 0 then principal / Number_of_Z tenureMonths
  else
    (principal * monthlyRate * Math_pow (1 + monthlyRate) tenureMonths)
    / (Math_pow (1 + monthlyRate) tenureMonths - 1).

Section Loop.

Variables (monthlyRate calculatedEMI prepaymentAmount : float).
Variables (prepaymentMonth SAFE_MAX_MONTHS : Z).

Definition prepaymentLoopCond (st : PrepayState) : bool :=
  (1 <? remainingPrincipal st) && (monthsElapsed st <? SAFE_MAX_MONTHS)%Z.

(** One iteration of the loop of lines 217-248.  The adjustments of
    [principalForMonth] and [prepaymentThisMonth] in the branch that
    clears the loan assign locals that are not read again. *)
Definition prepaymentLoopBody (st : PrepayState) : PrepayState :=
  let monthsElapsed' := (monthsElapsed st + 1)%Z in
  let interestForMonth := remainingPrincipal st * monthlyRate in
  let totalInterestPaid' := totalInterestPaid st + interestForMonth in
  let principalForMonth := calculatedEMI - interestForMonth in
  let prepaymentThisMonth :=
    if (monthsElapsed' =? prepaymentMonth)%Z then prepaymentAmount else 0 in
  if remainingPrincipal st <? principalForMonth + prepaymentThisMonth then
    {| remainingPrincipal := 0;
       totalInterestPaid := totalInterestPaid';
       monthsElapsed := monthsElapsed' |}
  else
    {| remainingPrincipal :=
         remainingPrincipal st - (principalForMonth + prepaymentThisMonth);
       totalInterestPaid := totalInterestPaid';
       monthsElapsed := monthsElapsed' |}.

Definition prepaymentLoop (fuel : nat) (st : PrepayState) : Completion PrepayState :=
  while prepaymentLoopCond noBreak prepaymentLoopBody fuel st.

End Loop.

Definition prepaymentSummary (prepaymentAmount : float) (prepaymentMonth : Z)
    (interestSaved : float) (tenureReduction : Z) : string :=
  ("By prepaying ₹" ++ toLocaleString prepaymentAmount
   ++ " in month " ++ Number_toString prepaymentMonth
   ++ ", you save ₹" ++ toLocaleString (Math_round interestSaved)
   ++ " and finish " ++ Number_toString tenureReduction
   ++ " months early.")%string.

(** Main function to calculate loan prepayment impact, at a given fuel
    for its loop. *)
Definition calculateLoanPrepaymentImpact_fuel (fuel : nat)
    (input : LoanPrepaymentInput) : Completion LoanPrepaymentResult :=
  let loanPrincipal := loanPrincipal input in
  let annualInterestRate := annualInterestRate input in
  let loanTenureMonths := loanTenureMonths input in
  let prepaymentAmount := prepaymentAmount input in
  let prepaymentMonth := prepaymentMonth input in
  if prepaymentInputInvalid input then Throw "Invalid input parameters"
  else
    let monthlyRate := annualInterestRate / 12 / 100 in
    let calculatedEMI := calculatePMT loanPrincipal monthlyRate loanTenureMonths in
    let totalAmountPayable := calculatedEMI * Number_of_Z loanTenureMonths in
    let interestBeforePrepayment := totalAmountPayable - loanPrincipal in
    let SAFE_MAX_MONTHS := (loanTenureMonths * 2)%Z in
    st <- prepaymentLoop monthlyRate calculatedEMI prepaymentAmount
            prepaymentMonth SAFE_MAX_MONTHS fuel
            {| remainingPrincipal := loanPrincipal;
               totalInterestPaid := 0;
               monthsElapsed := 0 |} ;;
    let interestAfterPrepayment := totalInterestPaid st in
    let interestSaved :=
      Math_max 0 (interestBeforePrepayment - interestAfterPrepayment) in
    let newTenureMonths := monthsElapsed st in
    let tenureReduction := Z.max 0 (loanTenureMonths - newTenureMonths) in
    Normal {|
      interest_before_prepayment := Math_round interestBeforePrepayment;
      interest_after_prepayment := Math_round interestAfterPrepayment;
      interest_saved := Math_round interestSaved;
      original_tenure_months := loanTenureMonths;
      new_tenure_months := newTenureMonths;
      tenure_reduction_months := tenureReduction;
      summary := prepaymentSummary prepaymentAmount prepaymentMonth
                   interestSaved tenureReduction
    |}.

(** The function as it is called: the loop is given as many steps as its
    cap [SAFE_MAX_MONTHS] allows. *)
Definition calculateLoanPrepaymentImpact (input : LoanPrepaymentInput)
    : Completion LoanPrepaymentResult :=
  calculateLoanPrepaymentImpact_fuel
    (Z.to_nat (loanTenureMonths input * 2)) input.

End PrepaymentImpact.

(** A valid input, as the data model states it. *)
Definition validPrepaymentInput (input : LoanPrepaymentInput) : Prop :=
  (0 <? loanPrincipal input) = true
  /\ (0 <=? annualInterestRate input) = true
  /\ (0 < loanTenureMonths input)%Z
  /\ (0 <? prepaymentAmount input) = true
  /\ (1 <= prepaymentMonth input <= loanTenureMonths input)%Z.

(** The variables of the prepayment loop at its start. *)
Definition prepaymentInit (input : LoanPrepaymentInput) : PrepayState :=
  {| remainingPrincipal := loanPrincipal input;
     totalInterestPaid := 0;
     monthsElapsed := 0 |}.

(** *** Debt Repayment Optimization *)

Record Loan : Type := {
  loan_name : string;
  outstanding_balance : float;
  annual_interest_rate : float;
  monthly_emi : float
}.

Record DebtRepaymentInput : Type := {
  loans : list Loan;
  monthly_surplus : option float;
  risk_tolerance : option RiskTolerance
}.

Record DebtRepaymentResult : Type := {
  avalanche_order : list string;
  snowball_order : list string;
  recommended_strategy : Strategy;
  reason : string;
  estimated_interest_saved : float
}.

(** *** calculateLoanInterest: one loan paid with its own EMI *)

Module Baseline.

Record State : Type := {
  remainingBalance : float;
  totalInterest : float;
  months : Z
}.

Section Loop.

Variables (monthlyRate monthlyEMI : float).

Definition cond (st : State) : bool :=
  (0.01 <? remainingBalance st) && (months st <? maxMonths)%Z.

(** [principalComponent <= 0], the test that leaves the loop. *)
Definition emiTooSmall (st : State) : bool :=
  monthlyEMI - remainingBalance st * monthlyRate <=? 0.

Definition body (st : State) : State :=
  let interestComponent := remainingBalance st * monthlyRate in
  let principalComponent := monthlyEMI - interestComponent in
  {| remainingBalance := remainingBalance st - principalComponent;
     totalInterest := totalInterest st + interestComponent;
     months := (months st + 1)%Z |}.

Definition loop (fuel : nat) (st : State) : Completion State :=
  while cond emiTooSmall body fuel st.

End Loop.

Definition init (outstandingBalance : float) : State :=
  {| remainingBalance := outstandingBalance; totalInterest := 0; months := 0 |}.

End Baseline.

Definition calculateLoanInterest (fuel : nat)
    (outstandingBalance annualInterestRate monthlyEMI : float) : Completion float :=
  let monthlyRate := annualInterestRate / 12 / 100 in
  st <- Baseline.loop monthlyRate monthlyEMI fuel (Baseline.init outstandingBalance) ;;
  Normal (round2 (Baseline.totalInterest st)).

(** Baseline total interest (no optimization): [loans.reduce] from 0. *)
Definition calculateBaselineInterest (fuel : nat) (loans : list Loan)
    : Completion float :=
  fold_left
    (fun (acc : Completion float) (loan : Loan) =>
       total <- acc ;;
       interest <- calculateLoanInterest fuel (outstanding_balance loan)
                     (annual_interest_rate loan) (monthly_emi loan) ;;
       Normal (total + interest))
    loans (Normal 0).

(** *** calculateStrategyInterest: all loans under a repayment order *)

Module Simulation.

(** The mutable variables of [calculateStrategyInterest]: the [Map] of
    balances, the [Set] of paid-off names, and the counters;
    [availableExtra] is declared anew in every month. *)
Record State : Type := {
  balances : gmap string float;
  paidOffLoans : gset string;
  totalInterest : float;
  availableExtra : float;
  months : Z
}.

(** [new Map(loans.map(loan => [loan.loan_name, loan.outstanding_balance]))]:
    entries are set in order, a later one replaces an earlier one. *)
Definition initialBalances (loans : list Loan) : gmap string float :=
  fold_left (fun m loan => <[loan_name loan := outstanding_balance loan]> m) loans ∅.

(** [balances.get(name) || 0]: 0 for a missing name, a zero or NaN. *)
Definition getOrZero (m : gmap string float) (name : string) : float :=
  match m !! name with
  | Some b => if is_nan b || is_zero b then 0 else b
  | None => 0
  end.

(** [!currentPriorityLoanName]: undefined, or the empty string. *)
Definition noPriority (found : option string) : bool :=
  match found with
  | Some name => String.eqb name ""
  | None => true
  end.

Definition isPriority (name : string) (found : option string) : bool :=
  match found with
  | Some p => String.eqb name p
  | None => false
  end.

Section Month.

Variables (loans : list Loan) (repaymentOrder : list string) (monthlySurplus : float).

Definition cond (st : State) : bool :=
  (size (paidOffLoans st) <? length loans)%nat && (months st <? maxMonths)%Z.

Definition findPriority (st : State) : option string :=
  find (fun name => negb (bool_decide (name ∈ paidOffLoans st))) repaymentOrder.

(** Surplus plus the EMIs of the loans already paid off. *)
Definition freedUp (st : State) : float :=
  fold_left
    (fun extra loan =>
       if bool_decide (loan_name loan ∈ paidOffLoans st)
       then extra + monthly_emi loan else extra)
    loans monthlySurplus.

(** The body of the second [for (const loan of loans)]. *)
Definition loanStep (currentPriorityLoanName : option string)
    (st : State) (loan : Loan) : State :=
  if bool_decide (loan_name loan ∈ paidOffLoans st) then st
  else
    let balance := getOrZero (balances st) (loan_name loan) in
    if balance <=? 0.01 then
      {| balances := balances st;
         paidOffLoans := {[ loan_name loan ]} ∪ paidOffLoans st;
         totalInterest := totalInterest st;
         availableExtra := availableExtra st;
         months := months st |}
    else
      let monthlyRate := annual_interest_rate loan / 12 / 100 in
      let interestComponent := balance * monthlyRate in
      let totalInterest' := totalInterest st + interestComponent in
      let principalFromEMI := Math_min (monthly_emi loan - interestComponent) balance in
      let newBalance := balance - principalFromEMI in
      let '(newBalance', availableExtra') :=
        if isPriority (loan_name loan) currentPriorityLoanName
           && (0 <? availableExtra st) && (0.01 <? newBalance)
        then
          let extraPayment := Math_min (availableExtra st) newBalance in
          (newBalance - extraPayment, availableExtra st - extraPayment)
        else (newBalance, availableExtra st) in
      {| balances := <[loan_name loan := Math_max 0 newBalance']> (balances st);
         paidOffLoans :=
           if newBalance' <=? 0.01
           then {[ loan_name loan ]} ∪ paidOffLoans st
           else paidOffLoans st;
         totalInterest := totalInterest';
         availableExtra := availableExtra';
         months := months st |}.

(** One iteration of the [while] loop, after the test for a priority
    loan. *)
Definition body (st : State) : State :=
  let currentPriorityLoanName := findPriority st in
  let st1 :=
    {| balances := balances st;
       paidOffLoans := paidOffLoans st;
       totalInterest := totalInterest st;
       availableExtra := freedUp st;
       months := months st |} in
  let st2 := fold_left (loanStep currentPriorityLoanName) loans st1 in
  {| balances := balances st2;
     paidOffLoans := paidOffLoans st2;
     totalInterest := totalInterest st2;
     availableExtra := availableExtra st2;
     months := (months st2 + 1)%Z |}.

(** [!currentPriorityLoanName], the test that leaves the loop. *)
Definition allPaid (st : State) : bool :=
  noPriority (findPriority st).

Definition loop (fuel : nat) (st : State) : Completion State :=
  while cond allPaid body fuel st.

Definition init : State :=
  {| balances := initialBalances loans;
     paidOffLoans := ∅;
     totalInterest := 0;
     availableExtra := monthlySurplus;
     months := 0 |}.

End Month.

End Simulation.

Definition calculateStrategyInterest (fuel : nat) (loans : list Loan)
    (repaymentOrder : list string) (monthlySurplus : float) : Completion float :=
  st <- Simulation.loop loans repaymentOrder monthlySurplus fuel
          (Simulation.init loans monthlySurplus) ;;
  Normal (round2 (Simulation.totalInterest st)).

(** *** The two repayment orders *)

(** [Array.prototype.sort] with a comparator: a stable sort; [compare a b]
    positive puts [b] before [a], and a NaN counts as 0. *)
Section ArraySort.

Context {A : Type} (compare : A -> A -> float).

Fixpoint sortedInsert (x : A) (l : list A) : list A :=
  match l with
  | [] => [x]
  | y :: l' => if 0 <? compare x y then y :: sortedInsert x l' else x :: y :: l'
  end.

Fixpoint Array_sort (l : list A) : list A :=
  match l with
  | [] => []
  | x :: l' => sortedInsert x (Array_sort l')
  end.

End ArraySort.

Definition avalancheCompare (a b : Loan) : float :=
  if negb (annual_interest_rate b =? annual_interest_rate a)
  then annual_interest_rate b - annual_interest_rate a
  else outstanding_balance b - outstanding_balance a.

Definition snowballCompare (a b : Loan) : float :=
  if negb (outstanding_balance a =? outstanding_balance b)
  then outstanding_balance a - outstanding_balance b
  else annual_interest_rate b - annual_interest_rate a.

(** Avalanche method order (highest interest rate first). *)
Definition generateAvalancheOrder (loans : list Loan) : list string :=
  map loan_name (Array_sort avalancheCompare loans).

(** Snowball method order (smallest balance first). *)
Definition generateSnowballOrder (loans : list Loan) : list string :=
  map loan_name (Array_sort snowballCompare loans).

(** The test of [loans.some] in the validation. *)
Definition loanInvalid (loan : Loan) : bool :=
  String.eqb (loan_name loan) ""
  || (outstanding_balance loan <=? 0)
  || (annual_interest_rate loan <? 0)
  || (monthly_emi loan <=? 0).

Section Optimizer.

Variable toLocaleString : float -> string.

(** The decision logic of lines 517-559: the strategy and its reason. *)
Definition decide_strategy (avalancheInterest snowballInterest : float)
    (risk_tolerance : RiskTolerance) : Strategy * string :=
  let interestDifference := Math_abs (avalancheInterest - snowballInterest) in
  let shown := toLocaleString (Math_round interestDifference) in
  let significantDifference :=
    Math_min avalancheInterest snowballInterest * 0.05 <? interestDifference in
  if (avalancheInterest <? snowballInterest) && significantDifference then
    (avalanche,
     match risk_tolerance with
     | low => "Avalanche method saves ₹" ++ shown ++ " more in interest by prioritizing high-interest loans. This is the mathematically optimal approach and aligns with conservative financial principles."
     | high => "Avalanche method saves ₹" ++ shown ++ " more in interest. While it may take longer to see the first loan paid off, the long-term savings make it the better financial choice."
     | medium => "Avalanche method saves ₹" ++ shown ++ " more in interest by targeting loans with the highest interest rates first. This approach minimizes total interest paid over time."
     end)%string
  else if (snowballInterest <? avalancheInterest) && significantDifference then
    (snowball,
     "Snowball method saves ₹" ++ shown ++ " more in interest. By paying off smaller balances first, you free up cash flow faster, which can be strategically advantageous.")%string
  else
    match risk_tolerance with
    | low =>
        (snowball,
         "Both strategies have similar interest costs (difference: ₹" ++ shown ++ "). Snowball method is recommended for low risk tolerance as it provides quicker psychological wins by eliminating smaller debts first, improving cash flow and reducing stress.")%string
    | high =>
        (avalanche,
         "Both strategies have similar interest costs (difference: ₹" ++ shown ++ "). Avalanche method is recommended as it mathematically minimizes interest, and with high risk tolerance, you can benefit from the optimal financial outcome.")%string
    | medium =>
        if avalancheInterest <=? snowballInterest then
          (avalanche,
           "Avalanche method saves ₹" ++ shown ++ " in interest. While the difference is modest, prioritizing high-interest loans is the financially sound approach.")%string
        else
          (snowball,
           "Snowball method provides faster debt elimination and improved cash flow. The interest difference is minimal (₹" ++ shown ++ "), making the psychological benefits of quick wins valuable.")%string
    end.

(** Main function to optimize debt repayment, at a given fuel for each of
    its simulation loops. *)
Definition optimizeDebtRepayment_fuel (fuel : nat) (input : DebtRepaymentInput)
    : Completion DebtRepaymentResult :=
  let loans := loans input in
  let monthly_surplus := default 0 (monthly_surplus input) in
  let risk_tolerance := default medium (risk_tolerance input) in
  if (length loans =? 0)%nat then Throw "At least one loan is required"
  else if existsb loanInvalid loans then Throw "Invalid loan data"
  else
    let avalancheOrder := generateAvalancheOrder loans in
    let snowballOrder := generateSnowballOrder loans in
    avalancheInterest <-
      calculateStrategyInterest fuel loans avalancheOrder monthly_surplus ;;
    snowballInterest <-
      calculateStrategyInterest fuel loans snowballOrder monthly_surplus ;;
    baselineInterest <- calculateBaselineInterest fuel loans ;;
    let avalancheSavings := baselineInterest - avalancheInterest in
    let snowballSavings := baselineInterest - snowballInterest in
    let '(recommendedStrategy, reason) :=
      decide_strategy avalancheInterest snowballInterest risk_tolerance in
    let estimatedInterestSaved :=
      match recommendedStrategy with
      | avalanche => avalancheSavings
      | snowball => snowballSavings
      end in
    Normal {|
      avalanche_order := avalancheOrder;
      snowball_order := snowballOrder;
      recommended_strategy := recommendedStrategy;
      reason := reason;
      estimated_interest_saved := round2 estimatedInterestSaved
    |}.

(** The function as it is called: each loop is given as many steps as
    its cap [maxMonths] allows. *)
Definition optimizeDebtRepayment (input : DebtRepaymentInput)
    : Completion DebtRepaymentResult :=
  optimizeDebtRepayment_fuel (Z.to_nat maxMonths) input.

End Optimizer.

(** A valid loan and a valid input, as the data model states them. *)
Definition validLoan (loan : Loan) : Prop :=
  loan_name loan <> ""%string
  /\ (0 <? outstanding_balance loan) = true
  /\ (0 <=? annual_interest_rate loan) = true
  /\ (0 <? monthly_emi loan) = true.

Definition validDebtRepaymentInput (input : DebtRepaymentInput) : Prop :=
  loans input <> []
  /\ Forall validLoan (loans input)
  /\ (0 <=? default 0 (monthly_surplus input)) = true.

(** *** Reference quantities of the proofs *)

(** A number that is NaN or not below 0, and the same of its
    specification. *)
Definition notNegative (x : float) : Prop :=
  is_nan x = true \/ (0 <=? x) = true.

Definition notNegativeSF (sf : spec_float) : Prop :=
  match sf with
  | S754_infinity s | S754_finite s _ _ => s = false
  | _ => True
  end.

(** A zero or NaN. *)
Definition zeroOrNaN (x : float) : Prop := x = 0 \/ x = neg_zero \/ x = nan.

(** A number with its sign bit set, or NaN. *)
Definition signedSF (sf : spec_float) : Prop :=
  match sf with
  | S754_zero s | S754_infinity s | S754_finite s _ _ => s = true
  | S754_nan => True
  end.

(** What the [Map] of balances holds under [name], as the strategy
    simulation reads it, against the balance [rb] of the loop of
    [calculateLoanInterest]: the same number while it is above 0.01, and a
    number that is at most 0.01 once it is not. *)
Definition sameBalance (name : string) (rb : float)
    (balances : gmap string float) : Prop :=
  if 0.01 <? rb then Simulation.getOrZero balances name = rb
  else (Simulation.getOrZero balances name <=? 0.01) = true.

(** *** Sample inputs *)

(** A loan of 1200 at 12% a year over 3 months, 300 prepaid in month 2. *)
Definition sampleInput : LoanPrepaymentInput :=
  {| loanPrincipal := 1200; annualInterestRate := 12; loanTenureMonths := 3;
     monthlyEMI := 408; outstandingPrincipal := 1200;
     prepaymentAmount := 300; prepaymentMonth := 2 |}.

(** The same loan with other figures in the two unused fields. *)
Definition sampleInputOtherEMI : LoanPrepaymentInput :=
  {| loanPrincipal := 1200; annualInterestRate := 12; loanTenureMonths := 3;
     monthlyEMI := 5; outstandingPrincipal := 70;
     prepaymentAmount := 300; prepaymentMonth := 2 |}.

(** The same loan with a principal that is not a number. *)
Definition sampleInputNaN : LoanPrepaymentInput :=
  {| loanPrincipal := nan; annualInterestRate := 12; loanTenureMonths := 3;
     monthlyEMI := 408; outstandingPrincipal := 1200;
     prepaymentAmount := 300; prepaymentMonth := 2 |}.

(** The same loan without interest. *)
Definition sampleInputNoInterest : LoanPrepaymentInput :=
  {| loanPrincipal := 1200; annualInterestRate := 0; loanTenureMonths := 3;
     monthlyEMI := 400; outstandingPrincipal := 1200;
     prepaymentAmount := 300; prepaymentMonth := 2 |}.

(** A loan at 1200% a year over 60 months: the monthly rate is 1, and
    [2^60 - 1] is rounded to [2^60], so that the EMI is the interest of a
    month and no more. *)
Definition inputRateOfOne : LoanPrepaymentInput :=
  {| loanPrincipal := 1000; annualInterestRate := 1200; loanTenureMonths := 60;
     monthlyEMI := 1000; outstandingPrincipal := 1000;
     prepaymentAmount := 0.01; prepaymentMonth := 60 |}.

(** The same loan with a principal of [10^18], which a prepayment of 1 in
    month 60 leaves as it is: the numbers next to [10^18] are 128 away. *)
Definition inputAtCap : LoanPrepaymentInput :=
  {| loanPrincipal := 1e18; annualInterestRate := 1200; loanTenureMonths := 60;
     monthlyEMI := 1e18; outstandingPrincipal := 1e18;
     prepaymentAmount := 1; prepaymentMonth := 60 |}.

(** A rate at which [(1 + r)^n] is beyond the largest binary64 number. *)
Definition inputPowerOverflows : LoanPrepaymentInput :=
  {| loanPrincipal := 1000; annualInterestRate := 1200000; loanTenureMonths := 103;
     monthlyEMI := 1000; outstandingPrincipal := 1000;
     prepaymentAmount := 1000; prepaymentMonth := 1 |}.

(** A principal without interest whose 41st part is not a binary64
    number. *)
Definition inputLargeNoInterest : LoanPrepaymentInput :=
  {| loanPrincipal := 7e15; annualInterestRate := 0; loanTenureMonths := 41;
     monthlyEMI := 0; outstandingPrincipal := 7e15;
     prepaymentAmount := 1; prepaymentMonth := 1 |}.

(** Two small loans at the same rate, without a surplus. *)
Definition sampleLoans : DebtRepaymentInput :=
  {| loans :=
       [ {| loan_name := "A"; outstanding_balance := 1;
            annual_interest_rate := 4.8; monthly_emi := 10 |};
         {| loan_name := "B"; outstanding_balance := 1;
            annual_interest_rate := 4.8; monthly_emi := 10 |} ];
     monthly_surplus := None;
     risk_tolerance := None |}.

(** Two loans whose strategies cost 12.81 and 12.2: the difference,
    0.6100000000000012 in binary64, is just above 5% of the smaller
    one. *)
Definition loansAtThreshold : DebtRepaymentInput :=
  {| loans :=
       [ {| loan_name := "A"; outstanding_balance := 500;
            annual_interest_rate := 24; monthly_emi := 500 |};
         {| loan_name := "B"; outstanding_balance := 400;
            annual_interest_rate := 6; monthly_emi := 240 |} ];
     monthly_surplus := Some 200;
     risk_tolerance := Some high |}.

(** One loan whose EMI is below a month of interest. *)
Definition loanBelowInterest : DebtRepaymentInput :=
  {| loans :=
       [ {| loan_name := "A"; outstanding_balance := 1000;
            annual_interest_rate := 12; monthly_emi := 5 |} ];
     monthly_surplus := None;
     risk_tolerance := None |}.

(** One loan whose EMI is above a month of interest, 43.75, by less than
    the rounding of the monthly rate: the interest of the first month
    comes out as the EMI itself. *)
Definition loanAtInterest : DebtRepaymentInput :=
  {| loans :=
       [ {| loan_name := "A"; outstanding_balance := 5000;
            annual_interest_rate := 10.5; monthly_emi := 43.75000000000001 |} ];
     monthly_surplus := None;
     risk_tolerance := None |}.

(** One loan that its EMI repays within a year. *)
Definition loanRepaid : DebtRepaymentInput :=
  {| loans :=
       [ {| loan_name := "A"; outstanding_balance := 1000;
            annual_interest_rate := 12; monthly_emi := 100 |} ];
     monthly_surplus := None;
     risk_tolerance := None |}.

(** One loan with an infinite balance, at no interest. *)
Definition loanWithoutBound : DebtRepaymentInput :=
  {| loans :=
       [ {| loan_name := "A"; outstanding_balance := infinity;
            annual_interest_rate := 0; monthly_emi := 100 |} ];
     monthly_surplus := None;
     risk_tolerance := None |}.

End Binary64.

(** * Properties *)

(** ** The primitives *)

Lemma ltb_true (a b : Q) : ltb a b = true <-> a < b.
Proof.
  unfold ltb. rewrite negb_true_iff. split.
  - intros H. apply Qnot_le_lt. intros Hle.
    apply Qle_bool_iff in Hle. congruence.
  - intros H. destruct (Qle_bool b a) eqn:E; [|reflexivity].
    apply Qle_bool_iff in E. exfalso. apply (Qlt_not_le _ _ H E).
Qed.

Lemma ltb_false (a b : Q) : ltb a b = false <-> b <= a.
Proof.
  unfold ltb. rewrite negb_false_iff. apply Qle_bool_iff.
Qed.

Lemma leb_true (a b : Q) : leb a b = true <-> a <= b.
Proof. apply Qle_bool_iff. Qed.

Lemma leb_false (a b : Q) : leb a b = false <-> b < a.
Proof.
  unfold leb. split.
  - intros H. apply Qnot_le_lt. intros Hle.
    apply Qle_bool_iff in Hle. congruence.
  - intros H. destruct (Qle_bool a b) eqn:E; [|reflexivity].
    apply Qle_bool_iff in E. exfalso. apply (Qlt_not_le _ _ H E).
Qed.

Lemma eqb_true (a b : Q) : eqb a b = true <-> a == b.
Proof. apply Qeq_bool_iff. Qed.

Lemma eqb_false (a b : Q) : eqb a b = false <-> ~ a == b.
Proof.
  unfold eqb. split.
  - apply Qeq_bool_neq.
  - intros H. destruct (Qeq_bool a b) eqn:E; [|reflexivity].
    apply Qeq_bool_iff in E. contradiction.
Qed.

(** Turn the boolean tests of the source in the context into
    (in)equalities. *)
Ltac qtests :=
  repeat match goal with
  | H : ltb _ _ = true |- _ => apply ltb_true in H
  | H : ltb _ _ = false |- _ => apply ltb_false in H
  | H : leb _ _ = true |- _ => apply leb_true in H
  | H : leb _ _ = false |- _ => apply leb_false in H
  | H : eqb _ _ = true |- _ => apply eqb_true in H
  | H : eqb _ _ = false |- _ => apply eqb_false in H
  | H : neqb _ _ = true |- _ => apply negb_true_iff, eqb_false in H
  | H : neqb _ _ = false |- _ => apply negb_false_iff, eqb_true in H
  | H : Qle_bool _ _ = true |- _ => apply leb_true in H
  | H : Qle_bool _ _ = false |- _ => apply leb_false in H
  | H : (_ && _)%bool = true |- _ => apply andb_true_iff in H; destruct H
  | H : (_ || _)%bool = false |- _ => apply orb_false_iff in H; destruct H
  | H : (_ <? _)%Z = true |- _ => apply Z.ltb_lt in H
  | H : (_ <? _)%Z = false |- _ => apply Z.ltb_ge in H
  | H : (_ <=? _)%Z = true |- _ => apply Z.leb_le in H
  | H : (_ <=? _)%Z = false |- _ => apply Z.leb_gt in H
  | H : (_ =? _)%Z = true |- _ => apply Z.eqb_eq in H
  | H : (_ =? _)%Z = false |- _ => apply Z.eqb_neq in H
  end.

Lemma Math_max_cases (a b : Q) :
  (a <= b /\ Math_max a b = b) \/ (b < a /\ Math_max a b = a).
Proof. unfold Math_max. destruct (Qle_bool a b) eqn:E; qtests; auto. Qed.

Lemma Math_min_cases (a b : Q) :
  (a <= b /\ Math_min a b = a) \/ (b < a /\ Math_min a b = b).
Proof. unfold Math_min. destruct (Qle_bool a b) eqn:E; qtests; auto. Qed.

Lemma Math_round_mono (x y : Q) : x <= y -> (Math_round x <= Math_round y)%Z.
Proof. intros H. apply Qfloor_resp_le. lra. Qed.

Lemma Math_round_eq (x y : Q) : x == y -> Math_round x = Math_round y.
Proof. intros H. unfold Math_round. rewrite H. reflexivity. Qed.

Lemma div_100 (x : Q) : x / 100 == x * (1 # 100).
Proof. field. Qed.

Lemma div_12_100 (x : Q) : x / 12 / 100 == x * (1 # 1200).
Proof. field. Qed.

Lemma round2_mono (x y : Q) : x <= y -> round2 x <= round2 y.
Proof.
  intros H. unfold round2.
  assert (Hz : (Math_round (x * 100) <= Math_round (y * 100))%Z)
    by (apply Math_round_mono; lra).
  rewrite Zle_Qle in Hz. rewrite !div_100. lra.
Qed.

(** ** The loop combinator *)

Section WhileFacts.

Context {State : Type} (cond leave : State -> bool) (body : State -> State).

(** An invariant of the body holds on exit, where the condition or the
    [break] test has ended the loop. *)
Lemma while_invariant (Inv : State -> Prop) :
  (forall st, Inv st -> cond st = true -> leave st = false -> Inv (body st)) ->
  forall fuel st st',
    Inv st -> while cond leave body fuel st = Normal st' ->
    Inv st' /\ (cond st' = false \/ leave st' = true).
Proof.
  intros Hstep fuel. induction fuel as [|fuel IH]; intros st st' Hinv Hrun;
    simpl in Hrun; destruct (cond st) eqn:Hc; try destruct (leave st) eqn:Hl;
    try discriminate; try (injection Hrun as <-; auto; fail).
  apply (IH (body st)); auto.
Qed.

(** A loop whose body decreases a measure stops within that many
    steps. *)
Lemma while_terminates (measure : State -> nat) :
  (forall st, cond st = true -> leave st = false ->
              (measure (body st) < measure st)%nat) ->
  forall fuel st, (measure st <= fuel)%nat ->
    exists st', while cond leave body fuel st = Normal st'.
Proof.
  intros Hdec fuel. induction fuel as [|fuel IH]; intros st Hm; simpl;
    destruct (cond st) eqn:Hc; try destruct (leave st) eqn:Hl; eauto.
  - specialize (Hdec st Hc Hl). lia.
  - apply IH. specialize (Hdec st Hc Hl). lia.
Qed.

End WhileFacts.

(** ** The prepayment simulation *)

Section PrepaymentLoopFacts.

Variables (monthlyRate calculatedEMI : Q) (prepaymentMonth SAFE_MAX_MONTHS : Z).

Let body := prepaymentLoopBody monthlyRate calculatedEMI.
Let run := prepaymentLoop monthlyRate calculatedEMI.

Lemma prepaymentLoopBody_months pp st :
  monthsElapsed (body pp prepaymentMonth st) = (monthsElapsed st + 1)%Z.
Proof.
  unfold body, prepaymentLoopBody.
  destruct (ltb _ _); [destruct (ltb _ _)|]; reflexivity.
Qed.

Lemma prepaymentLoopBody_total pp st :
  totalInterestPaid (body pp prepaymentMonth st)
  = totalInterestPaid st + remainingPrincipal st * monthlyRate.
Proof.
  unfold body, prepaymentLoopBody.
  destruct (ltb _ _); [destruct (ltb _ _)|]; reflexivity.
Qed.

(** What the month leaves of the principal: nothing when the payment
    and the prepayment clear the loan. *)
Lemma prepaymentLoopBody_remaining pp st :
  let due := calculatedEMI - remainingPrincipal st * monthlyRate
             + (if (monthsElapsed st + 1 =? prepaymentMonth)%Z then pp else 0) in
  remainingPrincipal (body pp prepaymentMonth st)
  = if ltb (remainingPrincipal st) due then 0 else remainingPrincipal st - due.
Proof.
  unfold body, prepaymentLoopBody.
  destruct (ltb _ _); [destruct (ltb _ _)|]; reflexivity.
Qed.

Lemma prepaymentLoopBody_nonneg pp st :
  0 <= remainingPrincipal (body pp prepaymentMonth st).
Proof.
  rewrite prepaymentLoopBody_remaining.
  destruct (ltb _ _) eqn:E; qtests; lra.
Qed.

(** The cap on the months bounds the number of iterations. *)
Lemma prepaymentLoop_returns pp fuel st :
  (Z.to_nat (SAFE_MAX_MONTHS - monthsElapsed st) <= fuel)%nat ->
  exists st', run pp prepaymentMonth SAFE_MAX_MONTHS fuel st = Normal st'.
Proof.
  apply (while_terminates _ _ _
           (fun st => Z.to_nat (SAFE_MAX_MONTHS - monthsElapsed st))).
  intros s Hc _. unfold prepaymentLoopCond in Hc. qtests.
  rewrite prepaymentLoopBody_months. lia.
Qed.

Lemma prepaymentLoop_months_le pp fuel st st' :
  (monthsElapsed st <= SAFE_MAX_MONTHS)%Z ->
  run pp prepaymentMonth SAFE_MAX_MONTHS fuel st = Normal st' ->
  (monthsElapsed st <= monthsElapsed st' <= SAFE_MAX_MONTHS)%Z.
Proof.
  intros Hle Hrun.
  apply (while_invariant _ _ _
           (fun s => (monthsElapsed st <= monthsElapsed s <= SAFE_MAX_MONTHS)%Z))
    in Hrun; [tauto| |lia].
  intros s Hs Hc _. unfold prepaymentLoopCond in Hc. qtests.
  rewrite prepaymentLoopBody_months. lia.
Qed.

Hypothesis rate_nonneg : 0 <= monthlyRate.

(** Interest only accumulates, and the principal never goes below 0. *)
Lemma prepaymentLoop_progress pp fuel st st' :
  0 <= remainingPrincipal st ->
  run pp prepaymentMonth SAFE_MAX_MONTHS fuel st = Normal st' ->
  0 <= remainingPrincipal st'
  /\ totalInterestPaid st <= totalInterestPaid st'
  /\ (monthsElapsed st <= monthsElapsed st')%Z.
Proof.
  intros Hrem Hrun.
  apply (while_invariant _ _ _
           (fun s => 0 <= remainingPrincipal s
                     /\ totalInterestPaid st <= totalInterestPaid s
                     /\ (monthsElapsed st <= monthsElapsed s)%Z))
    in Hrun; [tauto| |repeat split; [lra|lra|lia]].
  intros s (Hs1 & Hs2 & Hs3) _ _. repeat split.
  - apply prepaymentLoopBody_nonneg.
  - rewrite prepaymentLoopBody_total.
    pose proof (Qmult_le_0_compat _ _ Hs1 rate_nonneg). lra.
  - rewrite prepaymentLoopBody_months. lia.
Qed.

(** Two runs that differ in the prepayment amount only: the run with the
    larger prepayment stays below the other one. *)
Lemma prepaymentLoop_lockstep pp1 pp2 :
  pp1 <= pp2 ->
  forall fuel st1 st2 st1' st2',
    monthsElapsed st1 = monthsElapsed st2 ->
    0 <= remainingPrincipal st2 ->
    remainingPrincipal st2 <= remainingPrincipal st1 ->
    totalInterestPaid st2 <= totalInterestPaid st1 ->
    run pp1 prepaymentMonth SAFE_MAX_MONTHS fuel st1 = Normal st1' ->
    run pp2 prepaymentMonth SAFE_MAX_MONTHS fuel st2 = Normal st2' ->
    totalInterestPaid st2' <= totalInterestPaid st1'
    /\ (monthsElapsed st2' <= monthsElapsed st1')%Z.
Proof.
  intros Hpp fuel.
  induction fuel as [|fuel IH]; intros st1 st2 st1' st2' Hm Hr0 Hr Ht H1 H2.
  - unfold run, prepaymentLoop in H2. simpl in H2.
    destruct (prepaymentLoopCond SAFE_MAX_MONTHS st2) eqn:Hc2; [discriminate|].
    injection H2 as <-.
    apply prepaymentLoop_progress in H1; [|lra].
    destruct H1 as (_ & ? & ?). split; [lra|lia].
  - pose proof H2 as H2'. unfold run, prepaymentLoop in H2. simpl in H2.
    destruct (prepaymentLoopCond SAFE_MAX_MONTHS st2) eqn:Hc2.
    + assert (Hc1 : prepaymentLoopCond SAFE_MAX_MONTHS st1 = true).
      { unfold prepaymentLoopCond in *. qtests.
        apply andb_true_iff. split; [apply ltb_true; lra|apply Z.ltb_lt; lia]. }
      unfold run, prepaymentLoop in H1. simpl in H1. rewrite Hc1 in H1.
      simpl in H1, H2.
      refine (IH _ _ _ _ _ _ _ _ H1 H2).
      * fold (body pp1 prepaymentMonth st1). fold (body pp2 prepaymentMonth st2).
        rewrite !prepaymentLoopBody_months. lia.
      * apply prepaymentLoopBody_nonneg.
      * fold (body pp1 prepaymentMonth st1). fold (body pp2 prepaymentMonth st2).
        rewrite !prepaymentLoopBody_remaining. rewrite <- Hm.
        pose proof (Qmult_le_compat_r _ _ _ Hr rate_nonneg) as Hi.
        destruct (monthsElapsed st1 + 1 =? prepaymentMonth)%Z;
          destruct (ltb (remainingPrincipal st1) _) eqn:E1;
          destruct (ltb (remainingPrincipal st2) _) eqn:E2; qtests; lra.
      * fold (body pp1 prepaymentMonth st1). fold (body pp2 prepaymentMonth st2).
        rewrite !prepaymentLoopBody_total.
        pose proof (Qmult_le_compat_r _ _ _ Hr rate_nonneg) as Hi. lra.
    + injection H2 as <-.
      apply prepaymentLoop_progress in H1; [|lra].
      destruct H1 as (_ & ? & ?). split; [lra|lia].
Qed.

End PrepaymentLoopFacts.

(** ** The EMI and the schedule that it amortizes *)

Lemma validPrepaymentInput_iff (input : LoanPrepaymentInput) :
  prepaymentInputInvalid input = false <-> validPrepaymentInput input.
Proof.
  unfold prepaymentInputInvalid, validPrepaymentInput. split.
  - intros H. qtests. repeat split; try lra; lia.
  - intros (H1 & H2 & H3 & H4 & H5 & H6).
    repeat (apply orb_false_iff; split);
      first [apply leb_false; lra | apply ltb_false; lra
            | apply Z.leb_gt; lia | apply Z.ltb_ge; lia].
Qed.

Lemma monthlyRate_nonneg (annual : Q) : 0 <= annual -> 0 <= annual / 12 / 100.
Proof. intros H. rewrite div_12_100. lra. Qed.

Section Schedule.

Variables (principal monthlyRate : Q) (tenureMonths : Z).
Hypothesis rate_nonneg : 0 <= monthlyRate.
Hypothesis tenure_pos : (0 < tenureMonths)%Z.

Lemma growth_gt_1 :
  ~ monthlyRate == 0 -> 1 < Math_pow (1 + monthlyRate) tenureMonths.
Proof.
  intros Hr. apply Qpower_1_lt; [|exact tenure_pos].
  destruct (Qlt_le_dec 0 monthlyRate) as [H|H]; [lra|].
  exfalso. apply Hr. lra.
Qed.

(** On a non-negative rate and a positive tenure no divisor is 0. *)
Lemma calculatePMT_returns :
  exists emi, calculatePMT principal monthlyRate tenureMonths = Normal emi.
Proof.
  unfold calculatePMT, Number_div.
  destruct (eqb monthlyRate 0) eqn:Hr.
  - destruct (Qeq_bool (inject_Z tenureMonths) 0) eqn:Hn; [|eauto].
    apply Qeq_bool_iff in Hn. exfalso.
    assert (H : 0 < inject_Z tenureMonths)
      by (change 0 with (inject_Z 0); rewrite <- Zlt_Qlt; exact tenure_pos).
    lra.
  - apply eqb_false in Hr. pose proof (growth_gt_1 Hr) as Hg.
    destruct (Qeq_bool _ 0) eqn:Hd; [|eauto].
    apply Qeq_bool_iff in Hd. exfalso. lra.
Qed.

Lemma scheduled_closed_form emi k :
  ~ monthlyRate == 0 ->
  scheduled principal monthlyRate emi k
  == principal * Math_pow (1 + monthlyRate) (Z.of_nat k)
     - emi * (Math_pow (1 + monthlyRate) (Z.of_nat k) - 1) / monthlyRate.
Proof.
  intros Hr. induction k as [|k IH].
  - simpl. field. exact Hr.
  - cbn [scheduled]. rewrite IH. rewrite Nat2Z.inj_succ.
    unfold Math_pow, Z.succ. rewrite Qpower_plus by lra.
    change ((1 + monthlyRate) ^ 1) with (1 + monthlyRate).
    field. exact Hr.
Qed.

Lemma scheduled_linear emi k :
  monthlyRate == 0 ->
  scheduled principal monthlyRate emi k == principal - inject_Z (Z.of_nat k) * emi.
Proof.
  intros Hr. induction k as [|k IH].
  - cbn [scheduled]. change (inject_Z (Z.of_nat 0)) with 0. ring.
  - cbn [scheduled]. rewrite IH, Nat2Z.inj_succ. unfold Z.succ.
    rewrite inject_Z_plus. change (inject_Z 1) with 1. rewrite Hr. ring.
Qed.

(** The EMI of [calculatePMT] is the one that brings the balance to 0 at
    the end of the tenure. *)
Lemma scheduled_end emi :
  calculatePMT principal monthlyRate tenureMonths = Normal emi ->
  scheduled principal monthlyRate emi (Z.to_nat tenureMonths) == 0.
Proof.
  unfold calculatePMT, Number_div. intros Hpmt.
  destruct (eqb monthlyRate 0) eqn:Hr.
  - apply eqb_true in Hr.
    destruct (Qeq_bool (inject_Z tenureMonths) 0) eqn:Hn; [discriminate|].
    apply Qeq_bool_neq in Hn. injection Hpmt as <-.
    rewrite scheduled_linear by exact Hr.
    rewrite Z2Nat.id by lia. field. exact Hn.
  - apply eqb_false in Hr.
    destruct (Qeq_bool _ 0) eqn:Hd; [discriminate|].
    apply Qeq_bool_neq in Hd. injection Hpmt as <-.
    rewrite scheduled_closed_form by exact Hr.
    rewrite Z2Nat.id by lia. unfold Math_pow in *. field. split; assumption.
Qed.

End Schedule.

(** ** calculateLoanPrepaymentImpact on valid inputs *)

Section PrepaymentImpactFacts.

Variable toLocaleString : Q -> string.
Variable input : LoanPrepaymentInput.
Hypothesis valid : validPrepaymentInput input.

Let monthlyRate := annualInterestRate input / 12 / 100.
Let tenure := loanTenureMonths input.

(** The shape of the result: the EMI, the final state of the loop, and
    the record built from them. *)
Lemma calculateLoanPrepaymentImpact_valid :
  exists emi st,
    calculatePMT (loanPrincipal input) monthlyRate tenure = Normal emi
    /\ prepaymentLoop monthlyRate emi (prepaymentAmount input)
         (prepaymentMonth input) (tenure * 2) (Z.to_nat (tenure * 2))
         (prepaymentInit input) = Normal st
    /\ calculateLoanPrepaymentImpact toLocaleString input =
       Normal {|
         interest_before_prepayment :=
           Math_round (emi * inject_Z tenure - loanPrincipal input);
         interest_after_prepayment := Math_round (totalInterestPaid st);
         interest_saved :=
           Math_round (Math_max 0 (emi * inject_Z tenure - loanPrincipal input
                                   - totalInterestPaid st));
         original_tenure_months := tenure;
         new_tenure_months := monthsElapsed st;
         tenure_reduction_months := Z.max 0 (tenure - monthsElapsed st);
         summary :=
           prepaymentSummary toLocaleString (prepaymentAmount input)
             (prepaymentMonth input)
             (Math_max 0 (emi * inject_Z tenure - loanPrincipal input
                          - totalInterestPaid st))
             (Z.max 0 (tenure - monthsElapsed st))
       |}.
Proof.
  destruct valid as (HP & Hr & Hn & Hpp & Hpm).
  destruct (calculatePMT_returns (loanPrincipal input) monthlyRate tenure)
    as [emi Hemi]; [apply monthlyRate_nonneg; exact Hr|exact Hn|].
  destruct (prepaymentLoop_returns monthlyRate emi (prepaymentMonth input)
              (tenure * 2) (prepaymentAmount input) (Z.to_nat (tenure * 2))
              (prepaymentInit input)) as [st Hst].
  { simpl. rewrite Z.sub_0_r. reflexivity. }
  exists emi, st. split; [exact Hemi|]. split; [exact Hst|].
  unfold calculateLoanPrepaymentImpact, calculateLoanPrepaymentImpact_fuel.
  apply validPrepaymentInput_iff in valid. rewrite valid.
  fold monthlyRate tenure. rewrite Hemi. cbn [bind].
  fold (prepaymentInit input). rewrite Hst. reflexivity.
Qed.

End PrepaymentImpactFacts.

Lemma Math_max_mono_r (a b c : Q) : b <= c -> Math_max a b <= Math_max a c.
Proof.
  intros H.
  destruct (Math_max_cases a b) as [[? ->]|[? ->]];
    destruct (Math_max_cases a c) as [[? ->]|[? ->]]; lra.
Qed.

(** ** Properties of the prepayment simulator *)

Ltac valid_sample :=
  unfold validPrepaymentInput; cbn;
  repeat split; first [reflexivity | discriminate | lia].

(** C4: the result of [calculateLoanPrepaymentImpact] does not depend on
    the fields [monthlyEMI] and [outstandingPrincipal]: two valid inputs
    that agree on the principal, the rate, the tenure, the prepayment
    amount and the prepayment month give the same result, and it is a
    returned record. *)
Theorem C4_ignores_emi_and_outstanding (toLocaleString : Q -> string)
    (i1 i2 : LoanPrepaymentInput) :
  validPrepaymentInput i1 -> validPrepaymentInput i2 ->
  loanPrincipal i1 = loanPrincipal i2 ->
  annualInterestRate i1 = annualInterestRate i2 ->
  loanTenureMonths i1 = loanTenureMonths i2 ->
  prepaymentAmount i1 = prepaymentAmount i2 ->
  prepaymentMonth i1 = prepaymentMonth i2 ->
  calculateLoanPrepaymentImpact toLocaleString i1
  = calculateLoanPrepaymentImpact toLocaleString i2
  /\ exists result, calculateLoanPrepaymentImpact toLocaleString i1 = Normal result.
Proof.
  intros V1 V2 HP Hr Hn Hpp Hpm. split.
  - unfold calculateLoanPrepaymentImpact, calculateLoanPrepaymentImpact_fuel,
      prepaymentInputInvalid.
    rewrite HP, Hr, Hn, Hpp, Hpm. reflexivity.
  - destruct (calculateLoanPrepaymentImpact_valid toLocaleString i1 V1)
      as (emi & st & _ & _ & ->). eauto.
Qed.

Lemma C4_witness :
  calculateLoanPrepaymentImpact toLocaleString_plain sampleInput
  = calculateLoanPrepaymentImpact toLocaleString_plain sampleInputOtherEMI
  /\ exists result,
       calculateLoanPrepaymentImpact toLocaleString_plain sampleInput = Normal result.
Proof.
  apply (C4_ignores_emi_and_outstanding toLocaleString_plain
           sampleInput sampleInputOtherEMI);
    first [valid_sample | reflexivity].
Defined.

(** C5: with the principal, the rate, the tenure and the prepayment month
    fixed, a larger [prepaymentAmount] never decreases [interest_saved] and
    never increases [new_tenure_months]. *)
Theorem C5_more_prepaid_monotone (toLocaleString : Q -> string)
    (i1 i2 : LoanPrepaymentInput) :
  validPrepaymentInput i1 -> validPrepaymentInput i2 ->
  loanPrincipal i1 = loanPrincipal i2 ->
  annualInterestRate i1 = annualInterestRate i2 ->
  loanTenureMonths i1 = loanTenureMonths i2 ->
  prepaymentMonth i1 = prepaymentMonth i2 ->
  prepaymentAmount i1 <= prepaymentAmount i2 ->
  exists r1 r2,
    calculateLoanPrepaymentImpact toLocaleString i1 = Normal r1
    /\ calculateLoanPrepaymentImpact toLocaleString i2 = Normal r2
    /\ (interest_saved r1 <= interest_saved r2)%Z
    /\ (new_tenure_months r2 <= new_tenure_months r1)%Z.
Proof.
  intros V1 V2 HP Hr Hn Hpm Hpp.
  destruct (calculateLoanPrepaymentImpact_valid toLocaleString i1 V1)
    as (emi1 & st1 & Hemi1 & Hrun1 & ->).
  destruct (calculateLoanPrepaymentImpact_valid toLocaleString i2 V2)
    as (emi2 & st2 & Hemi2 & Hrun2 & ->).
  rewrite <- HP, <- Hr, <- Hn in Hemi2. rewrite Hemi1 in Hemi2.
  injection Hemi2 as <-.
  rewrite <- Hr, <- Hn, <- Hpm in Hrun2.
  destruct V1 as (HP1 & Hr1 & _).
  destruct (prepaymentLoop_lockstep _ emi1 (prepaymentMonth i1)
              (loanTenureMonths i1 * 2) (monthlyRate_nonneg _ Hr1)
              _ _ Hpp (Z.to_nat (loanTenureMonths i1 * 2))
              (prepaymentInit i1) (prepaymentInit i2) st1 st2) as [Ht Hm];
    try assumption;
    try (unfold prepaymentInit; cbn [remainingPrincipal totalInterestPaid monthsElapsed];
         rewrite <- ?HP; first [reflexivity | lra]).
  eexists _, _. split; [reflexivity|]. split; [reflexivity|].
  cbn [interest_saved new_tenure_months]. split; [|exact Hm].
  apply Math_round_mono, Math_max_mono_r. rewrite <- HP, <- Hn. lra.
Qed.

Lemma C5_witness :
  exists r1 r2,
    calculateLoanPrepaymentImpact toLocaleString_plain sampleInput = Normal r1
    /\ calculateLoanPrepaymentImpact toLocaleString_plain sampleInputMorePrepaid
       = Normal r2
    /\ (interest_saved r1 <= interest_saved r2)%Z
    /\ (new_tenure_months r2 <= new_tenure_months r1)%Z.
Proof.
  apply (C5_more_prepaid_monotone toLocaleString_plain
           sampleInput sampleInputMorePrepaid);
    first [valid_sample | reflexivity].
Defined.

(** ** Termination of the simulations of the optimizer *)

Lemma Baseline_loop_returns (monthlyRate monthlyEMI : Q) (fuel : nat)
    (st : Baseline.State) :
  (Z.to_nat (maxMonths - Baseline.months st) <= fuel)%nat ->
  exists st', Baseline.loop monthlyRate monthlyEMI fuel st = Normal st'.
Proof.
  apply (while_terminates _ _ _
           (fun s => Z.to_nat (maxMonths - Baseline.months s))).
  intros s Hc _. unfold Baseline.cond in Hc. qtests.
  unfold Baseline.body. cbn [Baseline.months]. lia.
Qed.

Lemma calculateLoanInterest_returns (balance rate emi : Q) :
  exists st,
    Baseline.loop (rate / 12 / 100) emi (Z.to_nat maxMonths) (Baseline.init balance)
    = Normal st
    /\ calculateLoanInterest (Z.to_nat maxMonths) balance rate emi
       = Normal (round2 (Baseline.totalInterest st)).
Proof.
  destruct (Baseline_loop_returns (rate / 12 / 100) emi (Z.to_nat maxMonths)
              (Baseline.init balance)) as [st Hst].
  { cbn [Baseline.init Baseline.months]. rewrite Z.sub_0_r. reflexivity. }
  exists st. split; [exact Hst|].
  unfold calculateLoanInterest. rewrite Hst. reflexivity.
Qed.

(** The sum that [calculateBaselineInterest] returns. *)
Lemma calculateBaselineInterest_from (fuel : nat) (loans : list Loan) (total : Q)
    (interests : list Q) :
  Forall2 (fun loan i =>
             calculateLoanInterest fuel (outstanding_balance loan)
               (annual_interest_rate loan) (monthly_emi loan) = Normal i)
    loans interests ->
  fold_left
    (fun (acc : Completion Q) (loan : Loan) =>
       total <- acc ;;
       interest <- calculateLoanInterest fuel (outstanding_balance loan)
                     (annual_interest_rate loan) (monthly_emi loan) ;;
       Normal (total + interest))
    loans (Normal total)
  = Normal (fold_left Qplus interests total).
Proof.
  intros H. revert total. induction H as [|loan i loans interests Hi _ IH];
    intros total; [reflexivity|].
  cbn [fold_left bind]. rewrite Hi. cbn [bind]. apply IH.
Qed.

Lemma calculateBaselineInterest_returns (loans : list Loan) :
  exists interests,
    Forall2 (fun loan i =>
               calculateLoanInterest (Z.to_nat maxMonths) (outstanding_balance loan)
                 (annual_interest_rate loan) (monthly_emi loan) = Normal i)
      loans interests
    /\ calculateBaselineInterest (Z.to_nat maxMonths) loans
       = Normal (fold_left Qplus interests 0).
Proof.
  assert (H : exists interests,
             Forall2 (fun loan i =>
               calculateLoanInterest (Z.to_nat maxMonths) (outstanding_balance loan)
                 (annual_interest_rate loan) (monthly_emi loan) = Normal i)
               loans interests).
  { induction loans as [|loan loans [interests IH]]; [exists []; constructor|].
    destruct (calculateLoanInterest_returns (outstanding_balance loan)
                (annual_interest_rate loan) (monthly_emi loan)) as (st & _ & Hi).
    exists (round2 (Baseline.totalInterest st) :: interests).
    constructor; assumption. }
  destruct H as [interests H]. exists interests. split; [exact H|].
  apply calculateBaselineInterest_from. exact H.
Qed.

Section SimulationFacts.

Variables (loans : list Loan) (repaymentOrder : list string) (monthlySurplus : Q).

Lemma loanStep_months priority st loan :
  Simulation.months (Simulation.loanStep priority st loan) = Simulation.months st.
Proof.
  unfold Simulation.loanStep.
  destruct (bool_decide _); [reflexivity|].
  destruct (leb _ _); [reflexivity|].
  destruct (_ && _ && _); reflexivity.
Qed.

Lemma loanSteps_months priority (l : list Loan) st :
  Simulation.months (fold_left (Simulation.loanStep priority) l st)
  = Simulation.months st.
Proof.
  revert st. induction l as [|loan l IH]; intros st; [reflexivity|].
  cbn [fold_left]. rewrite IH. apply loanStep_months.
Qed.

Lemma Simulation_body_months st :
  Simulation.months (Simulation.body loans repaymentOrder monthlySurplus st)
  = (Simulation.months st + 1)%Z.
Proof.
  unfold Simulation.body. cbn [Simulation.months].
  rewrite loanSteps_months. reflexivity.
Qed.

(** The cap of 600 months bounds the number of simulated months. *)
Lemma Simulation_loop_returns fuel st :
  (Z.to_nat (maxMonths - Simulation.months st) <= fuel)%nat ->
  exists st', Simulation.loop loans repaymentOrder monthlySurplus fuel st = Normal st'.
Proof.
  apply (while_terminates _ _ _
           (fun s => Z.to_nat (maxMonths - Simulation.months s))).
  intros s Hc _. unfold Simulation.cond in Hc. qtests.
  rewrite Simulation_body_months. lia.
Qed.

Lemma Simulation_loop_months fuel st st' :
  (Simulation.months st <= maxMonths)%Z ->
  Simulation.loop loans repaymentOrder monthlySurplus fuel st = Normal st' ->
  (Simulation.months st <= Simulation.months st' <= maxMonths)%Z.
Proof.
  intros Hle Hrun.
  apply (while_invariant _ _ _
           (fun s => (Simulation.months st <= Simulation.months s <= maxMonths)%Z))
    in Hrun; [tauto| |lia].
  intros s Hs Hc _. unfold Simulation.cond in Hc. qtests.
  rewrite Simulation_body_months. lia.
Qed.

Lemma calculateStrategyInterest_returns :
  exists st,
    Simulation.loop loans repaymentOrder monthlySurplus (Z.to_nat maxMonths)
      (Simulation.init loans monthlySurplus) = Normal st
    /\ (0 <= Simulation.months st <= maxMonths)%Z
    /\ calculateStrategyInterest (Z.to_nat maxMonths) loans repaymentOrder
         monthlySurplus
       = Normal (round2 (Simulation.totalInterest st)).
Proof.
  destruct (Simulation_loop_returns (Z.to_nat maxMonths)
              (Simulation.init loans monthlySurplus)) as [st Hst].
  { cbn [Simulation.init Simulation.months]. rewrite Z.sub_0_r. reflexivity. }
  exists st. split; [exact Hst|]. split.
  - apply Simulation_loop_months in Hst; [exact Hst|].
    cbn [Simulation.init Simulation.months]. unfold maxMonths. lia.
  - unfold calculateStrategyInterest. rewrite Hst. reflexivity.
Qed.

End SimulationFacts.

(** ** optimizeDebtRepayment on valid inputs *)

Lemma validLoan_iff (loan : Loan) : loanInvalid loan = false <-> validLoan loan.
Proof.
  unfold loanInvalid, validLoan. split.
  - intros H. qtests. apply String.eqb_neq in H. repeat split; try lra. exact H.
  - intros (H1 & H2 & H3 & H4).
    repeat (apply orb_false_iff; split);
      first [apply String.eqb_neq; exact H1 | apply leb_false; lra
            | apply ltb_false; lra].
Qed.

Lemma validLoans_iff (loans : list Loan) :
  existsb loanInvalid loans = false <-> Forall validLoan loans.
Proof.
  induction loans as [|loan loans IH]; cbn [existsb].
  - split; [constructor|reflexivity].
  - rewrite orb_false_iff, IH, validLoan_iff. split.
    + intros [H1 H2]. constructor; assumption.
    + intros H. inversion H; subst. split; assumption.
Qed.

Lemma loans_nonempty_iff (loans : list Loan) :
  (length loans =? 0)%nat = false <-> loans <> [].
Proof.
  destruct loans; cbn; split; intros H; congruence.
Qed.

Section OptimizerFacts.

Variable toLocaleString : Q -> string.
Variable input : DebtRepaymentInput.
Hypothesis nonempty : loans input <> [].
Hypothesis loans_valid : Forall validLoan (loans input).

Let surplus := default 0 (monthly_surplus input).
Let risk := default medium (risk_tolerance input).
Let fuel := Z.to_nat maxMonths.

(** The shape of the result: the final states of the two strategy
    simulations, the per-loan baseline interests, and the record built
    from them. *)
Lemma optimizeDebtRepayment_valid :
  exists stA stS interests,
    Simulation.loop (loans input) (generateAvalancheOrder (loans input)) surplus
      fuel (Simulation.init (loans input) surplus) = Normal stA
    /\ Simulation.loop (loans input) (generateSnowballOrder (loans input)) surplus
         fuel (Simulation.init (loans input) surplus) = Normal stS
    /\ Forall2 (fun loan i =>
                  calculateLoanInterest fuel (outstanding_balance loan)
                    (annual_interest_rate loan) (monthly_emi loan) = Normal i)
         (loans input) interests
    /\ let avalancheInterest := round2 (Simulation.totalInterest stA) in
       let snowballInterest := round2 (Simulation.totalInterest stS) in
       let baselineInterest := fold_left Qplus interests 0 in
       let decision :=
         decide_strategy toLocaleString avalancheInterest snowballInterest risk in
       calculateStrategyInterest fuel (loans input)
         (generateAvalancheOrder (loans input)) surplus = Normal avalancheInterest
       /\ calculateStrategyInterest fuel (loans input)
            (generateSnowballOrder (loans input)) surplus = Normal snowballInterest
       /\ calculateBaselineInterest fuel (loans input) = Normal baselineInterest
       /\ optimizeDebtRepayment toLocaleString input =
          Normal {|
            avalanche_order := generateAvalancheOrder (loans input);
            snowball_order := generateSnowballOrder (loans input);
            recommended_strategy := fst decision;
            reason := snd decision;
            estimated_interest_saved :=
              round2 (match fst decision with
                      | avalanche => baselineInterest - avalancheInterest
                      | snowball => baselineInterest - snowballInterest
                      end)
          |}.
Proof.
  destruct (calculateStrategyInterest_returns (loans input)
              (generateAvalancheOrder (loans input)) surplus)
    as (stA & HrunA & _ & HA).
  destruct (calculateStrategyInterest_returns (loans input)
              (generateSnowballOrder (loans input)) surplus)
    as (stS & HrunS & _ & HS).
  destruct (calculateBaselineInterest_returns (loans input))
    as (interests & Hi & HB).
  exists stA, stS, interests.
  split; [exact HrunA|]. split; [exact HrunS|]. split; [exact Hi|].
  cbv zeta. split; [exact HA|]. split; [exact HS|]. split; [exact HB|].
  unfold optimizeDebtRepayment, optimizeDebtRepayment_fuel. cbv zeta.
  apply loans_nonempty_iff in nonempty. rewrite nonempty.
  apply validLoans_iff in loans_valid. rewrite loans_valid.
  fold surplus risk. rewrite HA. cbn [bind]. rewrite HS. cbn [bind].
  rewrite HB. cbn [bind].
  destruct (decide_strategy _ _ _ _) as [strategy text]. reflexivity.
Qed.

End OptimizerFacts.

(** ** More fuel than the caps ask for *)

Lemma while_more_fuel {State : Type} (cond leave : State -> bool)
    (body : State -> State) (fuel fuel' : nat) (st st' : State) :
  while cond leave body fuel st = Normal st' ->
  (fuel <= fuel')%nat ->
  while cond leave body fuel' st = Normal st'.
Proof.
  revert fuel' st. induction fuel as [|fuel IH]; intros fuel' st Hrun Hle.
  - cbn [while] in Hrun.
    destruct fuel'; cbn [while]; destruct (cond st); try destruct (leave st);
      try discriminate; exact Hrun.
  - destruct fuel' as [|fuel']; [lia|]. cbn [while] in *.
    destruct (cond st); [destruct (leave st)|]; try exact Hrun.
    apply IH; [exact Hrun|lia].
Qed.

(** The results do not depend on the fuel, once it is what the caps of the
    loops ask for. *)
Lemma calculateLoanPrepaymentImpact_more_fuel (toLocaleString : Q -> string)
    (input : LoanPrepaymentInput) (fuel : nat) :
  validPrepaymentInput input ->
  (Z.to_nat (loanTenureMonths input * 2) <= fuel)%nat ->
  calculateLoanPrepaymentImpact_fuel toLocaleString fuel input
  = calculateLoanPrepaymentImpact toLocaleString input.
Proof.
  intros V Hfuel.
  destruct (calculateLoanPrepaymentImpact_valid toLocaleString input V)
    as (emi & st & Hemi & Hrun & Hres).
  rewrite Hres. unfold calculateLoanPrepaymentImpact_fuel. cbv zeta.
  apply validPrepaymentInput_iff in V. rewrite V, Hemi. cbn [bind].
  fold (prepaymentInit input).
  unfold prepaymentLoop in *.
  rewrite (while_more_fuel _ _ _ _ fuel _ _ Hrun Hfuel). reflexivity.
Qed.

Lemma calculateStrategyInterest_more_fuel (loans : list Loan)
    (repaymentOrder : list string) (monthlySurplus : Q) (fuel : nat) :
  (Z.to_nat maxMonths <= fuel)%nat ->
  calculateStrategyInterest fuel loans repaymentOrder monthlySurplus
  = calculateStrategyInterest (Z.to_nat maxMonths) loans repaymentOrder monthlySurplus.
Proof.
  intros Hfuel.
  destruct (calculateStrategyInterest_returns loans repaymentOrder monthlySurplus)
    as (st & Hrun & _ & Hres).
  rewrite Hres. unfold calculateStrategyInterest, Simulation.loop in *.
  rewrite (while_more_fuel _ _ _ _ fuel _ _ Hrun Hfuel). reflexivity.
Qed.

Lemma calculateLoanInterest_more_fuel (balance rate emi : Q) (fuel : nat) :
  (Z.to_nat maxMonths <= fuel)%nat ->
  calculateLoanInterest fuel balance rate emi
  = calculateLoanInterest (Z.to_nat maxMonths) balance rate emi.
Proof.
  intros Hfuel.
  destruct (calculateLoanInterest_returns balance rate emi) as (st & Hrun & Hres).
  rewrite Hres. unfold calculateLoanInterest, Baseline.loop in *.
  rewrite (while_more_fuel _ _ _ _ fuel _ _ Hrun Hfuel). reflexivity.
Qed.

Lemma calculateBaselineInterest_more_fuel (loans : list Loan) (fuel : nat) :
  (Z.to_nat maxMonths <= fuel)%nat ->
  calculateBaselineInterest fuel loans
  = calculateBaselineInterest (Z.to_nat maxMonths) loans.
Proof.
  intros Hfuel. unfold calculateBaselineInterest.
  generalize (Normal 0 : Completion Q).
  induction loans as [|loan loans IH]; intros acc; [reflexivity|].
  cbn [fold_left]. rewrite calculateLoanInterest_more_fuel by exact Hfuel.
  apply IH.
Qed.

Lemma optimizeDebtRepayment_more_fuel (toLocaleString : Q -> string)
    (input : DebtRepaymentInput) (fuel : nat) :
  (Z.to_nat maxMonths <= fuel)%nat ->
  optimizeDebtRepayment_fuel toLocaleString fuel input
  = optimizeDebtRepayment toLocaleString input.
Proof.
  intros Hfuel. unfold optimizeDebtRepayment, optimizeDebtRepayment_fuel.
  cbv zeta.
  rewrite (calculateStrategyInterest_more_fuel _
             (generateAvalancheOrder (loans input)) _ fuel Hfuel).
  rewrite (calculateStrategyInterest_more_fuel _
             (generateSnowballOrder (loans input)) _ fuel Hfuel).
  rewrite (calculateBaselineInterest_more_fuel _ fuel Hfuel).
  reflexivity.
Qed.

(** C9: both simulations stop at their caps and return; no error is raised
    after validation.  The loop of [calculateLoanPrepaymentImpact] runs at
    most [2 * loanTenureMonths] months, so
    [new_tenure_months <= 2 * loanTenureMonths]; a strategy simulation of
    [optimizeDebtRepayment] runs at most 600 months and returns the
    interest accrued so far.  A fuel above the caps does not change the
    results: the caps, not the fuel, stop the loops. *)
Theorem C9_simulations_terminate (toLocaleString : Q -> string) :
  (forall input, validPrepaymentInput input ->
     exists result,
       calculateLoanPrepaymentImpact toLocaleString input = Normal result
       /\ (0 <= new_tenure_months result <= 2 * loanTenureMonths input)%Z)
  /\ (forall input, validDebtRepaymentInput input ->
        exists result, optimizeDebtRepayment toLocaleString input = Normal result)
  /\ (forall loans repaymentOrder monthlySurplus,
        exists st,
          Simulation.loop loans repaymentOrder monthlySurplus (Z.to_nat maxMonths)
            (Simulation.init loans monthlySurplus) = Normal st
          /\ (0 <= Simulation.months st <= 600)%Z
          /\ calculateStrategyInterest (Z.to_nat maxMonths) loans repaymentOrder
               monthlySurplus
             = Normal (round2 (Simulation.totalInterest st)))
  /\ (forall input fuel, validPrepaymentInput input ->
        (Z.to_nat (2 * loanTenureMonths input) <= fuel)%nat ->
        calculateLoanPrepaymentImpact_fuel toLocaleString fuel input
        = calculateLoanPrepaymentImpact toLocaleString input)
  /\ (forall input fuel, (600 <= fuel)%nat ->
        optimizeDebtRepayment_fuel toLocaleString fuel input
        = optimizeDebtRepayment toLocaleString input).
Proof.
  split; [|split; [|split; [|split]]].
  - intros input V.
    destruct (calculateLoanPrepaymentImpact_valid toLocaleString input V)
      as (emi & st & _ & Hrun & ->).
    eexists. split; [reflexivity|]. cbn [new_tenure_months].
    apply prepaymentLoop_months_le in Hrun.
    + unfold prepaymentInit in Hrun. cbn [monthsElapsed] in Hrun. lia.
    + destruct V as (_ & _ & Hn & _). unfold prepaymentInit. cbn [monthsElapsed]. lia.
  - intros input (Hne & Hall & _).
    destruct (optimizeDebtRepayment_valid toLocaleString input Hne Hall)
      as (stA & stS & interests & _ & _ & _ & H).
    cbv zeta in H. destruct H as (_ & _ & _ & ->). eauto.
  - intros loans repaymentOrder monthlySurplus.
    apply calculateStrategyInterest_returns.
  - intros input fuel V Hfuel.
    apply calculateLoanPrepaymentImpact_more_fuel; [exact V|].
    rewrite Z.mul_comm. exact Hfuel.
  - intros input fuel Hfuel.
    apply optimizeDebtRepayment_more_fuel.
    change (Z.to_nat maxMonths) with 600%nat. exact Hfuel.
Qed.

(** ** Validation *)

Lemma prepaymentInputInvalid_iff (input : LoanPrepaymentInput) :
  prepaymentInputInvalid input = true
  <-> (loanPrincipal input <= 0 \/ annualInterestRate input < 0
       \/ (loanTenureMonths input <= 0)%Z \/ prepaymentAmount input <= 0
       \/ (prepaymentMonth input <= 0)%Z
       \/ (loanTenureMonths input < prepaymentMonth input)%Z).
Proof.
  unfold prepaymentInputInvalid.
  rewrite !orb_true_iff, !leb_true, ltb_true, !Z.leb_le, Z.ltb_lt. tauto.
Qed.

Lemma loanInvalid_iff (loan : Loan) :
  loanInvalid loan = true
  <-> (loan_name loan = ""%string \/ outstanding_balance loan <= 0
       \/ annual_interest_rate loan < 0 \/ monthly_emi loan <= 0).
Proof.
  unfold loanInvalid.
  rewrite !orb_true_iff, !leb_true, ltb_true, String.eqb_eq. tauto.
Qed.

Lemma loansInvalid_iff (loans : list Loan) :
  existsb loanInvalid loans = true
  <-> Exists (fun loan => loan_name loan = ""%string \/ outstanding_balance loan <= 0
                          \/ annual_interest_rate loan < 0 \/ monthly_emi loan <= 0)
        loans.
Proof.
  rewrite existsb_exists, List.Exists_exists.
  split; intros (loan & Hin & H); exists loan; (split; [exact Hin|]);
    apply loanInvalid_iff; exact H.
Qed.

(** C3: [calculateLoanPrepaymentImpact] throws exactly when
    [loanPrincipal <= 0], [annualInterestRate < 0], [loanTenureMonths <= 0],
    [prepaymentAmount <= 0], [prepaymentMonth <= 0] or
    [prepaymentMonth > loanTenureMonths]; [optimizeDebtRepayment] throws
    exactly when the list of loans is empty or a loan has an empty name, a
    balance [<= 0], a rate [< 0] or an EMI [<= 0].  The error is the whole
    outcome, and it is raised at any fuel of the simulation loops, zero
    included, that is before a simulation step is taken.
    [prepaymentMonth = loanTenureMonths] does not throw. *)
Theorem C3_invalid_input_errors (toLocaleString : Q -> string) :
  (forall input,
     (exists message,
        calculateLoanPrepaymentImpact toLocaleString input = Throw message)
     <-> (loanPrincipal input <= 0 \/ annualInterestRate input < 0
          \/ (loanTenureMonths input <= 0)%Z \/ prepaymentAmount input <= 0
          \/ (prepaymentMonth input <= 0)%Z
          \/ (prepaymentMonth input > loanTenureMonths input)%Z))
  /\ (forall input,
        (exists message, optimizeDebtRepayment toLocaleString input = Throw message)
        <-> (loans input = []
             \/ Exists (fun loan => loan_name loan = ""%string
                                    \/ outstanding_balance loan <= 0
                                    \/ annual_interest_rate loan < 0
                                    \/ monthly_emi loan <= 0) (loans input)))
  /\ (forall input fuel,
        (loanPrincipal input <= 0 \/ annualInterestRate input < 0
         \/ (loanTenureMonths input <= 0)%Z \/ prepaymentAmount input <= 0
         \/ (prepaymentMonth input <= 0)%Z
         \/ (prepaymentMonth input > loanTenureMonths input)%Z) ->
        calculateLoanPrepaymentImpact_fuel toLocaleString fuel input
        = Throw "Invalid input parameters")
  /\ (forall input fuel,
        loans input = [] ->
        optimizeDebtRepayment_fuel toLocaleString fuel input
        = Throw "At least one loan is required")
  /\ (forall input fuel,
        loans input <> [] ->
        Exists (fun loan => loan_name loan = ""%string
                            \/ outstanding_balance loan <= 0
                            \/ annual_interest_rate loan < 0
                            \/ monthly_emi loan <= 0) (loans input) ->
        optimizeDebtRepayment_fuel toLocaleString fuel input
        = Throw "Invalid loan data")
  /\ (forall input,
        0 < loanPrincipal input -> 0 <= annualInterestRate input ->
        (0 < loanTenureMonths input)%Z -> 0 < prepaymentAmount input ->
        prepaymentMonth input = loanTenureMonths input ->
        exists result,
          calculateLoanPrepaymentImpact toLocaleString input = Normal result).
Proof.
  assert (Hpre : forall input fuel,
             prepaymentInputInvalid input = true ->
             calculateLoanPrepaymentImpact_fuel toLocaleString fuel input
             = Throw "Invalid input parameters").
  { intros input fuel H. unfold calculateLoanPrepaymentImpact_fuel.
    cbv zeta. rewrite H. reflexivity. }
  assert (Hgt : forall a b : Z, (a > b)%Z <-> (b < a)%Z) by (intros; lia).
  repeat split.
  - intros [message H].
    destruct (prepaymentInputInvalid input) eqn:E.
    + apply prepaymentInputInvalid_iff in E. rewrite Hgt. exact E.
    + apply validPrepaymentInput_iff in E.
      destruct (calculateLoanPrepaymentImpact_valid toLocaleString input E)
        as (emi & st & _ & _ & Hres). congruence.
  - intros H. rewrite Hgt in H. apply prepaymentInputInvalid_iff in H.
    eexists. apply Hpre. exact H.
  - intros [message H].
    destruct (loans input) as [|loan rest] eqn:El; [left; reflexivity|right].
    destruct (existsb loanInvalid (loan :: rest)) eqn:E.
    + apply loansInvalid_iff in E. exact E.
    + apply validLoans_iff in E. rewrite <- El in E.
      destruct (optimizeDebtRepayment_valid toLocaleString input) as
        (stA & stS & interests & _ & _ & _ & Hres);
        [rewrite El; discriminate|exact E|].
      cbv zeta in Hres. destruct Hres as (_ & _ & _ & Hres). congruence.
  - intros [H|H].
    + eexists. unfold optimizeDebtRepayment, optimizeDebtRepayment_fuel.
      cbv zeta. rewrite H. reflexivity.
    + destruct (loans input) as [|loan rest] eqn:El; [inversion H|].
      apply loansInvalid_iff in H.
      eexists. unfold optimizeDebtRepayment, optimizeDebtRepayment_fuel.
      cbv zeta. rewrite El. cbn [length Nat.eqb]. rewrite H. reflexivity.
  - intros input fuel H. rewrite Hgt in H. apply Hpre.
    apply prepaymentInputInvalid_iff. exact H.
  - intros input fuel H. unfold optimizeDebtRepayment_fuel.
    cbv zeta. rewrite H. reflexivity.
  - intros input fuel Hne H. apply loansInvalid_iff in H.
    apply loans_nonempty_iff in Hne.
    unfold optimizeDebtRepayment_fuel. cbv zeta. rewrite Hne, H. reflexivity.
  - intros input HP Hr Hn Hpp Hpm.
    destruct (calculateLoanPrepaymentImpact_valid toLocaleString input)
      as (emi & st & _ & _ & ->); [|eauto].
    unfold validPrepaymentInput. repeat split; try assumption; lia.
Qed.

(** ** The decision policy *)


Ltac valid_loans :=
  unfold validDebtRepaymentInput; cbn;
  repeat first [split | constructor | reflexivity | discriminate | lia].

(** ** The repayment orders *)

Section ArraySortFacts.

Context {A : Type} (compare : A -> A -> Q) (precedes : A -> A -> Prop).

Lemma sortedInsert_perm (x : A) (l : list A) :
  Permutation (sortedInsert compare x l) (x :: l).
Proof.
  induction l as [|y l IH]; cbn [sortedInsert]; [reflexivity|].
  destruct (ltb 0 (compare x y)); [|reflexivity].
  rewrite IH. apply perm_swap.
Qed.

Lemma Array_sort_perm (l : list A) : Permutation (Array_sort compare l) l.
Proof.
  induction l as [|x l IH]; cbn [Array_sort]; [reflexivity|].
  rewrite sortedInsert_perm, IH. reflexivity.
Qed.

Hypothesis precedes_trans :
  forall x y z, precedes x y -> precedes y z -> precedes x z.
Hypothesis before : forall x y, compare x y <= 0 -> precedes x y.
Hypothesis after : forall x y, 0 < compare x y -> precedes y x.

Lemma sortedInsert_sorted (x : A) (l : list A) :
  StronglySorted precedes l -> StronglySorted precedes (sortedInsert compare x l).
Proof.
  induction 1 as [|y l Hl IH Hy]; cbn [sortedInsert].
  - repeat constructor.
  - destruct (ltb 0 (compare x y)) eqn:E; qtests.
    + constructor; [exact IH|].
      eapply Permutation_Forall; [symmetry; apply sortedInsert_perm|].
      constructor; [apply after; exact E|exact Hy].
    + constructor; [constructor; assumption|].
      constructor; [apply before; exact E|].
      eapply List.Forall_impl; [|exact Hy].
      intros z Hz. eapply precedes_trans; [apply before; exact E|exact Hz].
Qed.

Lemma Array_sort_sorted (l : list A) : StronglySorted precedes (Array_sort compare l).
Proof.
  induction l as [|x l IH]; cbn [Array_sort]; [constructor|].
  apply sortedInsert_sorted. exact IH.
Qed.

End ArraySortFacts.

Lemma avalanchePrecedes_trans (a b c : Loan) :
  avalanchePrecedes a b -> avalanchePrecedes b c -> avalanchePrecedes a c.
Proof.
  unfold avalanchePrecedes. intros [H1|[H1 H1']] [H2|[H2 H2']];
    first [left; lra | right; split; lra].
Qed.

Lemma snowballPrecedes_trans (a b c : Loan) :
  snowballPrecedes a b -> snowballPrecedes b c -> snowballPrecedes a c.
Proof.
  unfold snowballPrecedes. intros [H1|[H1 H1']] [H2|[H2 H2']];
    first [left; lra | right; split; lra].
Qed.

Lemma avalancheCompare_before (a b : Loan) :
  avalancheCompare a b <= 0 -> avalanchePrecedes a b.
Proof.
  unfold avalancheCompare, avalanchePrecedes.
  destruct (neqb _ _) eqn:E; qtests; intros H.
  - left. destruct (Qlt_le_dec (annual_interest_rate b) (annual_interest_rate a));
      [assumption|]. exfalso. apply E. lra.
  - right. split; lra.
Qed.

Lemma avalancheCompare_after (a b : Loan) :
  0 < avalancheCompare a b -> avalanchePrecedes b a.
Proof.
  unfold avalancheCompare, avalanchePrecedes.
  destruct (neqb _ _) eqn:E; qtests; intros H.
  - left. lra.
  - right. split; lra.
Qed.

Lemma snowballCompare_before (a b : Loan) :
  snowballCompare a b <= 0 -> snowballPrecedes a b.
Proof.
  unfold snowballCompare, snowballPrecedes.
  destruct (neqb _ _) eqn:E; qtests; intros H.
  - left. destruct (Qlt_le_dec (outstanding_balance a) (outstanding_balance b));
      [assumption|]. exfalso. apply E. lra.
  - right. split; lra.
Qed.

Lemma snowballCompare_after (a b : Loan) :
  0 < snowballCompare a b -> snowballPrecedes b a.
Proof.
  unfold snowballCompare, snowballPrecedes.
  destruct (neqb _ _) eqn:E; qtests; intros H.
  - left. lra.
  - right. split; lra.
Qed.

(** C6: on a valid input [avalanche_order] and [snowball_order] are
    permutations of the names of the input loans; [avalanche_order] lists
    the loans by rate descending, ties by balance descending, and
    [snowball_order] lists them by balance ascending, ties by rate
    descending. *)
Theorem C6_orders_sorted_permutations (toLocaleString : Q -> string)
    (input : DebtRepaymentInput) :
  validDebtRepaymentInput input ->
  exists result byAvalanche bySnowball,
    optimizeDebtRepayment toLocaleString input = Normal result
    /\ Permutation (avalanche_order result) (map loan_name (loans input))
    /\ Permutation (snowball_order result) (map loan_name (loans input))
    /\ avalanche_order result = map loan_name byAvalanche
    /\ Permutation byAvalanche (loans input)
    /\ StronglySorted avalanchePrecedes byAvalanche
    /\ snowball_order result = map loan_name bySnowball
    /\ Permutation bySnowball (loans input)
    /\ StronglySorted snowballPrecedes bySnowball.
Proof.
  intros (Hne & Hall & _).
  destruct (optimizeDebtRepayment_valid toLocaleString input Hne Hall)
    as (stA & stS & interests & _ & _ & _ & H).
  cbv zeta in H. destruct H as (_ & _ & _ & ->).
  eexists _, (Array_sort avalancheCompare (loans input)),
    (Array_sort snowballCompare (loans input)).
  split; [reflexivity|]. cbn [avalanche_order snowball_order].
  unfold generateAvalancheOrder, generateSnowballOrder.
  repeat split.
  - apply Permutation_map, Array_sort_perm.
  - apply Permutation_map, Array_sort_perm.
  - apply Array_sort_perm.
  - apply Array_sort_sorted.
    + exact avalanchePrecedes_trans.
    + exact avalancheCompare_before.
    + exact avalancheCompare_after.
  - apply Array_sort_perm.
  - apply Array_sort_sorted.
    + exact snowballPrecedes_trans.
    + exact snowballCompare_before.
    + exact snowballCompare_after.
Qed.

Lemma C6_witness :
  exists result byAvalanche bySnowball,
    optimizeDebtRepayment toLocaleString_plain sampleLoans = Normal result
    /\ Permutation (avalanche_order result) (map loan_name (loans sampleLoans))
    /\ Permutation (snowball_order result) (map loan_name (loans sampleLoans))
    /\ avalanche_order result = map loan_name byAvalanche
    /\ Permutation byAvalanche (loans sampleLoans)
    /\ StronglySorted avalanchePrecedes byAvalanche
    /\ snowball_order result = map loan_name bySnowball
    /\ Permutation bySnowball (loans sampleLoans)
    /\ StronglySorted snowballPrecedes bySnowball.
Proof.
  apply (C6_orders_sorted_permutations toLocaleString_plain sampleLoans).
  valid_loans.
Defined.

(** ** Rounding to two decimals *)


(** ** estimated_interest_saved *)

(** C1, as stated, fails: two loans of 1 at 4.8% a year accrue 0.004 of
    interest each; the baseline rounds each to 0, the strategy rounds
    their sum to 0.01, and [estimated_interest_saved] is -0.01. *)
Lemma C1_counterexample :
  validDebtRepaymentInput sampleLoans
  /\ exists result,
       optimizeDebtRepayment toLocaleString_plain sampleLoans = Normal result
       /\ estimated_interest_saved result < 0.
Proof.
  split; [valid_loans|].
  eexists. split; [vm_compute; reflexivity|]. reflexivity.
Qed.

(** ** Two more ways to a negative saving *)

Lemma while_unfold {State : Type} (cond leave : State -> bool)
    (body : State -> State) (fuel : nat) (st : State) :
  while cond leave body (S fuel) st
  = if cond st then
      if leave st then Normal st else while cond leave body fuel (body st)
    else Normal st.
Proof. reflexivity. Qed.

Section StrategyInterestGrows.

Variables (loans : list Loan) (repaymentOrder : list string) (monthlySurplus : Q).
Hypothesis rates_nonneg : Forall (fun loan => 0 <= annual_interest_rate loan) loans.

Lemma loanStep_total_le priority st loan :
  0 <= annual_interest_rate loan ->
  Simulation.totalInterest st
  <= Simulation.totalInterest (Simulation.loanStep priority st loan).
Proof.
  intros Hr. apply monthlyRate_nonneg in Hr. unfold Simulation.loanStep.
  destruct (bool_decide _); [lra|].
  destruct (leb _ paidEpsilon) eqn:E; [cbn [Simulation.totalInterest]; lra|].
  qtests. unfold paidEpsilon in E.
  assert (H0 : 0 <= Simulation.getOrZero (Simulation.balances st) (loan_name loan))
    by lra.
  pose proof (Qmult_le_0_compat _ _ H0 Hr).
  destruct (_ && _ && _); cbn [Simulation.totalInterest]; lra.
Qed.

Lemma loanSteps_total_le priority (l : list Loan) st :
  Forall (fun loan => 0 <= annual_interest_rate loan) l ->
  Simulation.totalInterest st
  <= Simulation.totalInterest (fold_left (Simulation.loanStep priority) l st).
Proof.
  intros H. revert st. induction H as [|loan l Hr _ IH]; intros st; [cbn; lra|].
  cbn [fold_left]. eapply Qle_trans; [|apply IH].
  apply loanStep_total_le. exact Hr.
Qed.

Lemma Simulation_loop_total_le fuel st st' :
  Simulation.loop loans repaymentOrder monthlySurplus fuel st = Normal st' ->
  Simulation.totalInterest st <= Simulation.totalInterest st'.
Proof.
  intros Hrun.
  apply (while_invariant _ _ _
           (fun s => Simulation.totalInterest st <= Simulation.totalInterest s))
    in Hrun; [tauto| |lra].
  intros s Hs _ _. eapply Qle_trans; [exact Hs|].
  unfold Simulation.body. cbn [Simulation.totalInterest].
  eapply Qle_trans; [|apply loanSteps_total_le; exact rates_nonneg].
  cbn [Simulation.totalInterest]. lra.
Qed.

(** The interest of the first month is part of the total. *)
Lemma Simulation_loop_first_month st :
  Simulation.cond loans (Simulation.init loans monthlySurplus) = true ->
  Simulation.allPaid repaymentOrder (Simulation.init loans monthlySurplus) = false ->
  Simulation.loop loans repaymentOrder monthlySurplus (Z.to_nat maxMonths)
    (Simulation.init loans monthlySurplus) = Normal st ->
  Simulation.totalInterest
    (Simulation.body loans repaymentOrder monthlySurplus
       (Simulation.init loans monthlySurplus))
  <= Simulation.totalInterest st.
Proof.
  intros Hc Hl Hrun. change (Z.to_nat maxMonths) with (S 599) in Hrun.
  unfold Simulation.loop in Hrun. rewrite while_unfold, Hc, Hl in Hrun.
  apply Simulation_loop_total_le in Hrun. exact Hrun.
Qed.

End StrategyInterestGrows.

(** Without covered interest: the baseline of a loan of 1000 at 12% with
    an EMI of 5 leaves its loop at once, with no interest, while either
    strategy accrues 10 in the first month alone. *)
Lemma C1_fails_below_interest :
  validDebtRepaymentInput loanBelowInterest
  /\ NoDup (map loan_name (loans loanBelowInterest))
  /\ exists result,
       optimizeDebtRepayment toLocaleString_plain loanBelowInterest = Normal result
       /\ estimated_interest_saved result <= - (10).
Proof.
  assert (V : validDebtRepaymentInput loanBelowInterest) by valid_loans.
  split; [exact V|]. split; [apply (bool_decide_unpack _); vm_compute; exact I|].
  destruct V as (Hne & Hall & _).
  destruct (optimizeDebtRepayment_valid toLocaleString_plain _ Hne Hall)
    as (stA & stS & interests & HrunA & HrunS & Hi & H).
  cbv zeta in H. destruct H as (_ & _ & _ & ->).
  eexists. split; [reflexivity|]. cbn [estimated_interest_saved].
  assert (Hrates : Forall (fun loan => 0 <= annual_interest_rate loan)
                     (loans loanBelowInterest)).
  { eapply List.Forall_impl; [|exact Hall]. intros loan (_ & _ & Hr & _). exact Hr. }
  apply Simulation_loop_first_month in HrunA;
    [|exact Hrates|vm_compute; reflexivity|vm_compute; reflexivity].
  apply Simulation_loop_first_month in HrunS;
    [|exact Hrates|vm_compute; reflexivity|vm_compute; reflexivity].
  assert (HA : 10 <= Simulation.totalInterest stA)
    by (eapply Qle_trans; [|exact HrunA]; vm_compute; discriminate).
  assert (HS : 10 <= Simulation.totalInterest stS)
    by (eapply Qle_trans; [|exact HrunS]; vm_compute; discriminate).
  apply round2_mono in HA, HS.
  assert (H10 : round2 10 == 10) by reflexivity.
  assert (Hm10 : round2 (- (10)) == - (10)) by reflexivity.
  cbn [loans loanBelowInterest] in Hi.
  inversion Hi as [|? i ? rest Hcalc Hrest]; subst. inversion Hrest; subst.
  vm_compute in Hcalc. injection Hcalc as <-.
  cbn [fold_left].
  rewrite <- Hm10.
  destruct (fst _); apply round2_mono; lra.
Qed.

(** Without distinct names: the two loans share one entry of the map of
    balances, so the first loan is charged its 100% a month on the
    balance of the second one, 1000 in the first month, where the two
    baselines accrue 1 in all. *)
Lemma C1_fails_on_shared_name :
  validDebtRepaymentInput loansSameName
  /\ Forall emiCoversInterest (loans loansSameName)
  /\ exists result,
       optimizeDebtRepayment toLocaleString_plain loansSameName = Normal result
       /\ estimated_interest_saved result <= - (999).
Proof.
  assert (V : validDebtRepaymentInput loansSameName) by valid_loans.
  split; [exact V|]. split; [cbn; repeat constructor|].
  destruct V as (Hne & Hall & _).
  destruct (optimizeDebtRepayment_valid toLocaleString_plain _ Hne Hall)
    as (stA & stS & interests & HrunA & HrunS & Hi & H).
  cbv zeta in H. destruct H as (_ & _ & _ & ->).
  eexists. split; [reflexivity|]. cbn [estimated_interest_saved].
  assert (Hrates : Forall (fun loan => 0 <= annual_interest_rate loan)
                     (loans loansSameName)).
  { eapply List.Forall_impl; [|exact Hall]. intros loan (_ & _ & Hr & _). exact Hr. }
  apply Simulation_loop_first_month in HrunA;
    [|exact Hrates|vm_compute; reflexivity|vm_compute; reflexivity].
  apply Simulation_loop_first_month in HrunS;
    [|exact Hrates|vm_compute; reflexivity|vm_compute; reflexivity].
  assert (HA : 1000 <= Simulation.totalInterest stA)
    by (eapply Qle_trans; [|exact HrunA]; vm_compute; discriminate).
  assert (HS : 1000 <= Simulation.totalInterest stS)
    by (eapply Qle_trans; [|exact HrunS]; vm_compute; discriminate).
  apply round2_mono in HA, HS.
  assert (H1000 : round2 1000 == 1000) by reflexivity.
  assert (Hm : round2 (- (999)) == - (999)) by reflexivity.
  cbn [loans loansSameName] in Hi.
  inversion Hi as [|? i1 ? rest Hcalc1 Hrest]; subst.
  inversion Hrest as [|? i2 ? rest' Hcalc2 Hrest']; subst. inversion Hrest'; subst.
  vm_compute in Hcalc1. injection Hcalc1 as <-.
  vm_compute in Hcalc2. injection Hcalc2 as <-.
  cbn [fold_left].
  rewrite <- Hm.
  destruct (fst _); apply round2_mono; lra.
Qed.

(** ** The functions on the sample inputs *)

Example sampleInput_result :
  calculateLoanPrepaymentImpact toLocaleString_plain sampleInput
  = Normal {| interest_before_prepayment := 24;
              interest_after_prepayment := 21;
              interest_saved := 3;
              original_tenure_months := 3;
              new_tenure_months := 3;
              tenure_reduction_months := 0;
              summary := "By prepaying ₹300 in month 2, you save ₹3 and finish 0 months early." |}.
Proof. vm_compute. reflexivity. Qed.

Example sampleInputMorePrepaid_result :
  exists result,
    calculateLoanPrepaymentImpact toLocaleString_plain sampleInputMorePrepaid
    = Normal result
    /\ interest_saved result = 4%Z /\ new_tenure_months result = 2%Z
    /\ tenure_reduction_months result = 1%Z.
Proof. eexists. split; [vm_compute; reflexivity|]. repeat split. Qed.

Example exampleLoans_avalanche :
  generateAvalancheOrder exampleLoans = ["Credit Card"; "Personal Loan"; "Home Loan"]%string.
Proof. reflexivity. Qed.

Example exampleLoans_snowball :
  generateSnowballOrder exampleLoans = ["Credit Card"; "Personal Loan"; "Home Loan"]%string.
Proof. reflexivity. Qed.

Example sampleLoans_result :
  exists result,
    optimizeDebtRepayment toLocaleString_plain sampleLoans = Normal result
    /\ recommended_strategy result = avalanche
    /\ estimated_interest_saved result == - (1 # 100).
Proof. eexists. split; [vm_compute; reflexivity|]. split; reflexivity. Qed.

(** * Further properties *)

(** ** The EMI of calculatePMT *)

Section ScheduleFacts.

Variables (principal monthlyRate : Q) (tenureMonths : Z) (emi : Q).
Hypothesis principal_pos : 0 < principal.
Hypothesis rate_nonneg : 0 <= monthlyRate.
Hypothesis tenure_pos : (0 < tenureMonths)%Z.
Hypothesis emi_computed :
  calculatePMT principal monthlyRate tenureMonths = Normal emi.

(** The EMI is more than the interest of the first month. *)
Lemma calculatePMT_above_interest : principal * monthlyRate < emi.
Proof using principal_pos rate_nonneg tenure_pos emi_computed.
  pose proof emi_computed as Hpmt. unfold calculatePMT, Number_div in Hpmt.
  destruct (eqb monthlyRate 0) eqn:Hr.
  - apply eqb_true in Hr.
    destruct (Qeq_bool (inject_Z tenureMonths) 0) eqn:Hn; [discriminate|].
    injection Hpmt as <-. rewrite Hr.
    assert (Hpos : 0 < inject_Z tenureMonths)
      by (change 0 with (inject_Z 0); rewrite <- Zlt_Qlt; exact tenure_pos).
    assert (H : 0 < principal / inject_Z tenureMonths)
      by (apply Qlt_shift_div_l; [exact Hpos|lra]).
    lra.
  - apply eqb_false in Hr.
    pose proof (growth_gt_1 monthlyRate tenureMonths rate_nonneg tenure_pos Hr) as Hg.
    destruct (Qeq_bool _ 0) eqn:Hd; [discriminate|].
    injection Hpmt as <-. unfold Math_pow in *.
    set (G := (1 + monthlyRate) ^ tenureMonths) in *.
    assert (Hrpos : 0 < monthlyRate).
    { destruct (Qlt_le_dec 0 monthlyRate); [assumption|]. exfalso. apply Hr. lra. }
    assert (Hpr : 0 < principal * monthlyRate)
      by (apply Qmult_lt_0_compat; assumption).
    assert (Hsplit : principal * monthlyRate * G / (G - 1)
                     == principal * monthlyRate
                        + principal * monthlyRate / (G - 1))
      by (field; lra).
    assert (H : 0 < principal * monthlyRate / (G - 1))
      by (apply Qlt_shift_div_l; lra).
    lra.
Qed.

Lemma calculatePMT_pos : 0 < emi.
Proof using principal_pos rate_nonneg tenure_pos emi_computed.
  pose proof calculatePMT_above_interest.
  pose proof (Qmult_le_0_compat principal monthlyRate ltac:(lra) rate_nonneg).
  lra.
Qed.

(** The schedule, the instalments and the interest: what is still owed
    is the principal, plus the interest charged, less the instalments. *)
Lemma scheduled_balance (k : nat) :
  scheduled principal monthlyRate emi k
  == principal + scheduledInterest principal monthlyRate emi k
     - inject_Z (Z.of_nat k) * emi.
Proof using principal_pos rate_nonneg tenure_pos emi_computed.
  induction k as [|k IH].
  - cbn [scheduled scheduledInterest]. change (inject_Z (Z.of_nat 0)) with 0. ring.
  - cbn [scheduled scheduledInterest]. rewrite Nat2Z.inj_succ. unfold Z.succ.
    rewrite inject_Z_plus. change (inject_Z 1) with 1. rewrite IH. ring.
Qed.

(** A schedule that has gone below 0 stays there. *)
Lemma scheduled_negative_stays (j d : nat) :
  scheduled principal monthlyRate emi j < 0 ->
  scheduled principal monthlyRate emi (j + d) < 0.
Proof using principal_pos rate_nonneg tenure_pos emi_computed.
  intros Hneg. pose proof calculatePMT_pos as Hemi.
  induction d as [|d IH]; [rewrite Nat.add_0_r; exact Hneg|].
  rewrite Nat.add_succ_r. cbn [scheduled].
  set (s := scheduled principal monthlyRate emi (j + d)) in *.
  assert (H : s * monthlyRate <= 0).
  { rewrite <- (Qmult_0_l monthlyRate). apply Qmult_le_compat_r; lra. }
  lra.
Qed.

Lemma scheduled_nonneg (k : nat) :
  (k <= Z.to_nat tenureMonths)%nat ->
  0 <= scheduled principal monthlyRate emi k.
Proof using principal_pos rate_nonneg tenure_pos emi_computed.
  intros Hk.
  destruct (Qlt_le_dec (scheduled principal monthlyRate emi k) 0) as [Hneg|H];
    [|exact H].
  exfalso.
  pose proof (scheduled_negative_stays k (Z.to_nat tenureMonths - k) Hneg) as Hend.
  replace (k + (Z.to_nat tenureMonths - k))%nat with (Z.to_nat tenureMonths)
    in Hend by lia.
  rewrite (scheduled_end principal monthlyRate tenureMonths rate_nonneg tenure_pos
             emi emi_computed) in Hend.
  lra.
Qed.

Lemma scheduledInterest_mono (j k : nat) :
  (j <= k)%nat -> (k <= Z.to_nat tenureMonths)%nat ->
  scheduledInterest principal monthlyRate emi j
  <= scheduledInterest principal monthlyRate emi k.
Proof using principal_pos rate_nonneg tenure_pos emi_computed.
  induction 1 as [|k Hle IH]; intros Hk; [lra|].
  cbn [scheduledInterest].
  pose proof (Qmult_le_0_compat _ _ (scheduled_nonneg k ltac:(lia)) rate_nonneg).
  specialize (IH ltac:(lia)). lra.
Qed.

(** Over the whole tenure the schedule charges [emi * n - principal]. *)
Lemma scheduledInterest_total :
  scheduledInterest principal monthlyRate emi (Z.to_nat tenureMonths)
  == emi * inject_Z tenureMonths - principal.
Proof using principal_pos rate_nonneg tenure_pos emi_computed.
  pose proof (scheduled_balance (Z.to_nat tenureMonths)) as H.
  rewrite (scheduled_end principal monthlyRate tenureMonths rate_nonneg tenure_pos
             emi emi_computed) in H.
  rewrite Z2Nat.id in H by lia. lra.
Qed.

End ScheduleFacts.

(** ** Prepayments that clear the loan, and loans of one unit *)

Lemma calculatePMT_repays (principal monthlyRate : Q) (tenureMonths : Z) (emi : Q) :
  0 < principal -> 0 <= monthlyRate -> (0 < tenureMonths)%Z ->
  calculatePMT principal monthlyRate tenureMonths = Normal emi ->
  principal <= emi * inject_Z tenureMonths.
Proof.
  intros HP Hr Hn Hemi.
  pose proof (scheduledInterest_total _ _ _ _ HP Hr Hn Hemi) as Htotal.
  pose proof (scheduledInterest_mono _ _ _ _ HP Hr Hn Hemi 0
                (Z.to_nat tenureMonths) ltac:(lia) ltac:(lia)) as Hmono.
  cbn [scheduledInterest] in Hmono. lra.
Qed.

(** X4: a valid loan of at most one unit of currency is below the
    threshold of the simulation loop, which does not run: the result has
    [new_tenure_months = 0], [interest_after_prepayment = 0] and
    [tenure_reduction_months = loanTenureMonths], and the prepayment is
    not applied. *)
Theorem X4_principal_below_threshold (toLocaleString : Q -> string)
    (input : LoanPrepaymentInput) :
  validPrepaymentInput input ->
  loanPrincipal input <= 1 ->
  exists result,
    calculateLoanPrepaymentImpact toLocaleString input = Normal result
    /\ new_tenure_months result = 0%Z
    /\ interest_after_prepayment result = 0%Z
    /\ tenure_reduction_months result = loanTenureMonths input
    /\ interest_saved result = interest_before_prepayment result.
Proof.
  intros V Hsmall.
  destruct (calculateLoanPrepaymentImpact_valid toLocaleString input V)
    as (emi & st & Hemi & Hrun & ->).
  assert (Hst : st = prepaymentInit input).
  { unfold prepaymentLoop in Hrun.
    destruct (Z.to_nat (loanTenureMonths input * 2)); cbn [while] in Hrun;
      unfold prepaymentLoopCond in Hrun at 1;
      cbn [prepaymentInit remainingPrincipal] in Hrun;
      (replace (ltb 1 (loanPrincipal input)) with false in Hrun
         by (symmetry; apply ltb_false; exact Hsmall));
      cbn [andb] in Hrun; congruence. }
  subst st. destruct V as (HP & Hr & Hn & Hpp & Hpm).
  apply monthlyRate_nonneg in Hr.
  eexists. split; [reflexivity|].
  cbn [new_tenure_months interest_after_prepayment tenure_reduction_months
       interest_saved interest_before_prepayment prepaymentInit
       totalInterestPaid monthsElapsed].
  split; [reflexivity|]. split; [reflexivity|]. split; [lia|].
  apply Math_round_eq.
  pose proof (calculatePMT_repays _ _ _ _ HP Hr Hn Hemi) as Hge.
  destruct (Math_max_cases 0
              (emi * inject_Z (loanTenureMonths input) - loanPrincipal input - 0))
    as [[_ ->]|[Hneg _]]; [ring|]. exfalso. lra.
Qed.

Lemma X4_witness :
  exists result,
    calculateLoanPrepaymentImpact toLocaleString_plain sampleInputTiny = Normal result
    /\ new_tenure_months result = 0%Z
    /\ interest_after_prepayment result = 0%Z
    /\ tenure_reduction_months result = loanTenureMonths sampleInputTiny
    /\ interest_saved result = interest_before_prepayment result.
Proof.
  apply (X4_principal_below_threshold toLocaleString_plain sampleInputTiny);
    first [valid_sample | discriminate].
Defined.

(** ** calculateNewTenure *)

Lemma Math_ceil_Z (z : Z) : Math_ceil (inject_Z z) = z.
Proof. unfold Math_ceil. apply Qceiling_Z. Qed.

Section NewTenureFacts.

Variables (monthlyRate emi : Q).

Lemma NewTenure_loop_returns fuel st :
  (Z.to_nat (maxMonths - NewTenure.months st) <= fuel)%nat ->
  exists st', NewTenure.loop monthlyRate emi fuel st = Normal st'.
Proof.
  apply (while_terminates _ _ _
           (fun st => Z.to_nat (maxMonths - NewTenure.months st))).
  intros s Hc _. unfold NewTenure.cond in Hc. qtests.
  cbn [NewTenure.body NewTenure.months]. lia.
Qed.

Lemma NewTenure_loop_months fuel st st' :
  (0 <= NewTenure.months st <= maxMonths)%Z ->
  NewTenure.loop monthlyRate emi fuel st = Normal st' ->
  (0 <= NewTenure.months st' <= maxMonths)%Z.
Proof.
  intros Hle Hrun.
  apply (while_invariant _ _ _
           (fun s => (0 <= NewTenure.months s <= maxMonths)%Z))
    in Hrun; [tauto| |lia].
  intros s Hs Hc _. unfold NewTenure.cond in Hc. qtests.
  cbn [NewTenure.body NewTenure.months]. lia.
Qed.

End NewTenureFacts.

(** X6: at a rate other than 0, [calculateNewTenure] returns a number of
    months between 0 and its cap of 600, whatever the principal and the
    EMI are. *)
Theorem X6_new_tenure_capped (principal monthlyRate emi : Q) :
  ~ monthlyRate == 0 ->
  exists months,
    calculateNewTenure (Z.to_nat maxMonths) principal monthlyRate emi
    = Normal months
    /\ (0 <= months <= 600)%Z.
Proof.
  intros Hr. unfold calculateNewTenure.
  destruct (eqb monthlyRate 0) eqn:E; [apply eqb_true in E; contradiction|].
  destruct (NewTenure_loop_returns monthlyRate emi (Z.to_nat maxMonths)
              (NewTenure.init principal)) as [st Hst].
  { cbn [NewTenure.init NewTenure.months]. lia. }
  rewrite Hst. cbn [bind].
  apply NewTenure_loop_months in Hst; [|cbn; unfold maxMonths; lia].
  destruct (_ && _).
  - eexists. split; [reflexivity|]. unfold maxMonths. lia.
  - eexists. split; [reflexivity|]. rewrite Math_ceil_Z. exact Hst.
Qed.

Lemma X6_witness :
  exists months,
    calculateNewTenure (Z.to_nat maxMonths) 1000 (1 # 100) 600 = Normal months
    /\ (0 <= months <= 600)%Z.
Proof. apply X6_new_tenure_capped. intros H. discriminate H. Defined.

(** X7: an EMI that does not cover the interest of the first month on a
    principal above 0.01 makes [calculateNewTenure] return its cap, 600
    months, at a rate other than 0. *)
Theorem X7_new_tenure_emi_too_small (principal monthlyRate emi : Q) :
  ~ monthlyRate == 0 ->
  1 # 100 < principal ->
  emi <= principal * monthlyRate ->
  calculateNewTenure (Z.to_nat maxMonths) principal monthlyRate emi
  = Normal 600%Z.
Proof.
  intros Hr HP Hemi. unfold calculateNewTenure.
  destruct (eqb monthlyRate 0) eqn:E; [apply eqb_true in E; contradiction|].
  assert (Hc : NewTenure.cond (NewTenure.init principal) = true).
  { unfold NewTenure.cond. cbn [NewTenure.init NewTenure.remainingPrincipal
                                 NewTenure.months].
    apply andb_true_iff. split; [apply ltb_true; exact HP|reflexivity]. }
  assert (Hl : NewTenure.emiTooSmall monthlyRate emi (NewTenure.init principal)
               = true).
  { unfold NewTenure.emiTooSmall.
    cbn [NewTenure.init NewTenure.remainingPrincipal]. apply leb_true. lra. }
  unfold NewTenure.loop.
  replace (Z.to_nat maxMonths) with (S 599) by reflexivity.
  cbn [while]. rewrite Hc, Hl. cbn [bind]. rewrite Hc, Hl. reflexivity.
Qed.

Lemma X7_witness :
  calculateNewTenure (Z.to_nat maxMonths) 1000 (1 # 100) 10 = Normal 600%Z.
Proof.
  apply X7_new_tenure_emi_too_small;
    [intros H; discriminate H|reflexivity|discriminate].
Defined.

(** ** simulateLoanWithPrepayment *)

Section WithPrepaymentFacts.

Import WithPrepayment.

Variables (monthlyRate emi prepaymentAmount : Q).
Variables (prepaymentMonth originalTenureMonths : Z).

Let body := forBody monthlyRate emi prepaymentAmount prepaymentMonth.

Lemma forBody_monthsElapsed st :
  monthsElapsed (body st) = (monthsElapsed st + 1)%Z.
Proof.
  unfold body, forBody.
  destruct (_ && _); [destruct (leb _ _)|]; reflexivity.
Qed.

(** After the body either the loop has been left, with the loan paid, or
    the month has advanced. *)
Lemma forBody_month st :
  (broke (body st) = true /\ remainingPrincipal (body st) <= paidEpsilon
   /\ month (body st) = month st)
  \/ (broke (body st) = false /\ month (body st) = (month st + 1)%Z).
Proof.
  unfold body, forBody.
  destruct (_ && _); [destruct (leb _ _) eqn:E|]; cbn; auto.
  left. qtests. auto.
Qed.

Lemma forLoop_returns fuel st :
  (Z.to_nat (originalTenureMonths + 1 - month st) <= fuel)%nat ->
  exists st', forLoop monthlyRate emi prepaymentAmount prepaymentMonth
                originalTenureMonths fuel st = Normal st'.
Proof.
  intros Hfuel.
  apply (while_terminates _ _ _
           (fun st => if broke st then O
                      else Z.to_nat (originalTenureMonths + 1 - month st))).
  - intros s Hc _. unfold forCond in Hc. qtests.
    apply negb_true_iff in H. rewrite H.
    fold (body s).
    destruct (forBody_month s) as [(-> & _ & _) | (-> & ->)]; lia.
  - destruct (broke st); lia.
Qed.

Lemma tailLoop_returns fuel st :
  (Z.to_nat (maxAdditionalMonths - additionalMonths st) <= fuel)%nat ->
  exists st', tailLoop monthlyRate emi fuel st = Normal st'.
Proof.
  apply (while_terminates _ _ _
           (fun st => Z.to_nat (maxAdditionalMonths - additionalMonths st))).
  intros s Hc _. unfold tailCond in Hc. qtests.
  cbn [tailBody additionalMonths]. lia.
Qed.

Lemma tailLoop_months fuel st st' :
  (0 <= additionalMonths st <= maxAdditionalMonths)%Z ->
  tailLoop monthlyRate emi fuel st = Normal st' ->
  (0 <= additionalMonths st' <= maxAdditionalMonths)%Z.
Proof.
  intros Hle Hrun.
  apply (while_invariant _ _ _
           (fun s => (0 <= additionalMonths s <= maxAdditionalMonths)%Z))
    in Hrun; [tauto| |lia].
  intros s Hs Hc _. unfold tailCond in Hc. qtests.
  cbn [tailBody additionalMonths]. lia.
Qed.

(** The months counted by the [for] loop: one less than its counter,
    and within the tenure. *)
Lemma forLoop_months fuel originalPrincipal st' :
  forLoop monthlyRate emi prepaymentAmount prepaymentMonth
    originalTenureMonths fuel (forInit originalPrincipal) = Normal st' ->
  (0 <= monthsElapsed st' <= Z.max 0 originalTenureMonths)%Z.
Proof.
  intros Hrun.
  apply (while_invariant _ _ _
           (fun s => (0 <= monthsElapsed s <= Z.max 0 originalTenureMonths)%Z
                     /\ (broke s = false -> month s = monthsElapsed s + 1)%Z))
    in Hrun; [tauto| |cbn; split; [lia|reflexivity]].
  intros s [Hm Hb] Hc _. unfold forCond in Hc. qtests.
  apply negb_true_iff in H. specialize (Hb H).
  fold (body s). rewrite forBody_monthsElapsed.
  split; [lia|].
  destruct (forBody_month s) as [(Hbr & _ & _) | (_ & ->)]; [congruence|lia].
Qed.

End WithPrepaymentFacts.

(** X9: [simulateLoanWithPrepayment] returns on every input, once its two
    loops have the steps that the tenure and the cap of 600 ask for; the
    tenure that it reports is between 0 and the original tenure plus
    600. *)
Theorem X9_simulation_returns_bounded (fuel : nat)
    (originalPrincipal outstandingPrincipal monthlyRate emi prepaymentAmount : Q)
    (prepaymentMonth originalTenureMonths : Z) :
  (Z.to_nat originalTenureMonths <= fuel)%nat ->
  (600 <= fuel)%nat ->
  exists result,
    simulateLoanWithPrepayment fuel originalPrincipal outstandingPrincipal
      monthlyRate emi prepaymentAmount prepaymentMonth originalTenureMonths
    = Normal result
    /\ (0 <= WithPrepayment.newTenureMonths result
        <= Z.max 0 originalTenureMonths + 600)%Z.
Proof.
  intros Hf1 Hf2. unfold simulateLoanWithPrepayment.
  destruct (forLoop_returns monthlyRate emi prepaymentAmount prepaymentMonth
              originalTenureMonths fuel (WithPrepayment.forInit originalPrincipal))
    as [st Hst].
  { cbn [WithPrepayment.forInit WithPrepayment.month]. lia. }
  rewrite Hst. cbn [bind].
  apply forLoop_months in Hst.
  destruct (ltb paidEpsilon (WithPrepayment.remainingPrincipal st)).
  - match goal with
    | |- context [WithPrepayment.tailLoop _ _ _ ?s] =>
        destruct (tailLoop_returns monthlyRate emi fuel s) as [tail Htail];
          [cbn [WithPrepayment.additionalMonths];
           unfold WithPrepayment.maxAdditionalMonths; lia|];
        rewrite Htail; cbn [bind];
        apply tailLoop_months in Htail;
          [|cbn; unfold WithPrepayment.maxAdditionalMonths; lia]
    end.
    unfold WithPrepayment.maxAdditionalMonths in *.
    destruct (_ && _); eexists; (split; [reflexivity|]);
      cbn [WithPrepayment.newTenureMonths]; lia.
  - eexists. split; [reflexivity|]. cbn [WithPrepayment.newTenureMonths]. lia.
Qed.

Lemma X9_witness :
  exists result,
    simulateLoanWithPrepayment 600 1200 1200 (1 # 100) 408 500 2 3
    = Normal result
    /\ (0 <= WithPrepayment.newTenureMonths result <= Z.max 0 3 + 600)%Z.
Proof. apply X9_simulation_returns_bounded; cbn; lia. Defined.

(** ** The JSON entry points and the service layer *)

(** X12: [simulateLoanPrepayment], and with it the service function
    [calculatePrepaymentImpact], returns a string on every input and
    never throws: the rendering of the error message on an input that
    the validation refuses, the rendering of the result that
    [getPrepaymentImpact] returns on every other input. *)
Theorem X12_prepayment_json_never_throws (toLocaleString : Q -> string)
    (stringifyPrepayment : LoanPrepaymentResult -> string)
    (stringifyError : string -> string) (input : LoanPrepaymentInput) :
  (prepaymentInputInvalid input = true
   /\ getPrepaymentImpact toLocaleString input = Throw "Invalid input parameters"
   /\ calculatePrepaymentImpact toLocaleString stringifyPrepayment
        stringifyError input
      = Normal (stringifyError "Invalid input parameters"))
  \/ (prepaymentInputInvalid input = false
      /\ exists result,
           getPrepaymentImpact toLocaleString input = Normal result
           /\ calculatePrepaymentImpact toLocaleString stringifyPrepayment
                stringifyError input
              = Normal (stringifyPrepayment result)).
Proof.
  unfold calculatePrepaymentImpact, simulateLoanPrepayment, getPrepaymentImpact.
  destruct (prepaymentInputInvalid input) eqn:E.
  - left. split; [reflexivity|].
    unfold calculateLoanPrepaymentImpact, calculateLoanPrepaymentImpact_fuel.
    rewrite E. split; reflexivity.
  - right. split; [reflexivity|].
    apply validPrepaymentInput_iff in E.
    destruct (calculateLoanPrepaymentImpact_valid toLocaleString input E)
      as (emi & st & _ & _ & ->).
    eexists. split; reflexivity.
Qed.

(** X13: [optimizeDebtRepaymentJSON], and with it the service function
    [optimizeDebtRepaymentStrategy], returns a string on every input and
    never throws: the rendering of one of the two error messages when
    there is no loan or a loan is refused, the rendering of the result
    that [getDebtRepaymentStrategy] returns on every other input. *)
Theorem X13_repayment_json_never_throws (toLocaleString : Q -> string)
    (stringifyRepayment : DebtRepaymentResult -> string)
    (stringifyError : string -> string) (input : DebtRepaymentInput) :
  (loans input = []
   /\ optimizeDebtRepaymentStrategy toLocaleString stringifyRepayment
        stringifyError input
      = Normal (stringifyError "At least one loan is required"))
  \/ (loans input <> [] /\ existsb loanInvalid (loans input) = true
      /\ optimizeDebtRepaymentStrategy toLocaleString stringifyRepayment
           stringifyError input
         = Normal (stringifyError "Invalid loan data"))
  \/ (loans input <> [] /\ existsb loanInvalid (loans input) = false
      /\ exists result,
           getDebtRepaymentStrategy toLocaleString input = Normal result
           /\ optimizeDebtRepaymentStrategy toLocaleString stringifyRepayment
                stringifyError input
              = Normal (stringifyRepayment result)).
Proof.
  unfold optimizeDebtRepaymentStrategy, optimizeDebtRepaymentJSON,
    getDebtRepaymentStrategy.
  destruct (loans input) as [|loan rest] eqn:El.
  - left. split; [reflexivity|].
    unfold optimizeDebtRepayment, optimizeDebtRepayment_fuel.
    rewrite El. reflexivity.
  - right. destruct (existsb loanInvalid (loan :: rest)) eqn:Ev.
    + left. split; [discriminate|]. split; [reflexivity|].
      unfold optimizeDebtRepayment, optimizeDebtRepayment_fuel.
      rewrite El. cbn [length Nat.eqb]. rewrite Ev. reflexivity.
    + right. split; [discriminate|]. split; [reflexivity|].
      assert (Hne : loans input <> []) by (rewrite El; discriminate).
      assert (Hv : Forall validLoan (loans input))
        by (apply validLoans_iff; rewrite El; exact Ev).
      destruct (optimizeDebtRepayment_valid toLocaleString input Hne Hv)
        as (stA & stS & interests & _ & _ & _ & H).
      cbv zeta in H. destruct H as (_ & _ & _ & ->).
      eexists. split; reflexivity.
Qed.

(** ** More on optimizeDebtRepayment *)


Lemma validLoans_rates_nonneg (l : list Loan) :
  Forall validLoan l -> Forall (fun loan => 0 <= annual_interest_rate loan) l.
Proof.
  apply List.Forall_impl. intros loan (_ & _ & H & _). exact H.
Qed.











(** ** A strategy that stops before its cap has paid every loan *)

Lemma size_list_to_set_le (l : list string) :
  (size (list_to_set l : gset string) <= length l)%nat.
Proof.
  induction l as [|x l IH]; cbn [list_to_set length].
  - rewrite size_empty. lia.
  - rewrite size_union_alt, size_singleton.
    assert (H : (size (list_to_set l ∖ {[x]} : gset string)
                 <= size (list_to_set l : gset string))%nat).
    { apply subseteq_size. intros y Hy. apply elem_of_difference in Hy. tauto. }
    lia.
Qed.

Section StopsEarly.

Variables (loans : list Loan) (repaymentOrder : list string) (monthlySurplus : Q).
Hypothesis loans_valid : Forall validLoan loans.
Hypothesis order_perm : Permutation repaymentOrder (map loan_name loans).

Let names : gset string := list_to_set (map loan_name loans).

(** The names marked as paid off are names of loans, and their balances
    are at most 0.01. *)
Let paidInvariant (st : Simulation.State) : Prop :=
  Simulation.paidOffLoans st ⊆ names
  /\ forall name, name ∈ Simulation.paidOffLoans st ->
       Simulation.getOrZero (Simulation.balances st) name <= paidEpsilon.

Lemma loanStep_paid priority st loan :
  loan_name loan ∈ names ->
  paidInvariant st -> paidInvariant (Simulation.loanStep priority st loan).
Proof using Type.
  intros Hn [Hsub Hbal]. unfold Simulation.loanStep.
  destruct (bool_decide _) eqn:Ep; [split; assumption|].
  apply bool_decide_eq_false in Ep.
  destruct (leb _ paidEpsilon) eqn:E.
  - apply leb_true in E. split; cbn [Simulation.paidOffLoans Simulation.balances].
    + intros x Hx. apply elem_of_union in Hx. destruct Hx as [Hx|Hx]; [|auto].
      apply elem_of_singleton in Hx. subst x. exact Hn.
    + intros x Hx. apply elem_of_union in Hx. destruct Hx as [Hx|Hx]; [|auto].
      apply elem_of_singleton in Hx. subst x. exact E.
  - match goal with
    | |- paidInvariant (let '(_, _) := ?c in _) => destruct c as [nb extra] eqn:Ec
    end.
    split; cbn [Simulation.paidOffLoans Simulation.balances].
    + destruct (leb nb paidEpsilon); [|exact Hsub].
      intros x Hx. apply elem_of_union in Hx. destruct Hx as [Hx|Hx]; [|auto].
      apply elem_of_singleton in Hx. subst x. exact Hn.
    + intros x Hx.
      destruct (decide (x = loan_name loan)) as [->|Hne].
      * destruct (leb nb paidEpsilon) eqn:E'; [|contradiction].
        apply leb_true in E'. unfold Simulation.getOrZero.
        rewrite lookup_insert_eq.
        unfold paidEpsilon in *.
        destruct (eqb _ 0); [lra|].
        destruct (Math_max_cases 0 nb) as [[? ->]|[? ->]]; lra.
      * assert (Hold : x ∈ Simulation.paidOffLoans st).
        { destruct (leb nb paidEpsilon); [|exact Hx].
          apply elem_of_union in Hx. destruct Hx as [Hx|Hx]; [|exact Hx].
          apply elem_of_singleton in Hx. contradiction. }
        unfold Simulation.getOrZero. rewrite lookup_insert_ne by congruence.
        apply (Hbal x Hold).
Qed.

Lemma loanSteps_paid priority (l : list Loan) st :
  Forall (fun loan => loan_name loan ∈ names) l ->
  paidInvariant st ->
  paidInvariant (fold_left (Simulation.loanStep priority) l st).
Proof using Type.
  intros H. revert st. induction H as [|loan l Hn _ IH]; intros st Hst;
    [exact Hst|].
  cbn [fold_left]. apply IH. apply loanStep_paid; assumption.
Qed.

Lemma loans_named : Forall (fun loan => loan_name loan ∈ names) loans.
Proof using Type.
  apply List.Forall_forall. intros loan Hin. unfold names.
  apply elem_of_list_to_set, list_elem_of_In, in_map. exact Hin.
Qed.

Lemma Simulation_loop_paid fuel st :
  Simulation.loop loans repaymentOrder monthlySurplus fuel
    (Simulation.init loans monthlySurplus) = Normal st ->
  paidInvariant st.
Proof using Type.
  intros Hrun.
  apply (while_invariant _ _ _ paidInvariant) in Hrun; [tauto| |].
  - intros s Hs _ _. unfold Simulation.body.
    match goal with
    | |- paidInvariant {| Simulation.balances := Simulation.balances ?s2 |} =>
        assert (H2 : paidInvariant s2)
    end.
    { apply loanSteps_paid; [exact loans_named|]. exact Hs. }
    exact H2.
  - split; cbn [Simulation.init Simulation.paidOffLoans].
    + intros x Hx. apply elem_of_empty in Hx. contradiction.
    + intros x Hx. apply elem_of_empty in Hx. contradiction.
Qed.

(** What ends the loop before the cap: every loan is marked as paid. *)
Lemma Simulation_stopped_all_paid st :
  paidInvariant st ->
  (Simulation.months st < maxMonths)%Z ->
  Simulation.cond loans st = false \/ Simulation.allPaid repaymentOrder st = true ->
  forall loan, In loan loans -> loan_name loan ∈ Simulation.paidOffLoans st.
Proof using loans_valid order_perm.
  intros [Hsub _] Hm Hstop loan Hin.
  assert (Hname : In (loan_name loan) (map loan_name loans))
    by (apply in_map; exact Hin).
  destruct Hstop as [Hc | Hp].
  - unfold Simulation.cond in Hc. apply andb_false_iff in Hc.
    destruct Hc as [Hc | Hc]; [|apply Z.ltb_ge in Hc; lia].
    apply Nat.ltb_ge in Hc.
    assert (Heq : Simulation.paidOffLoans st ≡ names).
    { apply set_subseteq_size_equiv; [exact Hsub|].
      pose proof (size_list_to_set_le (map loan_name loans)) as Hle.
      rewrite length_map in Hle. fold names in Hle. lia. }
    apply Heq. unfold names. apply elem_of_list_to_set, list_elem_of_In.
    exact Hname.
  - unfold Simulation.allPaid, Simulation.noPriority in Hp.
    destruct (Simulation.findPriority repaymentOrder st) as [p|] eqn:Ef.
    + exfalso. apply String.eqb_eq in Hp. subst p.
      unfold Simulation.findPriority in Ef. apply find_some in Ef.
      destruct Ef as [Hino _].
      apply (Permutation_in _ order_perm) in Hino.
      apply in_map_iff in Hino. destruct Hino as (bad & Hbad & Hbadin).
      pose proof (proj1 (List.Forall_forall _ _) loans_valid bad Hbadin)
        as (Hnonempty & _).
      congruence.
    + unfold Simulation.findPriority in Ef.
      apply (Permutation_in _ (Permutation_sym order_perm)) in Hname.
      pose proof (find_none _ _ Ef _ Hname) as Hpaid. cbn beta in Hpaid.
      apply negb_false_iff, bool_decide_eq_true in Hpaid. exact Hpaid.
Qed.

End StopsEarly.

(** X17: a strategy simulation that ends before its cap of 600 months
    has paid every loan: each loan is marked as paid off and its balance
    is at most 0.01.  The loans are valid and the order lists their
    names. *)
Theorem X17_stops_early_all_paid (loans : list Loan)
    (repaymentOrder : list string) (monthlySurplus : Q) :
  Forall validLoan loans ->
  Permutation repaymentOrder (map loan_name loans) ->
  exists st,
    Simulation.loop loans repaymentOrder monthlySurplus (Z.to_nat maxMonths)
      (Simulation.init loans monthlySurplus) = Normal st
    /\ calculateStrategyInterest (Z.to_nat maxMonths) loans repaymentOrder
         monthlySurplus
       = Normal (round2 (Simulation.totalInterest st))
    /\ ((Simulation.months st < 600)%Z ->
        Forall (fun loan =>
                  loan_name loan ∈ Simulation.paidOffLoans st
                  /\ Simulation.getOrZero (Simulation.balances st) (loan_name loan)
                     <= 1 # 100)
          loans).
Proof.
  intros Hv Hperm.
  destruct (calculateStrategyInterest_returns loans repaymentOrder monthlySurplus)
    as (st & Hrun & _ & Heq).
  exists st. split; [exact Hrun|]. split; [exact Heq|].
  intros Hm.
  pose proof (Simulation_loop_paid loans repaymentOrder monthlySurplus _ _ Hrun)
    as Hinv.
  pose proof Hrun as Hstop.
  apply (while_invariant _ _ _ (fun _ => True)) in Hstop; [|auto|exact I].
  destruct Hstop as [_ Hstop].
  apply List.Forall_forall. intros loan Hin.
  pose proof (Simulation_stopped_all_paid loans repaymentOrder Hv Hperm st Hinv
                Hm Hstop loan Hin) as Hpaid.
  split; [exact Hpaid|].
  destruct Hinv as [_ Hbal]. apply (Hbal _ Hpaid).
Qed.

Lemma X17_witness :
  exists st,
    Simulation.loop (loans sampleLoans) ["A"; "B"]%string 0 (Z.to_nat maxMonths)
      (Simulation.init (loans sampleLoans) 0) = Normal st
    /\ calculateStrategyInterest (Z.to_nat maxMonths) (loans sampleLoans)
         ["A"; "B"]%string 0
       = Normal (round2 (Simulation.totalInterest st))
    /\ ((Simulation.months st < 600)%Z ->
        Forall (fun loan =>
                  loan_name loan ∈ Simulation.paidOffLoans st
                  /\ Simulation.getOrZero (Simulation.balances st) (loan_name loan)
                     <= 1 # 100)
          (loans sampleLoans)).
Proof.
  apply X17_stops_early_all_paid.
  - repeat constructor; cbn; first [discriminate | reflexivity].
  - apply Permutation_refl.
Defined.

(** ** A larger surplus never costs interest *)

Lemma isPriority_true (name : string) (found : option string) :
  Simulation.isPriority name found = true <-> found = Some name.
Proof.
  unfold Simulation.isPriority. destruct found as [p|]; [|split; discriminate].
  rewrite String.eqb_eq. split; [intros ->; reflexivity|congruence].
Qed.

Lemma getOrZero_insert_eq (m : gmap string Q) (name : string) (v : Q) :
  Simulation.getOrZero (<[name := v]> m) name == v.
Proof.
  unfold Simulation.getOrZero. rewrite lookup_insert_eq.
  destruct (eqb v 0) eqn:E; qtests; [symmetry; exact E|reflexivity].
Qed.

Lemma getOrZero_insert_ne (m : gmap string Q) (name other : string) (v : Q) :
  other <> name ->
  Simulation.getOrZero (<[name := v]> m) other = Simulation.getOrZero m other.
Proof.
  intros Hne. unfold Simulation.getOrZero.
  rewrite lookup_insert_ne by congruence. reflexivity.
Qed.

(** The month of a loan that is not paid off and owes more than 0.01. *)
Lemma loanStep_processed priority st loan :
  loan_name loan ∉ Simulation.paidOffLoans st ->
  paidEpsilon < Simulation.getOrZero (Simulation.balances st) (loan_name loan) ->
  let balance := Simulation.getOrZero (Simulation.balances st) (loan_name loan) in
  let interest := balance * (annual_interest_rate loan / 12 / 100) in
  let newBalance := balance - Math_min (monthly_emi loan - interest) balance in
  let applies :=
    Simulation.isPriority (loan_name loan) priority
    && ltb 0 (Simulation.availableExtra st) && ltb paidEpsilon newBalance in
  let left :=
    if applies
    then newBalance - Math_min (Simulation.availableExtra st) newBalance
    else newBalance in
  Simulation.loanStep priority st loan
  = {| Simulation.balances :=
         <[loan_name loan := Math_max 0 left]> (Simulation.balances st);
       Simulation.paidOffLoans :=
         if leb left paidEpsilon
         then {[ loan_name loan ]} ∪ Simulation.paidOffLoans st
         else Simulation.paidOffLoans st;
       Simulation.totalInterest := Simulation.totalInterest st + interest;
       Simulation.availableExtra :=
         if applies
         then Simulation.availableExtra st
              - Math_min (Simulation.availableExtra st) newBalance
         else Simulation.availableExtra st;
       Simulation.months := Simulation.months st |}.
Proof.
  intros Hp Hb. cbv zeta. unfold Simulation.loanStep.
  rewrite bool_decide_eq_false_2 by exact Hp.
  rewrite (proj2 (leb_false _ _)) by exact Hb.
  destruct (_ && _ && _); reflexivity.
Qed.

(** The month of a loan that is paid off, or owes at most 0.01: it is
    marked, and nothing else changes. *)
Lemma loanStep_quiet priority st loan :
  loan_name loan ∈ Simulation.paidOffLoans st
  \/ Simulation.getOrZero (Simulation.balances st) (loan_name loan) <= paidEpsilon ->
  let st' := Simulation.loanStep priority st loan in
  Simulation.balances st' = Simulation.balances st
  /\ Simulation.totalInterest st' = Simulation.totalInterest st
  /\ Simulation.availableExtra st' = Simulation.availableExtra st
  /\ loan_name loan ∈ Simulation.paidOffLoans st'
  /\ (forall name, name ∈ Simulation.paidOffLoans st' <->
                   name = loan_name loan \/ name ∈ Simulation.paidOffLoans st).
Proof.
  intros H. cbv zeta. unfold Simulation.loanStep.
  destruct (bool_decide _) eqn:Ep.
  - apply bool_decide_eq_true in Ep. repeat split; auto.
    intros [->|]; assumption.
  - apply bool_decide_eq_false in Ep. destruct H as [H|H]; [contradiction|].
    rewrite (proj2 (leb_true _ _)) by exact H.
    cbn [Simulation.balances Simulation.totalInterest Simulation.availableExtra
         Simulation.paidOffLoans].
    repeat split; try reflexivity.
    + apply elem_of_union_l, elem_of_singleton. reflexivity.
    + rewrite elem_of_union, elem_of_singleton. tauto.
    + rewrite elem_of_union, elem_of_singleton. tauto.
Qed.

(** What every month of a loan does, at a rate that is not negative. *)
Lemma loanStep_general priority st loan :
  0 <= annual_interest_rate loan ->
  let st' := Simulation.loanStep priority st loan in
  (forall name, name ∈ Simulation.paidOffLoans st ->
                name ∈ Simulation.paidOffLoans st')
  /\ (forall name, name ∈ Simulation.paidOffLoans st' ->
                   name = loan_name loan \/ name ∈ Simulation.paidOffLoans st)
  /\ (forall name, name <> loan_name loan ->
        Simulation.getOrZero (Simulation.balances st') name
        = Simulation.getOrZero (Simulation.balances st) name)
  /\ Simulation.totalInterest st <= Simulation.totalInterest st'
  /\ Simulation.availableExtra st' <= Simulation.availableExtra st.
Proof.
  intros Hr. cbv zeta.
  destruct (decide (loan_name loan ∈ Simulation.paidOffLoans st)) as [Hp|Hp];
    [|destruct (Qlt_le_dec paidEpsilon
                  (Simulation.getOrZero (Simulation.balances st) (loan_name loan)))
        as [Hb|Hb]].
  - destruct (loanStep_quiet priority st loan (or_introl Hp))
      as (-> & -> & -> & _ & Hiff).
    repeat split; try lra; try reflexivity.
    + intros name Hn. apply Hiff. auto.
    + intros name Hn. apply Hiff in Hn. exact Hn.
  - rewrite (loanStep_processed priority st loan Hp Hb).
    cbn [Simulation.balances Simulation.totalInterest Simulation.availableExtra
         Simulation.paidOffLoans].
    split; [|split; [|split; [|split]]].
    + intros name Hn. destruct (leb _ paidEpsilon); [|exact Hn].
      apply elem_of_union_r. exact Hn.
    + intros name Hn. destruct (leb _ paidEpsilon); [|auto].
      apply elem_of_union in Hn. rewrite elem_of_singleton in Hn. exact Hn.
    + intros name Hne. apply getOrZero_insert_ne. exact Hne.
    + apply monthlyRate_nonneg in Hr. unfold paidEpsilon in Hb.
      pose proof (Qmult_le_0_compat
                    (Simulation.getOrZero (Simulation.balances st) (loan_name loan))
                    _ ltac:(lra) Hr).
      lra.
    + destruct (_ && _ && _) eqn:E; [|lra].
      qtests. unfold paidEpsilon in *.
      match goal with
      | |- _ - Math_min ?a ?b <= _ =>
          destruct (Math_min_cases a b) as [[? ->]|[? ->]]; lra
      end.
  - destruct (loanStep_quiet priority st loan (or_intror Hb))
      as (-> & -> & -> & _ & Hiff).
    repeat split; try lra; try reflexivity.
    + intros name Hn. apply Hiff. auto.
    + intros name Hn. apply Hiff in Hn. exact Hn.
Qed.

(** The extra payment in two runs: the second has the balance of the
    loan at or below the first, and at least as much to pay extra when
    the loan is its priority. *)
Lemma extra_payment_related (pri1 pri2 : bool) (e1 e2 nb1 nb2 : Q) :
  (pri1 = true -> pri2 = true) -> (pri2 = true -> e1 <= e2) ->
  nb2 <= nb1 ->
  let applies1 := pri1 && ltb 0 e1 && ltb paidEpsilon nb1 in
  let applies2 := pri2 && ltb 0 e2 && ltb paidEpsilon nb2 in
  let left1 := if applies1 then nb1 - Math_min e1 nb1 else nb1 in
  let left2 := if applies2 then nb2 - Math_min e2 nb2 else nb2 in
  (left1 <= paidEpsilon -> left2 <= paidEpsilon)
  /\ (paidEpsilon < left2 -> left2 <= left1).
Proof.
  intros Hpri Hextra Hnb. cbv zeta. unfold paidEpsilon.
  destruct pri1; [specialize (Hpri eq_refl); subst pri2|];
    [specialize (Hextra eq_refl)|destruct pri2; [specialize (Hextra eq_refl)|]];
    cbn [andb];
    destruct (ltb 0 e1) eqn:E1; destruct (ltb 0 e2) eqn:E2;
    destruct (ltb (1 # 100) nb1) eqn:E3; destruct (ltb (1 # 100) nb2) eqn:E4;
    cbn [andb]; qtests;
    try (destruct (Math_min_cases e1 nb1) as [[? ->]|[? ->]]);
    try (destruct (Math_min_cases e2 nb2) as [[? ->]|[? ->]]);
    split; intros; lra.
Qed.

Section TwoRuns.

Variables (priority1 priority2 : option string).

(** Two runs within a month, before the loans of [rest] have had their
    turn: the second run has paid off what the first has, owes no more
    on any loan that it has not paid off, has accrued no more interest,
    and has no less to pay extra while its priority loan is to come. *)
Let related (rest : list Loan) (st1 st2 : Simulation.State) : Prop :=
  (forall name, name ∈ Simulation.paidOffLoans st1 ->
                name ∈ Simulation.paidOffLoans st2)
  /\ (forall name, name ∉ Simulation.paidOffLoans st2 ->
        Simulation.getOrZero (Simulation.balances st2) name
        <= Simulation.getOrZero (Simulation.balances st1) name)
  /\ Simulation.totalInterest st2 <= Simulation.totalInterest st1
  /\ (forall p, priority2 = Some p -> In p (map loan_name rest) ->
        Simulation.availableExtra st1 <= Simulation.availableExtra st2)
  /\ (forall name, priority1 = Some name ->
        priority2 = Some name \/ name ∈ Simulation.paidOffLoans st2)
  /\ ""%string ∉ Simulation.paidOffLoans st2.

Lemma loanStep_related (loan : Loan) (rest : list Loan) st1 st2 :
  validLoan loan -> ~ In (loan_name loan) (map loan_name rest) ->
  related (loan :: rest) st1 st2 ->
  related rest (Simulation.loanStep priority1 st1 loan)
    (Simulation.loanStep priority2 st2 loan).
Proof using Type.
  intros (Hname & _ & Hr & _) Hfresh (H2 & H3 & H4 & H5 & H6 & H7).
  pose proof (loanStep_general priority1 st1 loan Hr)
    as (G1a & G1b & G1c & G1d & G1e).
  pose proof (loanStep_general priority2 st2 loan Hr)
    as (G2a & G2b & G2c & G2d & G2e).
  assert (Hquiet :
    (loan_name loan ∈ Simulation.paidOffLoans st2
     \/ Simulation.getOrZero (Simulation.balances st2) (loan_name loan)
        <= paidEpsilon)
    \/ ((loan_name loan ∉ Simulation.paidOffLoans st2)
        /\ paidEpsilon
           < Simulation.getOrZero (Simulation.balances st2) (loan_name loan))).
  { destruct (decide (loan_name loan ∈ Simulation.paidOffLoans st2)); [auto|].
    destruct (Qlt_le_dec paidEpsilon
                (Simulation.getOrZero (Simulation.balances st2) (loan_name loan)));
      auto. }
  destruct Hquiet as [Hq | [Hp2 Hb2]].
  - destruct (loanStep_quiet priority2 st2 loan Hq) as (Eb & Et & Ee & Hin & Hiff).
    unfold related. rewrite Eb, Et, Ee.
    split; [|split; [|split; [|split; [|split]]]].
    + intros name Hn. apply G1b in Hn. destruct Hn as [-> | Hn]; [exact Hin|].
      apply G2a, H2, Hn.
    + intros name Hn.
      assert (Hne : name <> loan_name loan) by (intros ->; contradiction).
      rewrite (G1c name Hne). apply H3. intros Hold. apply Hn, G2a, Hold.
    + lra.
    + intros p Hp Hin'. specialize (H5 p Hp (in_cons _ _ _ Hin')). lra.
    + intros name Hn. destruct (H6 name Hn) as [?|Hold]; [auto|].
      right. apply G2a, Hold.
    + intros Hbad. apply Hiff in Hbad. destruct Hbad as [Hbad|Hbad];
        [congruence|contradiction].
  - assert (Hp1 : loan_name loan ∉ Simulation.paidOffLoans st1)
      by (intros Hbad; apply Hp2, H2, Hbad).
    pose proof (H3 _ Hp2) as Hb.
    assert (Hb1 : paidEpsilon
                  < Simulation.getOrZero (Simulation.balances st1) (loan_name loan))
      by lra.
    pose proof (loanStep_processed priority1 st1 loan Hp1 Hb1) as E1.
    pose proof (loanStep_processed priority2 st2 loan Hp2 Hb2) as E2.
    cbv zeta in E1, E2.
    set (b1 := Simulation.getOrZero (Simulation.balances st1) (loan_name loan)) in *.
    set (b2 := Simulation.getOrZero (Simulation.balances st2) (loan_name loan)) in *.
    set (r := annual_interest_rate loan / 12 / 100) in *.
    set (nb1 := b1 - Math_min (monthly_emi loan - b1 * r) b1) in *.
    set (nb2 := b2 - Math_min (monthly_emi loan - b2 * r) b2) in *.
    assert (Hrate : 0 <= r) by (apply monthlyRate_nonneg; exact Hr).
    pose proof (Qmult_le_compat_r _ _ _ Hb Hrate) as Hint.
    assert (Hnb : nb2 <= nb1).
    { unfold nb1, nb2.
      destruct (Math_min_cases (monthly_emi loan - b1 * r) b1) as [[? ->]|[? ->]];
        destruct (Math_min_cases (monthly_emi loan - b2 * r) b2) as [[? ->]|[? ->]];
        lra. }
    assert (Hpri : Simulation.isPriority (loan_name loan) priority1 = true ->
                   Simulation.isPriority (loan_name loan) priority2 = true).
    { rewrite !isPriority_true. intros Hp.
      destruct (H6 _ Hp) as [?|?]; [assumption|contradiction]. }
    assert (Hextra : Simulation.isPriority (loan_name loan) priority2 = true ->
                     Simulation.availableExtra st1 <= Simulation.availableExtra st2).
    { rewrite isPriority_true. intros Hp.
      apply (H5 _ Hp). left. reflexivity. }
    pose proof (extra_payment_related _ _ _ _ nb1 nb2 Hpri Hextra Hnb) as [K1 K2].
    cbv zeta in K1, K2.
    set (left1 := if Simulation.isPriority (loan_name loan) priority1
                     && ltb 0 (Simulation.availableExtra st1) && ltb paidEpsilon nb1
                  then nb1 - Math_min (Simulation.availableExtra st1) nb1
                  else nb1) in *.
    set (left2 := if Simulation.isPriority (loan_name loan) priority2
                     && ltb 0 (Simulation.availableExtra st2) && ltb paidEpsilon nb2
                  then nb2 - Math_min (Simulation.availableExtra st2) nb2
                  else nb2) in *.
    split; [|split; [|split; [|split; [|split]]]].
    + intros name Hn. destruct (G1b name Hn) as [-> | Hold];
        [|apply G2a, H2, Hold].
      rewrite E1 in Hn. rewrite E2. cbn [Simulation.paidOffLoans] in *.
      destruct (leb left1 paidEpsilon) eqn:El1; [|contradiction].
      apply leb_true in El1. rewrite (proj2 (leb_true _ _) (K1 El1)).
      apply elem_of_union_l, elem_of_singleton. reflexivity.
    + intros name Hn.
      destruct (decide (name = loan_name loan)) as [-> | Hne].
      * rewrite E2 in Hn. rewrite E1, E2.
        cbn [Simulation.paidOffLoans Simulation.balances] in *.
        destruct (leb left2 paidEpsilon) eqn:El2.
        { exfalso. apply Hn, elem_of_union_l, elem_of_singleton. reflexivity. }
        apply leb_false in El2. specialize (K2 El2).
        rewrite !getOrZero_insert_eq.
        destruct (Math_max_cases 0 left1) as [[? ->]|[? ->]];
          destruct (Math_max_cases 0 left2) as [[? ->]|[? ->]]; lra.
      * rewrite (G1c name Hne), (G2c name Hne). apply H3.
        intros Hold. apply Hn, G2a, Hold.
    + rewrite E1, E2. cbn [Simulation.totalInterest]. lra.
    + intros p Hp Hin'.
      assert (Hne : p <> loan_name loan) by (intros ->; contradiction).
      assert (Hpri2 : Simulation.isPriority (loan_name loan) priority2 = false).
      { apply not_true_iff_false. rewrite isPriority_true. congruence. }
      assert (Hpri1 : Simulation.isPriority (loan_name loan) priority1 = false).
      { apply not_true_iff_false. intros Hbad. apply Hpri in Hbad. congruence. }
      rewrite E1, E2. cbn [Simulation.availableExtra].
      rewrite Hpri1, Hpri2. cbn [andb].
      apply (H5 p Hp). right. exact Hin'.
    + intros name Hn. destruct (H6 name Hn) as [?|Hold]; [auto|].
      right. apply G2a, Hold.
    + intros Hbad. apply G2b in Hbad. destruct Hbad as [Hbad|Hbad];
        [congruence|contradiction].
Qed.

Lemma loanSteps_related (l : list Loan) st1 st2 :
  Forall validLoan l -> NoDup (map loan_name l) ->
  related l st1 st2 ->
  related [] (fold_left (Simulation.loanStep priority1) l st1)
    (fold_left (Simulation.loanStep priority2) l st2).
Proof using Type.
  intros Hv. revert st1 st2.
  induction Hv as [|loan l Hloan _ IH]; intros st1 st2 Hnd Hrel; [exact Hrel|].
  cbn [map] in Hnd. apply NoDup_cons in Hnd. destruct Hnd as [Hfresh Hnd].
  cbn [fold_left]. apply IH; [exact Hnd|].
  apply loanStep_related; [exact Hloan| |exact Hrel].
  intros Hin. apply Hfresh, list_elem_of_In. exact Hin.
Qed.

End TwoRuns.

(** The run that has paid off more loans, on no less surplus, has no
    less to pay extra at the start of a month. *)
Lemma freedUp_related (l : list Loan) (a b : Q) st1 st2 :
  Forall validLoan l -> a <= b ->
  (forall name, name ∈ Simulation.paidOffLoans st1 ->
                name ∈ Simulation.paidOffLoans st2) ->
  Simulation.freedUp l a st1 <= Simulation.freedUp l b st2.
Proof.
  intros Hv Hab Hsub. unfold Simulation.freedUp. revert a b Hab.
  induction Hv as [|loan l Hloan _ IH]; intros a b Hab; [exact Hab|].
  cbn [fold_left]. apply IH.
  destruct Hloan as (_ & _ & _ & Hemi).
  destruct (bool_decide (loan_name loan ∈ Simulation.paidOffLoans st1)) eqn:E1;
    destruct (bool_decide (loan_name loan ∈ Simulation.paidOffLoans st2)) eqn:E2;
    cbv iota; try lra.
  apply bool_decide_eq_true in E1. apply bool_decide_eq_false in E2.
  exfalso. apply E2, Hsub, E1.
Qed.

Section MoreSurplus.

Variables (loans : list Loan) (repaymentOrder : list string).
Variables (surplus1 surplus2 : Q).
Hypothesis loans_valid : Forall validLoan loans.
Hypothesis names_distinct : NoDup (map loan_name loans).
Hypothesis surplus_le : surplus1 <= surplus2.

(** Two runs at the start of a month. *)
Let monthRelated (st1 st2 : Simulation.State) : Prop :=
  Simulation.months st1 = Simulation.months st2
  /\ (forall name, name ∈ Simulation.paidOffLoans st1 ->
                   name ∈ Simulation.paidOffLoans st2)
  /\ (forall name, name ∉ Simulation.paidOffLoans st2 ->
        Simulation.getOrZero (Simulation.balances st2) name
        <= Simulation.getOrZero (Simulation.balances st1) name)
  /\ Simulation.totalInterest st2 <= Simulation.totalInterest st1
  /\ ""%string ∉ Simulation.paidOffLoans st2.

Lemma findPriority_related st1 st2 :
  (forall name, name ∈ Simulation.paidOffLoans st1 ->
                name ∈ Simulation.paidOffLoans st2) ->
  forall name,
    Simulation.findPriority repaymentOrder st1 = Some name ->
    Simulation.findPriority repaymentOrder st2 = Some name
    \/ name ∈ Simulation.paidOffLoans st2.
Proof using Type.
  intros Hsub name. unfold Simulation.findPriority.
  induction repaymentOrder as [|x order IH]; cbn [find]; [discriminate|].
  destruct (bool_decide (x ∈ Simulation.paidOffLoans st1)) eqn:E1;
    destruct (bool_decide (x ∈ Simulation.paidOffLoans st2)) eqn:E2;
    cbn [negb].
  - exact IH.
  - apply bool_decide_eq_true in E1. apply bool_decide_eq_false in E2.
    exfalso. apply E2, Hsub, E1.
  - intros [= ->]. right. apply bool_decide_eq_true in E2. exact E2.
  - intros [= ->]. left. reflexivity.
Qed.

Lemma findPriority_none st1 st2 :
  (forall name, name ∈ Simulation.paidOffLoans st1 ->
                name ∈ Simulation.paidOffLoans st2) ->
  Simulation.findPriority repaymentOrder st1 = None ->
  Simulation.findPriority repaymentOrder st2 = None.
Proof using Type.
  intros Hsub. unfold Simulation.findPriority.
  induction repaymentOrder as [|x order IH]; cbn [find]; [reflexivity|].
  destruct (bool_decide (x ∈ Simulation.paidOffLoans st1)) eqn:E1;
    cbn [negb]; [|discriminate].
  apply bool_decide_eq_true in E1.
  rewrite (bool_decide_eq_true_2 _ (Hsub x E1)). cbn [negb]. exact IH.
Qed.

Lemma Simulation_body_related st1 st2 :
  monthRelated st1 st2 ->
  monthRelated (Simulation.body loans repaymentOrder surplus1 st1)
    (Simulation.body loans repaymentOrder surplus2 st2).
Proof using loans_valid names_distinct surplus_le.
  intros (Hm & H2 & H3 & H4 & H7).
  unfold monthRelated, Simulation.body.
  cbn [Simulation.months Simulation.paidOffLoans Simulation.balances
       Simulation.totalInterest].
  rewrite !loanSteps_months. cbn [Simulation.months].
  match goal with
  | |- context [fold_left (Simulation.loanStep ?p1) loans ?a1] =>
      match goal with
      | |- context [fold_left (Simulation.loanStep ?p2) loans ?a2] =>
          lazymatch a1 with
          | a2 => fail
          | _ =>
              lazymatch p1 with
              | Simulation.findPriority repaymentOrder st1 =>
                  pose proof (loanSteps_related p1 p2 loans a1 a2 loans_valid
                                names_distinct) as Hfold
              end
          end
      end
  end.
  destruct Hfold as (F2 & F3 & F4 & _ & _ & F7).
  { cbn [Simulation.paidOffLoans Simulation.balances Simulation.totalInterest
         Simulation.availableExtra].
    split; [exact H2|]. split; [exact H3|]. split; [exact H4|].
    split; [intros _ _ _; apply freedUp_related; assumption|].
    split; [apply findPriority_related; exact H2|exact H7]. }
  split; [congruence|]. split; [exact F2|]. split; [exact F3|].
  split; [exact F4|exact F7].
Qed.

Lemma Simulation_loop_months_grow (surplus : Q) fuel st st' :
  Simulation.loop loans repaymentOrder surplus fuel st = Normal st' ->
  (Simulation.months st <= Simulation.months st')%Z.
Proof using Type.
  intros Hrun.
  apply (while_invariant _ _ _
           (fun s => (Simulation.months st <= Simulation.months s)%Z))
    in Hrun; [tauto| |lia].
  intros s Hs _ _. rewrite Simulation_body_months. lia.
Qed.

(** The second run stops no later than the first, with no more
    interest. *)
Lemma Simulation_loop_related fuel :
  forall st1 st2 st1' st2',
    monthRelated st1 st2 ->
    Simulation.loop loans repaymentOrder surplus1 fuel st1 = Normal st1' ->
    Simulation.loop loans repaymentOrder surplus2 fuel st2 = Normal st2' ->
    Simulation.totalInterest st2' <= Simulation.totalInterest st1'
    /\ (Simulation.months st2' <= Simulation.months st1')%Z.
Proof using loans_valid names_distinct surplus_le.
  assert (Hstop : forall fuel' st1 st2 st1',
            monthRelated st1 st2 ->
            Simulation.loop loans repaymentOrder surplus1 fuel' st1 = Normal st1' ->
            Simulation.totalInterest st2 <= Simulation.totalInterest st1'
            /\ (Simulation.months st2 <= Simulation.months st1')%Z).
  { intros fuel' st1 st2 st1' (Hm & _ & _ & H4 & _) H1.
    pose proof (Simulation_loop_total_le loans repaymentOrder surplus1
                  (validLoans_rates_nonneg loans loans_valid) _ _ _ H1).
    pose proof (Simulation_loop_months_grow _ _ _ _ H1).
    split; [lra|lia]. }
  assert (Hgo : forall st1 st2,
            monthRelated st1 st2 ->
            Simulation.cond loans st2 = true ->
            Simulation.allPaid repaymentOrder st2 = false ->
            Simulation.cond loans st1 = true
            /\ Simulation.allPaid repaymentOrder st1 = false).
  { intros st1 st2 (Hm & H2 & _ & _ & H7) Hc Hl. split.
    - unfold Simulation.cond in *. qtests.
      match goal with H : (_ <? _)%nat = true |- _ => apply Nat.ltb_lt in H end.
      apply andb_true_iff. split; [apply Nat.ltb_lt|apply Z.ltb_lt; lia].
      assert (Hsize : (size (Simulation.paidOffLoans st1)
                       <= size (Simulation.paidOffLoans st2))%nat)
        by (apply subseteq_size; intros x; apply H2).
      lia.
    - unfold Simulation.allPaid, Simulation.noPriority in *.
      destruct (Simulation.findPriority repaymentOrder st1) as [p|] eqn:Ef.
      + apply String.eqb_neq. intros ->.
        destruct (findPriority_related st1 st2 H2 _ Ef) as [Ef2|Hbad];
          [|contradiction].
        rewrite Ef2 in Hl. discriminate Hl.
      + rewrite (findPriority_none st1 st2 H2 Ef) in Hl. discriminate Hl. }
  induction fuel as [|fuel IH]; intros st1 st2 st1' st2' Hrel H1 H2.
  - unfold Simulation.loop in H2. cbn [while] in H2.
    destruct (Simulation.cond loans st2) eqn:Hc2;
      [destruct (Simulation.allPaid repaymentOrder st2) eqn:Hl2;
       [|discriminate]|];
      injection H2 as <-; apply (Hstop _ _ _ _ Hrel H1).
  - pose proof H1 as H1'. unfold Simulation.loop in H1, H2.
    rewrite while_unfold in H1, H2.
    destruct (Simulation.cond loans st2) eqn:Hc2;
      [destruct (Simulation.allPaid repaymentOrder st2) eqn:Hl2|].
    + injection H2 as <-. apply (Hstop _ _ _ _ Hrel H1').
    + destruct (Hgo _ _ Hrel Hc2 Hl2) as [Hc1 Hl1].
      rewrite Hc1, Hl1 in H1.
      apply (IH _ _ _ _ (Simulation_body_related _ _ Hrel) H1 H2).
    + injection H2 as <-. apply (Hstop _ _ _ _ Hrel H1').
Qed.

End MoreSurplus.

(** X18: for valid loans with distinct names, under any one repayment
    order, a larger monthly surplus never makes the interest that
    [calculateStrategyInterest] returns larger, and the simulation ends
    no later. *)
Theorem X18_more_surplus_no_more_interest (loans : list Loan)
    (repaymentOrder : list string) (surplus1 surplus2 : Q) :
  Forall validLoan loans -> NoDup (map loan_name loans) ->
  surplus1 <= surplus2 ->
  exists st1 st2,
    Simulation.loop loans repaymentOrder surplus1 (Z.to_nat maxMonths)
      (Simulation.init loans surplus1) = Normal st1
    /\ Simulation.loop loans repaymentOrder surplus2 (Z.to_nat maxMonths)
         (Simulation.init loans surplus2) = Normal st2
    /\ calculateStrategyInterest (Z.to_nat maxMonths) loans repaymentOrder surplus1
       = Normal (round2 (Simulation.totalInterest st1))
    /\ calculateStrategyInterest (Z.to_nat maxMonths) loans repaymentOrder surplus2
       = Normal (round2 (Simulation.totalInterest st2))
    /\ round2 (Simulation.totalInterest st2) <= round2 (Simulation.totalInterest st1)
    /\ (Simulation.months st2 <= Simulation.months st1)%Z.
Proof.
  intros Hv Hnd Hle.
  destruct (calculateStrategyInterest_returns loans repaymentOrder surplus1)
    as (st1 & Hrun1 & _ & Heq1).
  destruct (calculateStrategyInterest_returns loans repaymentOrder surplus2)
    as (st2 & Hrun2 & _ & Heq2).
  exists st1, st2.
  split; [exact Hrun1|]. split; [exact Hrun2|].
  split; [exact Heq1|]. split; [exact Heq2|].
  edestruct (Simulation_loop_related loans repaymentOrder surplus1 surplus2
               Hv Hnd Hle (Z.to_nat maxMonths)) as [Ht Hm];
    [|exact Hrun1|exact Hrun2|].
  - cbn [Simulation.init Simulation.months Simulation.paidOffLoans
         Simulation.balances Simulation.totalInterest].
    split; [reflexivity|]. split; [auto|]. split; [intros; apply Qle_refl|].
    split; [apply Qle_refl|]. intros Hbad. apply elem_of_empty in Hbad.
    exact Hbad.
  - split; [apply round2_mono; exact Ht|exact Hm].
Qed.

Lemma X18_witness :
  exists st1 st2,
    Simulation.loop (loans sampleLoans) ["A"; "B"]%string 0 (Z.to_nat maxMonths)
      (Simulation.init (loans sampleLoans) 0) = Normal st1
    /\ Simulation.loop (loans sampleLoans) ["A"; "B"]%string 5 (Z.to_nat maxMonths)
         (Simulation.init (loans sampleLoans) 5) = Normal st2
    /\ calculateStrategyInterest (Z.to_nat maxMonths) (loans sampleLoans)
         ["A"; "B"]%string 0
       = Normal (round2 (Simulation.totalInterest st1))
    /\ calculateStrategyInterest (Z.to_nat maxMonths) (loans sampleLoans)
         ["A"; "B"]%string 5
       = Normal (round2 (Simulation.totalInterest st2))
    /\ round2 (Simulation.totalInterest st2) <= round2 (Simulation.totalInterest st1)
    /\ (Simulation.months st2 <= Simulation.months st1)%Z.
Proof.
  apply X18_more_surplus_no_more_interest.
  - repeat constructor; cbn; first [discriminate | reflexivity].
  - apply (bool_decide_unpack _). vm_compute. exact I.
  - discriminate.
Defined.

(** * The engine in binary64 arithmetic *)

Local Set Warnings "-inexact-float".

(** ** Signs, zeros and NaN *)

Section FloatFacts.

Import Binary64.
Local Open Scope float_scope.

Lemma is_nan_spec (x : float) :
  is_nan x = true <-> Prim2SF x = S754_nan.
Proof.
  unfold is_nan. rewrite FloatAxioms.eqb_spec. unfold SFeqb.
  destruct (Prim2SF x) as [s|s| |s m e]; cbn;
    try rewrite Z.compare_refl, Pos.compare_cont_refl; try destruct s; cbn;
    split; first [discriminate | reflexivity].
Qed.

Lemma notNegative_spec (x : float) :
  notNegative x <-> notNegativeSF (Prim2SF x).
Proof.
  unfold notNegative. rewrite is_nan_spec, FloatAxioms.leb_spec.
  change (Prim2SF 0) with (S754_zero false). unfold SFleb.
  destruct (Prim2SF x) as [s|s| |s m e]; cbn; try destruct s; cbn;
    intuition (try discriminate; auto).
Qed.

Lemma ltb_0_spec (x : float) :
  (0 <? x) = true ->
  Prim2SF x = S754_infinity false
  \/ exists m e, Prim2SF x = S754_finite false m e.
Proof.
  rewrite FloatAxioms.ltb_spec. change (Prim2SF 0) with (S754_zero false). unfold SFltb.
  destruct (Prim2SF x) as [s|s| |s m e]; cbn; try destruct s; cbn;
    try discriminate; eauto.
Qed.

Lemma ltb_0_notNegative (x : float) : (0 <? x) = true -> notNegative x.
Proof.
  intros H. apply notNegative_spec.
  destruct (ltb_0_spec x H) as [-> | (m & e & ->)]; reflexivity.
Qed.

(** What passes the validation of the source. *)
Lemma ltb_0_leb_false (x : float) : (0 <? x) = true -> (x <=? 0) = false.
Proof.
  intros H. rewrite FloatAxioms.leb_spec. change (Prim2SF 0) with (S754_zero false).
  destruct (ltb_0_spec x H) as [-> | (m & e & ->)]; reflexivity.
Qed.

Lemma leb_0_ltb_false (x : float) : (0 <=? x) = true -> (x <? 0) = false.
Proof.
  rewrite FloatAxioms.leb_spec, FloatAxioms.ltb_spec. change (Prim2SF 0) with (S754_zero false).
  unfold SFleb, SFltb.
  destruct (Prim2SF x) as [s|s| |s m e]; cbn; try destruct s; cbn;
    try discriminate; reflexivity.
Qed.

Lemma eqb_0_spec (x : float) :
  (x =? 0) = true -> x = 0 \/ x = neg_zero.
Proof.
  rewrite FloatAxioms.eqb_spec. change (Prim2SF 0) with (S754_zero false). unfold SFeqb.
  intros H. rewrite <- (SF2Prim_Prim2SF x).
  destruct (Prim2SF x) as [s|s| |s m e]; cbn in H; try destruct s;
    try discriminate; auto.
Qed.

(** Whatever is multiplied by a zero is a zero or NaN. *)
Lemma mul_zero_r (x r : float) :
  r = 0 \/ r = neg_zero -> zeroOrNaN (x * r).
Proof.
  intros Hr. unfold zeroOrNaN. rewrite <- (SF2Prim_Prim2SF (x * r)), mul_spec.
  destruct Hr as [-> | ->].
  - change (Prim2SF 0) with (S754_zero false).
    destruct (Prim2SF x) as [s|s| |s m e]; cbn; try destruct s; auto.
  - change (Prim2SF neg_zero) with (S754_zero true).
    destruct (Prim2SF x) as [s|s| |s m e]; cbn; try destruct s; auto.
Qed.

(** A sum that starts at 0, of terms that are zeros or NaN, is 0 or NaN. *)
Lemma add_zeroOrNaN (total term : float) :
  total = 0 \/ total = nan -> zeroOrNaN term ->
  total + term = 0 \/ total + term = nan.
Proof.
  intros [-> | ->] [-> | [-> | ->]]; auto.
Qed.

(** The rounding of a binary64 operation keeps the sign that it is
    given. *)
Lemma binary_round_aux_notNegative (m e : Z) (l : location) :
  notNegativeSF (binary_round_aux prec emax false m e l).
Proof.
  unfold binary_round_aux.
  destruct (shr_fexp prec emax m e l) as [mrs' e'].
  destruct (shr_fexp prec emax _ e' loc_Exact) as [mrs'' e''].
  destruct (shr_m mrs''); cbn; [exact I| |exact I].
  destruct (_ <=? _)%Z; reflexivity.
Qed.

Lemma binary_normalize_notNegative (z : Z) :
  (0 <= z)%Z -> notNegativeSF (binary_normalize prec emax z 0 false).
Proof.
  intros Hz. destruct z as [|p|p]; cbn; [exact I| |lia].
  unfold binary_round.
  destruct (shl_align p 0 _) as [mz ez].
  apply binary_round_aux_notNegative.
Qed.

Lemma Number_of_Z_notNegative (z : Z) : (0 <= z)%Z -> notNegative (Number_of_Z z).
Proof.
  intros Hz. apply notNegative_spec. unfold Number_of_Z.
  rewrite (proj2 (Z.leb_le 0 z) Hz), of_uint63_spec.
  apply binary_normalize_notNegative. apply Uint63.to_Z_bounded.
Qed.

Lemma Math_round_notNegative (x : float) :
  notNegative x -> notNegative (Math_round x).
Proof.
  intros H. pose proof H as Hsf. apply notNegative_spec in Hsf.
  unfold Math_round.
  destruct (Prim2SF x) as [s|s| |s m e] eqn:E; try exact H.
  cbn in Hsf. subst s.
  destruct (0 <=? e)%Z eqn:Ee; [exact H|]. cbn [cond_Zopp andb].
  rewrite andb_false_r. apply Number_of_Z_notNegative.
  apply Z.div_pos; [|apply Z.pow_pos_nonneg; lia].
  assert (0 <= 2 ^ (- e))%Z by (apply Z.pow_nonneg; lia). lia.
Qed.

Lemma Math_max_0_notNegative (x : float) : notNegative (Math_max 0 x).
Proof.
  unfold Math_max.
  destruct (is_nan 0 || is_nan x) eqn:En; [left; reflexivity|].
  destruct (0 <? x) eqn:E1; [apply ltb_0_notNegative; exact E1|].
  destruct (x <? 0); right; reflexivity.
Qed.

End FloatFacts.

(** ** The order of binary64 numbers and their differences *)

Section FloatOrder.

Import Binary64.
Local Open Scope float_scope.

Lemma digits2_pos_bounds (m : positive) :
  (2 ^ (Z.pos (digits2_pos m) - 1) <= Z.pos m < 2 ^ Z.pos (digits2_pos m))%Z.
Proof.
  induction m as [m IH|m IH|]; cbn [digits2_pos].
  - rewrite Pos2Z.inj_succ, Z.pow_succ_r by lia.
    replace (Z.succ (Z.pos (digits2_pos m)) - 1)%Z
      with (Z.succ (Z.pos (digits2_pos m) - 1)) by lia.
    rewrite Z.pow_succ_r by lia. lia.
  - rewrite Pos2Z.inj_succ, Z.pow_succ_r by lia.
    replace (Z.succ (Z.pos (digits2_pos m)) - 1)%Z
      with (Z.succ (Z.pos (digits2_pos m) - 1)) by lia.
    rewrite Z.pow_succ_r by lia. lia.
  - cbn. lia.
Qed.

(** The mantissa of a binary64 number has at most 53 digits, and 53 of
    them above the least exponent. *)
Lemma valid_finite_bounds (s : bool) (m : positive) (e : Z) :
  valid_binary (S754_finite s m e) = true ->
  (Z.pos m < 2 ^ 53 /\ -1074 <= e /\ (-1074 < e -> 2 ^ 52 <= Z.pos m))%Z.
Proof.
  cbn [SpecFloat.valid_binary]. unfold bounded, canonical_mantissa, fexp.
  intros H. apply andb_true_iff in H. destruct H as [H _].
  apply Z.eqb_eq in H.
  change (SpecFloat.emin prec emax) with (-1074)%Z in H.
  change prec with 53%Z in H.
  pose proof (digits2_pos_bounds m) as [Hlo Hhi].
  assert (Hd : (Z.pos (digits2_pos m) <= 53)%Z) by lia.
  split; [|split].
  - eapply Z.lt_le_trans; [exact Hhi|]. apply Z.pow_le_mono_r; lia.
  - lia.
  - intros He. assert (Z.pos (digits2_pos m) = 53%Z) as Hd' by lia.
    rewrite Hd' in Hlo. exact Hlo.
Qed.

Lemma shl_align_value (m : positive) (e ez : Z) :
  (ez <= e)%Z ->
  Z.pos (fst (shl_align m e ez)) = (Z.pos m * 2 ^ (e - ez))%Z.
Proof.
  intros Hle. unfold shl_align.
  destruct (ez - e)%Z as [|d|d] eqn:E; cbn [fst].
  - replace (e - ez)%Z with 0%Z by lia. cbn. lia.
  - lia.
  - change (Pos.iter xO m d) with (shift_pos d m).
    rewrite shift_pos_correct, Z.pow_pos_fold.
    replace (e - ez)%Z with (Z.pos d) by lia. lia.
Qed.

Lemma binary_round_aux_signed (m e : Z) (l : location) :
  signedSF (binary_round_aux prec emax true m e l).
Proof.
  unfold binary_round_aux.
  destruct (shr_fexp prec emax m e l) as [mrs' e'].
  destruct (shr_fexp prec emax _ e' loc_Exact) as [mrs'' e''].
  destruct (shr_m mrs''); cbn; [reflexivity| |exact I].
  destruct (_ <=? _)%Z; reflexivity.
Qed.

Lemma binary_normalize_signed (z e : Z) :
  (z < 0)%Z -> signedSF (binary_normalize prec emax z e false).
Proof.
  intros Hz. destruct z as [|p|p]; try lia. cbn [binary_normalize].
  unfold binary_round.
  destruct (shl_align p e _) as [mz ez].
  apply binary_round_aux_signed.
Qed.

(** The difference of a smaller and a larger number has its sign bit
    set. *)
Lemma SFsub_lt_signed (X Y : spec_float) :
  valid_binary X = true -> valid_binary Y = true ->
  SFltb X Y = true -> signedSF (SFsub prec emax X Y).
Proof.
  intros VX VY. unfold SFltb.
  destruct X as [sx|sx| |sx mx ex], Y as [sy|sy| |sy my ey]; cbn [SFcompare];
    try discriminate;
    try (destruct sx; try destruct sy; cbn; intros; first [discriminate | reflexivity | exact I]).
  intros Hlt. cbn [SFsub]. apply binary_normalize_signed.
  destruct (valid_finite_bounds _ _ _ VX) as (Hmx & Hex & Hfx).
  destruct (valid_finite_bounds _ _ _ VY) as (Hmy & Hey & Hfy).
  assert (Hshift : forall a b d : Z,
             (0 < a < 2 ^ 53 -> 2 ^ 52 <= b -> 0 < d -> a < b * 2 ^ d)%Z).
  { intros a b d Ha Hb Hd.
    assert (2 ^ 1 <= 2 ^ d)%Z by (apply Z.pow_le_mono_r; lia).
    change (2 ^ 1)%Z with 2%Z in *. change (2 ^ 53)%Z with (2 ^ 52 * 2)%Z in Ha.
    generalize dependent (2 ^ d)%Z. generalize dependent (2 ^ 52)%Z.
    intros; nia. }
  destruct (ex ?= ey)%Z eqn:Ec.
  - apply Z.compare_eq in Ec. subst ey.
    rewrite Z.min_id. unfold shl_align. rewrite Z.sub_diag. cbn [fst].
    destruct sx, sy; cbn [cond_Zopp] in *; try discriminate.
    + destruct (Pos.compare_cont Eq mx my) eqn:Em; try discriminate.
      change (Pos.compare_cont Eq mx my) with (mx ?= my)%positive in Em.
      apply (proj1 (Pos.compare_gt_iff _ _)), Pos2Z.pos_lt_pos in Em. clear - Em. lia.
    + clear. lia.
    + destruct (Pos.compare_cont Eq mx my) eqn:Em; try discriminate.
      change (Pos.compare_cont Eq mx my) with (mx ?= my)%positive in Em.
      apply (proj1 (Pos.compare_lt_iff _ _)), Pos2Z.pos_lt_pos in Em. clear - Em. lia.
  - apply (proj1 (Z.compare_lt_iff _ _)) in Ec.
    rewrite Z.min_l by (clear - Ec; lia).
    rewrite (shl_align_value mx ex ex), (shl_align_value my ey ex)
      by (clear - Ec; lia).
    rewrite Z.sub_diag, Z.pow_0_r, Z.mul_1_r.
    assert (Hb : (2 ^ 52 <= Z.pos my)%Z) by (apply Hfy; clear - Ec Hex; lia).
    pose proof (Hshift (Z.pos mx) (Z.pos my) (ey - ex)%Z
                  ltac:(split; [reflexivity|exact Hmx]) Hb
                  ltac:(clear - Ec; lia)) as Hs.
    assert (Hp : (0 < Z.pos my * 2 ^ (ey - ex))%Z)
      by (apply Z.mul_pos_pos; [reflexivity|apply Z.pow_pos_nonneg; clear - Ec; lia]).
    destruct sx, sy; cbn [cond_Zopp] in *; try discriminate;
      generalize dependent (Z.pos my * 2 ^ (ey - ex))%Z; clear; intros; lia.
  - apply (proj1 (Z.compare_gt_iff _ _)) in Ec.
    rewrite Z.min_r by (clear - Ec; lia).
    rewrite (shl_align_value mx ex ey), (shl_align_value my ey ey)
      by (clear - Ec; lia).
    rewrite Z.sub_diag, Z.pow_0_r, Z.mul_1_r.
    assert (Hb : (2 ^ 52 <= Z.pos mx)%Z) by (apply Hfx; clear - Ec Hey; lia).
    pose proof (Hshift (Z.pos my) (Z.pos mx) (ex - ey)%Z
                  ltac:(split; [reflexivity|exact Hmy]) Hb
                  ltac:(clear - Ec; lia)) as Hs.
    assert (Hp : (0 < Z.pos mx * 2 ^ (ex - ey))%Z)
      by (apply Z.mul_pos_pos; [reflexivity|apply Z.pow_pos_nonneg; clear - Ec; lia]).
    destruct sx, sy; cbn [cond_Zopp] in *; try discriminate;
      generalize dependent (Z.pos mx * 2 ^ (ex - ey))%Z; clear; intros; lia.
Qed.

Lemma sub_lt_signed (x y : float) :
  (x <? y) = true -> signedSF (Prim2SF (x - y)).
Proof.
  rewrite FloatAxioms.ltb_spec, sub_spec.
  apply SFsub_lt_signed; apply Prim2SF_valid.
Qed.

End FloatOrder.

Section FloatCompare.

Import Binary64.
Local Open Scope float_scope.

Lemma SFcompare_antisym (X Y : spec_float) :
  SFcompare Y X
  = match SFcompare X Y with Some c => Some (CompOpp c) | None => None end.
Proof.
  destruct X as [sx|sx| |sx mx ex], Y as [sy|sy| |sy my ey]; cbn [SFcompare];
    try reflexivity;
    try (destruct sx; try destruct sy; reflexivity).
  rewrite (Z.compare_antisym ex ey), (ZC4 my mx).
  destruct sx, sy; try reflexivity;
    destruct (ex ?= ey)%Z; cbn [CompOpp]; try reflexivity.
Qed.

Lemma ltb_leb_false (x y : float) : (x <? y) = true -> (y <=? x) = false.
Proof.
  rewrite FloatAxioms.ltb_spec, FloatAxioms.leb_spec. unfold SFltb, SFleb.
  rewrite (SFcompare_antisym (Prim2SF x) (Prim2SF y)).
  destruct (SFcompare (Prim2SF x) (Prim2SF y)) as [[| |]|];
    first [discriminate | reflexivity].
Qed.

Lemma leb_ltb_false (x y : float) : (x <=? y) = true -> (y <? x) = false.
Proof.
  rewrite FloatAxioms.ltb_spec, FloatAxioms.leb_spec. unfold SFltb, SFleb.
  rewrite (SFcompare_antisym (Prim2SF x) (Prim2SF y)).
  destruct (SFcompare (Prim2SF x) (Prim2SF y)) as [[| |]|];
    first [discriminate | reflexivity].
Qed.

Lemma ltb_not_nan (x y : float) :
  (x <? y) = true -> is_nan x = false /\ is_nan y = false.
Proof.
  intros H.
  destruct (is_nan x) eqn:Ex.
  { apply is_nan_spec in Ex. rewrite FloatAxioms.ltb_spec, Ex in H. discriminate. }
  destruct (is_nan y) eqn:Ey; [|auto].
  apply is_nan_spec in Ey. rewrite FloatAxioms.ltb_spec, Ey in H.
  unfold SFltb in H. destruct (Prim2SF x); discriminate.
Qed.

Lemma leb_not_nan (x y : float) :
  (x <=? y) = true -> is_nan x = false /\ is_nan y = false.
Proof.
  intros H.
  destruct (is_nan x) eqn:Ex.
  { apply is_nan_spec in Ex. rewrite FloatAxioms.leb_spec, Ex in H. discriminate. }
  destruct (is_nan y) eqn:Ey; [|auto].
  apply is_nan_spec in Ey. rewrite FloatAxioms.leb_spec, Ey in H.
  unfold SFleb in H. destruct (Prim2SF x); discriminate.
Qed.

Lemma not_nan_spec (x : float) : is_nan x = false <-> Prim2SF x <> S754_nan.
Proof.
  rewrite <- is_nan_spec. destruct (is_nan x); split; intros H;
    first [reflexivity | discriminate | contradiction | (exfalso; auto)].
Qed.

(** Two numbers, neither of them NaN, are comparable. *)
Lemma SFcompare_some (X Y : spec_float) :
  X <> S754_nan -> Y <> S754_nan -> exists c, SFcompare X Y = Some c.
Proof.
  destruct X, Y; cbn [SFcompare]; intros HX HY; try contradiction; eauto.
Qed.

Lemma ltb_false_leb (x y : float) :
  is_nan x = false -> is_nan y = false -> (x <? y) = false -> (y <=? x) = true.
Proof.
  rewrite !not_nan_spec, FloatAxioms.ltb_spec, FloatAxioms.leb_spec.
  unfold SFltb, SFleb. intros Hx Hy.
  rewrite (SFcompare_antisym (Prim2SF x) (Prim2SF y)).
  destruct (SFcompare_some _ _ Hx Hy) as [c ->].
  destruct c; cbn; first [discriminate | reflexivity].
Qed.

Lemma leb_false_ltb (x y : float) :
  is_nan x = false -> is_nan y = false -> (x <=? y) = false -> (y <? x) = true.
Proof.
  rewrite !not_nan_spec, FloatAxioms.ltb_spec, FloatAxioms.leb_spec.
  unfold SFltb, SFleb. intros Hx Hy.
  rewrite (SFcompare_antisym (Prim2SF x) (Prim2SF y)).
  destruct (SFcompare_some _ _ Hx Hy) as [c ->].
  destruct c; cbn; first [discriminate | reflexivity].
Qed.

(** A number above a positive number is positive: it is not NaN and not a
    zero. *)
Lemma above_positive (c x : float) :
  (0 <? c) = true -> (c <? x) = true ->
  (0 <? x) = true /\ is_nan x = false /\ is_zero x = false.
Proof.
  intros Hc Hx. pose proof (ltb_not_nan _ _ Hx) as [_ Hn].
  unfold is_zero. rewrite FloatAxioms.eqb_spec.
  rewrite FloatAxioms.ltb_spec in *. change (Prim2SF 0) with (S754_zero false) in *.
  unfold SFltb, SFeqb in *.
  destruct (Prim2SF c) as [sc|sc| |sc mc ec]; cbn in Hc; try discriminate;
    destruct sc; try discriminate;
    destruct (Prim2SF x) as [sx|sx| |sx mx ex]; cbn in Hx; try discriminate;
    destruct sx; try discriminate; cbn; auto.
Qed.

(** A number with its sign bit set is not above a positive number. *)
Lemma signed_not_above (c d : float) :
  (0 <? c) = true -> signedSF (Prim2SF d) -> (c <? d) = false.
Proof.
  intros Hc Hd.
  rewrite FloatAxioms.ltb_spec in *. change (Prim2SF 0) with (S754_zero false) in *.
  unfold SFltb in *.
  destruct (Prim2SF c) as [sc|sc| |sc mc ec]; cbn in Hc; try discriminate;
    destruct sc; try discriminate;
    destruct (Prim2SF d) as [sd|sd| |sd md ed]; cbn in Hd; subst; reflexivity.
Qed.

(** A number below another is finite or minus infinity; above a positive
    number it is finite. *)
Lemma between_finite (c x y : float) :
  (0 <? c) = true -> (c <? x) = true -> (x <? y) = true ->
  exists m e, Prim2SF x = S754_finite false m e.
Proof.
  intros Hc Hx Hy.
  rewrite FloatAxioms.ltb_spec in *. change (Prim2SF 0) with (S754_zero false) in *.
  unfold SFltb in *.
  destruct (Prim2SF c) as [sc|sc| |sc mc ec]; cbn in Hc; try discriminate;
    destruct sc; try discriminate;
    destruct (Prim2SF x) as [sx|sx| |sx mx ex]; cbn in Hx; try discriminate;
    destruct sx; try discriminate; eauto;
    destruct (Prim2SF y) as [sy|sy| |sy my ey]; cbn in Hy; try discriminate;
    destruct sy; discriminate.
Qed.

Lemma sub_self_finite (x : float) (s : bool) (m : positive) (e : Z) :
  Prim2SF x = S754_finite s m e -> x - x = 0.
Proof.
  intros H. rewrite <- (SF2Prim_Prim2SF (x - x)), sub_spec, H.
  unfold SF64sub. cbn [SFsub].
  match goal with
  | |- context [binary_normalize _ _ ?d _ _] =>
      replace d with 0%Z by (symmetry; apply Z.sub_diag)
  end.
  reflexivity.
Qed.

Lemma Math_min_l (a b : float) : (a <? b) = true -> Math_min a b = a.
Proof.
  intros H. destruct (ltb_not_nan _ _ H) as [Ha Hb].
  unfold Math_min. rewrite Ha, Hb, H. reflexivity.
Qed.

Lemma Math_min_r (a b : float) : (b <? a) = true -> Math_min a b = b.
Proof.
  intros H. destruct (ltb_not_nan _ _ H) as [Hb Ha].
  unfold Math_min. rewrite Ha, Hb, H. cbn [orb].
  rewrite (leb_ltb_false b a); [reflexivity|].
  destruct (b <=? a) eqn:E; [reflexivity|].
  pose proof (ltb_leb_false _ _ H) as H'.
  apply leb_false_ltb in E; [|exact Hb|exact Ha].
  apply ltb_leb_false in E.
  rewrite FloatAxioms.ltb_spec, FloatAxioms.leb_spec in *. unfold SFltb, SFleb in *.
  destruct (SFcompare (Prim2SF b) (Prim2SF a)) as [[| |]|]; discriminate.
Qed.

Lemma Math_min_eq (a b : float) :
  is_nan a = false -> is_nan b = false -> is_zero a = false ->
  (a <? b) = false -> (b <? a) = false -> Math_min a b = a.
Proof.
  intros Ha Hb Hz H1 H2. unfold Math_min. rewrite Ha, Hb, H1, H2, Hz. reflexivity.
Qed.

Lemma Math_min_nan_l (b : float) : Math_min nan b = nan.
Proof. reflexivity. Qed.

Lemma Math_max_0_positive (x : float) : (0 <? x) = true -> Math_max 0 x = x.
Proof.
  intros H. destruct (ltb_not_nan _ _ H) as [_ Hx].
  unfold Math_max. rewrite Hx, H. reflexivity.
Qed.

Lemma is_nan_eq (x : float) : is_nan x = true -> x = nan.
Proof.
  intros H. apply is_nan_spec in H.
  rewrite <- (SF2Prim_Prim2SF x), H. reflexivity.
Qed.

End FloatCompare.

(** ** calculateLoanPrepaymentImpact in binary64 *)

Section PrepaymentLoopBinary64.

Import Binary64.
Local Open Scope float_scope.

Variables (monthlyRate calculatedEMI prepaymentAmount : float).
Variables (prepaymentMonth SAFE_MAX_MONTHS : Z).

Let body := prepaymentLoopBody monthlyRate calculatedEMI prepaymentAmount
              prepaymentMonth.
Let run := prepaymentLoop monthlyRate calculatedEMI prepaymentAmount
             prepaymentMonth SAFE_MAX_MONTHS.

Lemma prepaymentLoopBody_months_binary64 st :
  monthsElapsed (body st) = (monthsElapsed st + 1)%Z.
Proof.
  unfold body, prepaymentLoopBody. destruct (_ <? _); reflexivity.
Qed.

Lemma prepaymentLoopBody_total_binary64 st :
  totalInterestPaid (body st)
  = totalInterestPaid st + remainingPrincipal st * monthlyRate.
Proof.
  unfold body, prepaymentLoopBody. destruct (_ <? _); reflexivity.
Qed.

(** The cap on the months bounds the number of iterations. *)
Lemma prepaymentLoop_returns_binary64 fuel st :
  (Z.to_nat (SAFE_MAX_MONTHS - monthsElapsed st) <= fuel)%nat ->
  exists st', run fuel st = Normal st'.
Proof.
  apply (while_terminates _ _ _
           (fun st => Z.to_nat (SAFE_MAX_MONTHS - monthsElapsed st))).
  intros s Hc _. unfold prepaymentLoopCond in Hc.
  apply andb_true_iff in Hc. destruct Hc as [_ Hc]. apply Z.ltb_lt in Hc.
  fold (body s). rewrite prepaymentLoopBody_months_binary64. lia.
Qed.

Lemma prepaymentLoop_months_binary64 fuel st st' :
  (monthsElapsed st <= SAFE_MAX_MONTHS)%Z ->
  run fuel st = Normal st' ->
  (monthsElapsed st <= monthsElapsed st' <= SAFE_MAX_MONTHS)%Z.
Proof.
  intros Hle Hrun.
  apply (while_invariant _ _ _
           (fun s => (monthsElapsed st <= monthsElapsed s <= SAFE_MAX_MONTHS)%Z))
    in Hrun; [tauto| |lia].
  intros s Hs Hc _. unfold prepaymentLoopCond in Hc.
  apply andb_true_iff in Hc. destruct Hc as [_ Hc]. apply Z.ltb_lt in Hc.
  fold (body s). rewrite prepaymentLoopBody_months_binary64. lia.
Qed.

(** At a monthly rate of zero no interest is added: the total stays 0,
    or becomes NaN when the balance is not a finite number. *)
Lemma prepaymentLoop_no_interest_binary64 fuel st st' :
  monthlyRate = 0 \/ monthlyRate = neg_zero ->
  totalInterestPaid st = 0 \/ totalInterestPaid st = nan ->
  run fuel st = Normal st' ->
  totalInterestPaid st' = 0 \/ totalInterestPaid st' = nan.
Proof.
  intros Hr Ht Hrun.
  apply (while_invariant _ _ _
           (fun s => totalInterestPaid s = 0 \/ totalInterestPaid s = nan))
    in Hrun; [tauto| |exact Ht].
  intros s Hs _ _. fold (body s). rewrite prepaymentLoopBody_total_binary64.
  apply add_zeroOrNaN; [exact Hs|]. apply mul_zero_r. exact Hr.
Qed.

End PrepaymentLoopBinary64.

Section PrepaymentBinary64.

Import Binary64.
Local Open Scope float_scope.

Variable Math_pow : float -> Z -> float.
Variable toLocaleString : float -> string.

Lemma validPrepaymentInput_passes (input : LoanPrepaymentInput) :
  validPrepaymentInput input -> prepaymentInputInvalid input = false.
Proof.
  intros (HP & Hr & Hn & Hpp & Hpm). unfold prepaymentInputInvalid.
  rewrite (ltb_0_leb_false _ HP), (leb_0_ltb_false _ Hr),
    (ltb_0_leb_false _ Hpp).
  cbn [orb]. repeat (apply orb_false_iff; split);
    first [reflexivity | apply Z.leb_gt; lia | apply Z.ltb_ge; lia].
Qed.

(** An input that the validation lets through has a positive tenure and
    a prepayment month within it; its amounts may be NaN. *)
Lemma prepaymentInputInvalid_false (input : LoanPrepaymentInput) :
  prepaymentInputInvalid input = false ->
  (loanPrincipal input <=? 0) = false
  /\ (annualInterestRate input <? 0) = false
  /\ (0 < loanTenureMonths input)%Z
  /\ (prepaymentAmount input <=? 0) = false
  /\ (1 <= prepaymentMonth input <= loanTenureMonths input)%Z.
Proof.
  unfold prepaymentInputInvalid. intros H.
  repeat (apply orb_false_iff in H; destruct H as [H ?]).
  repeat match goal with
         | H : (_ <=? _)%Z = false |- _ => apply Z.leb_gt in H
         | H : (_ <? _)%Z = false |- _ => apply Z.ltb_ge in H
         end.
  repeat split; first [assumption | lia].
Qed.

Variable input : LoanPrepaymentInput.
Hypothesis passes : prepaymentInputInvalid input = false.

Let monthlyRate := annualInterestRate input / 12 / 100.
Let tenure := loanTenureMonths input.
Let emi := calculatePMT Math_pow (loanPrincipal input) monthlyRate tenure.

(** The shape of the result: the final state of the loop, and the record
    built from it. *)
Lemma calculateLoanPrepaymentImpact_valid_binary64 :
  exists st,
    prepaymentLoop monthlyRate emi (prepaymentAmount input)
      (prepaymentMonth input) (tenure * 2) (Z.to_nat (tenure * 2))
      (prepaymentInit input) = Normal st
    /\ (0 <= monthsElapsed st <= tenure * 2)%Z
    /\ calculateLoanPrepaymentImpact Math_pow toLocaleString input =
       Normal {|
         interest_before_prepayment :=
           Math_round (emi * Number_of_Z tenure - loanPrincipal input);
         interest_after_prepayment := Math_round (totalInterestPaid st);
         interest_saved :=
           Math_round (Math_max 0 (emi * Number_of_Z tenure - loanPrincipal input
                                   - totalInterestPaid st));
         original_tenure_months := tenure;
         new_tenure_months := monthsElapsed st;
         tenure_reduction_months := Z.max 0 (tenure - monthsElapsed st);
         summary :=
           prepaymentSummary toLocaleString (prepaymentAmount input)
             (prepaymentMonth input)
             (Math_max 0 (emi * Number_of_Z tenure - loanPrincipal input
                          - totalInterestPaid st))
             (Z.max 0 (tenure - monthsElapsed st))
       |}.
Proof using passes.
  pose proof (prepaymentInputInvalid_false input passes) as (_ & _ & Hn & _).
  destruct (prepaymentLoop_returns_binary64 monthlyRate emi (prepaymentAmount input)
              (prepaymentMonth input) (tenure * 2) (Z.to_nat (tenure * 2))
              (prepaymentInit input)) as [st Hst].
  { cbn [prepaymentInit monthsElapsed]. rewrite Z.sub_0_r. reflexivity. }
  exists st. split; [exact Hst|]. split.
  - apply prepaymentLoop_months_binary64 in Hst;
      cbn [prepaymentInit monthsElapsed] in *; unfold tenure in *; lia.
  - unfold calculateLoanPrepaymentImpact, calculateLoanPrepaymentImpact_fuel.
    rewrite passes.
    fold monthlyRate tenure. fold emi. fold (prepaymentInit input).
    rewrite Hst. reflexivity.
Qed.

End PrepaymentBinary64.

(** C10: in binary64 arithmetic [new_tenure_months] is between 0 and
    twice [original_tenure_months], the cap of the loop, and no bound
    below the cap holds for every valid input; [tenure_reduction_months]
    is [original_tenure_months - new_tenure_months] when the loan ends
    within the original tenure and 0, by the clamp, when it does not.
    This holds for every implementation of [Math.pow]. *)
Theorem C10_new_tenure_within_twice_original (Math_pow : float -> Z -> float)
    (toLocaleString : float -> string) (input : Binary64.LoanPrepaymentInput) :
  Binary64.validPrepaymentInput input ->
  exists result,
    Binary64.calculateLoanPrepaymentImpact Math_pow toLocaleString input
    = Normal result
    /\ Binary64.original_tenure_months result = Binary64.loanTenureMonths input
    /\ (0 <= Binary64.new_tenure_months result
        <= 2 * Binary64.original_tenure_months result)%Z
    /\ ((Binary64.new_tenure_months result
         <= Binary64.original_tenure_months result)%Z ->
        Binary64.tenure_reduction_months result
        = (Binary64.original_tenure_months result
           - Binary64.new_tenure_months result)%Z)
    /\ ((Binary64.original_tenure_months result
         < Binary64.new_tenure_months result)%Z ->
        Binary64.tenure_reduction_months result = 0%Z).
Proof.
  intros V.
  destruct (calculateLoanPrepaymentImpact_valid_binary64 Math_pow toLocaleString
              input (validPrepaymentInput_passes input V)) as (st & _ & Hm & ->).
  eexists. split; [reflexivity|].
  cbn [Binary64.original_tenure_months Binary64.new_tenure_months
       Binary64.tenure_reduction_months].
  repeat split; try lia.
Qed.

Lemma C10_witness :
  exists result,
    Binary64.calculateLoanPrepaymentImpact Binary64.Math_pow_rounded
      Binary64.toLocaleString_plain Binary64.sampleInput = Normal result
    /\ Binary64.original_tenure_months result
       = Binary64.loanTenureMonths Binary64.sampleInput
    /\ (0 <= Binary64.new_tenure_months result
        <= 2 * Binary64.original_tenure_months result)%Z
    /\ ((Binary64.new_tenure_months result
         <= Binary64.original_tenure_months result)%Z ->
        Binary64.tenure_reduction_months result
        = (Binary64.original_tenure_months result
           - Binary64.new_tenure_months result)%Z)
    /\ ((Binary64.original_tenure_months result
         < Binary64.new_tenure_months result)%Z ->
        Binary64.tenure_reduction_months result = 0%Z).
Proof.
  apply C10_new_tenure_within_twice_original.
  unfold Binary64.validPrepaymentInput. cbn.
  repeat split; first [reflexivity | lia].
Defined.

(** At a monthly rate of 1 over 60 months the EMI is the interest of a
    month, the balance does not go down until the prepayment of month 60,
    and the loan ends in month 77. *)
Lemma C10_counterexample :
  Binary64.validPrepaymentInput Binary64.inputRateOfOne
  /\ exists result,
    Binary64.calculateLoanPrepaymentImpact Binary64.Math_pow_rounded
      Binary64.toLocaleString_plain Binary64.inputRateOfOne = Normal result
    /\ Binary64.original_tenure_months result = 60%Z
    /\ Binary64.new_tenure_months result = 77%Z
    /\ Binary64.tenure_reduction_months result = 0%Z.
Proof.
  split.
  - unfold Binary64.validPrepaymentInput. cbn.
    repeat split; first [reflexivity | lia].
  - eexists. split; [vm_compute; reflexivity|]. repeat split.
Qed.

(** The cap is reached: a prepayment that the rounding of the balance
    absorbs leaves the loan where it was, and the loop runs its 120
    months. *)
Example new_tenure_at_the_cap :
  Binary64.validPrepaymentInput Binary64.inputAtCap
  /\ exists result,
    Binary64.calculateLoanPrepaymentImpact Binary64.Math_pow_rounded
      Binary64.toLocaleString_plain Binary64.inputAtCap = Normal result
    /\ Binary64.original_tenure_months result = 60%Z
    /\ Binary64.new_tenure_months result = 120%Z.
Proof.
  split.
  - unfold Binary64.validPrepaymentInput. cbn.
    repeat split; first [reflexivity | lia].
  - eexists. split; [vm_compute; reflexivity|]. repeat split.
Qed.

(** C7: in binary64 arithmetic, for every valid input and every
    implementation of [Math.pow]: [tenure_reduction_months] is
    [max(0, original_tenure_months - new_tenure_months)] and is not
    negative; [interest_saved] is [Math.round(Math.max(0, before - after))],
    where [before] and [after] are the amounts that
    [interest_before_prepayment] and [interest_after_prepayment] round, and
    it is NaN or not negative. *)
Theorem C7_saved_and_reduction_binary64 (Math_pow : float -> Z -> float)
    (toLocaleString : float -> string) (input : Binary64.LoanPrepaymentInput) :
  Binary64.validPrepaymentInput input ->
  exists result before after st,
    Binary64.calculateLoanPrepaymentImpact Math_pow toLocaleString input
    = Normal result
    /\ before
       = (Binary64.calculatePMT Math_pow (Binary64.loanPrincipal input)
            (Binary64.annualInterestRate input / 12 / 100)
            (Binary64.loanTenureMonths input)
          * Binary64.Number_of_Z (Binary64.loanTenureMonths input)
          - Binary64.loanPrincipal input)%float
    /\ Binary64.prepaymentLoop (Binary64.annualInterestRate input / 12 / 100)
         (Binary64.calculatePMT Math_pow (Binary64.loanPrincipal input)
            (Binary64.annualInterestRate input / 12 / 100)
            (Binary64.loanTenureMonths input))
         (Binary64.prepaymentAmount input) (Binary64.prepaymentMonth input)
         (Binary64.loanTenureMonths input * 2)
         (Z.to_nat (Binary64.loanTenureMonths input * 2))
         (Binary64.prepaymentInit input) = Normal st
    /\ after = Binary64.totalInterestPaid st
    /\ Binary64.interest_before_prepayment result = Binary64.Math_round before
    /\ Binary64.interest_after_prepayment result = Binary64.Math_round after
    /\ Binary64.interest_saved result
       = Binary64.Math_round (Binary64.Math_max 0 (before - after))
    /\ Binary64.notNegative (Binary64.interest_saved result)
    /\ Binary64.tenure_reduction_months result
       = Z.max 0 (Binary64.original_tenure_months result
                  - Binary64.new_tenure_months result)
    /\ (0 <= Binary64.tenure_reduction_months result)%Z.
Proof.
  intros V.
  destruct (calculateLoanPrepaymentImpact_valid_binary64 Math_pow toLocaleString
              input (validPrepaymentInput_passes input V)) as (st & Hrun & _ & ->).
  eexists. eexists. eexists. exists st. split; [reflexivity|].
  cbn [Binary64.interest_before_prepayment Binary64.interest_after_prepayment
       Binary64.interest_saved Binary64.original_tenure_months
       Binary64.new_tenure_months Binary64.tenure_reduction_months].
  split; [reflexivity|]. split; [exact Hrun|]. split; [reflexivity|].
  split; [reflexivity|]. split; [reflexivity|]. split; [reflexivity|].
  split; [|split; [reflexivity|lia]].
  apply Math_round_notNegative, Math_max_0_notNegative.
Qed.

Lemma C7_witness_binary64 :
  exists result before after st,
    Binary64.calculateLoanPrepaymentImpact Binary64.Math_pow_rounded
      Binary64.toLocaleString_plain Binary64.sampleInput = Normal result
    /\ before
       = (Binary64.calculatePMT Binary64.Math_pow_rounded
            (Binary64.loanPrincipal Binary64.sampleInput)
            (Binary64.annualInterestRate Binary64.sampleInput / 12 / 100)
            (Binary64.loanTenureMonths Binary64.sampleInput)
          * Binary64.Number_of_Z (Binary64.loanTenureMonths Binary64.sampleInput)
          - Binary64.loanPrincipal Binary64.sampleInput)%float
    /\ Binary64.prepaymentLoop
         (Binary64.annualInterestRate Binary64.sampleInput / 12 / 100)
         (Binary64.calculatePMT Binary64.Math_pow_rounded
            (Binary64.loanPrincipal Binary64.sampleInput)
            (Binary64.annualInterestRate Binary64.sampleInput / 12 / 100)
            (Binary64.loanTenureMonths Binary64.sampleInput))
         (Binary64.prepaymentAmount Binary64.sampleInput)
         (Binary64.prepaymentMonth Binary64.sampleInput)
         (Binary64.loanTenureMonths Binary64.sampleInput * 2)
         (Z.to_nat (Binary64.loanTenureMonths Binary64.sampleInput * 2))
         (Binary64.prepaymentInit Binary64.sampleInput) = Normal st
    /\ after = Binary64.totalInterestPaid st
    /\ Binary64.interest_before_prepayment result = Binary64.Math_round before
    /\ Binary64.interest_after_prepayment result = Binary64.Math_round after
    /\ Binary64.interest_saved result
       = Binary64.Math_round (Binary64.Math_max 0 (before - after))
    /\ Binary64.notNegative (Binary64.interest_saved result)
    /\ Binary64.tenure_reduction_months result
       = Z.max 0 (Binary64.original_tenure_months result
                  - Binary64.new_tenure_months result)
    /\ (0 <= Binary64.tenure_reduction_months result)%Z.
Proof.
  apply C7_saved_and_reduction_binary64.
  unfold Binary64.validPrepaymentInput. cbn.
  repeat split; first [reflexivity | lia].
Defined.

(** At 1200000% a year over 103 months [1001^103] is beyond the largest
    binary64 number: the power is infinite, the EMI is NaN, and so is
    [interest_saved], which is then not at least 0. *)
Lemma C7_counterexample :
  Binary64.validPrepaymentInput Binary64.inputPowerOverflows
  /\ exists result,
    Binary64.calculateLoanPrepaymentImpact Binary64.Math_pow_rounded
      Binary64.toLocaleString_plain Binary64.inputPowerOverflows = Normal result
    /\ is_nan (Binary64.interest_saved result) = true
    /\ (0 <=? Binary64.interest_saved result)%float = false
    /\ is_nan (Binary64.interest_before_prepayment result) = true.
Proof.
  split.
  - unfold Binary64.validPrepaymentInput. cbn.
    repeat split; first [reflexivity | lia].
  - eexists. split; [vm_compute; reflexivity|]. repeat split.
Qed.

(** C8: in binary64 arithmetic, for every valid input whose annual rate
    is 0 and every implementation of [Math.pow]: the EMI is the quotient
    [loanPrincipal / loanTenureMonths], [Math.pow] is not called on it, and
    a result is returned; no month adds interest, so that
    [interest_after_prepayment] is 0 (NaN when the balance is not a finite
    number); [interest_before_prepayment] is the rounding of what the
    quotient, multiplied back, differs from the principal by. *)
Theorem C8_zero_rate_binary64 (Math_pow : float -> Z -> float)
    (toLocaleString : float -> string) (input : Binary64.LoanPrepaymentInput) :
  Binary64.validPrepaymentInput input ->
  (Binary64.annualInterestRate input =? 0)%float = true ->
  exists result,
    Binary64.calculateLoanPrepaymentImpact Math_pow toLocaleString input
    = Normal result
    /\ Binary64.calculatePMT Math_pow (Binary64.loanPrincipal input)
         (Binary64.annualInterestRate input / 12 / 100)
         (Binary64.loanTenureMonths input)
       = (Binary64.loanPrincipal input
          / Binary64.Number_of_Z (Binary64.loanTenureMonths input))%float
    /\ (Binary64.interest_after_prepayment result = 0%float
        \/ Binary64.interest_after_prepayment result = nan)
    /\ Binary64.interest_before_prepayment result
       = Binary64.Math_round
           (Binary64.loanPrincipal input
            / Binary64.Number_of_Z (Binary64.loanTenureMonths input)
            * Binary64.Number_of_Z (Binary64.loanTenureMonths input)
            - Binary64.loanPrincipal input)%float.
Proof.
  intros V Hzero.
  destruct (calculateLoanPrepaymentImpact_valid_binary64 Math_pow toLocaleString
              input (validPrepaymentInput_passes input V)) as (st & Hrun & _ & ->).
  assert (Hrate : (Binary64.annualInterestRate input / 12 / 100 = 0
                   \/ Binary64.annualInterestRate input / 12 / 100 = neg_zero)%float).
  { destruct (eqb_0_spec _ Hzero) as [-> | ->]; [left|right]; reflexivity. }
  assert (Hpmt : Binary64.calculatePMT Math_pow (Binary64.loanPrincipal input)
                   (Binary64.annualInterestRate input / 12 / 100)
                   (Binary64.loanTenureMonths input)
                 = (Binary64.loanPrincipal input
                    / Binary64.Number_of_Z (Binary64.loanTenureMonths input))%float).
  { unfold Binary64.calculatePMT. destruct Hrate as [-> | ->]; reflexivity. }
  apply prepaymentLoop_no_interest_binary64 in Hrun;
    [|exact Hrate|left; reflexivity].
  eexists. split; [reflexivity|].
  cbn [Binary64.interest_before_prepayment Binary64.interest_after_prepayment].
  split; [exact Hpmt|]. split.
  - destruct Hrun as [-> | ->]; [left|right]; reflexivity.
  - rewrite Hpmt. reflexivity.
Qed.

Lemma C8_witness_binary64 :
  exists result,
    Binary64.calculateLoanPrepaymentImpact Binary64.Math_pow_rounded
      Binary64.toLocaleString_plain Binary64.sampleInputNoInterest = Normal result
    /\ Binary64.calculatePMT Binary64.Math_pow_rounded
         (Binary64.loanPrincipal Binary64.sampleInputNoInterest)
         (Binary64.annualInterestRate Binary64.sampleInputNoInterest / 12 / 100)
         (Binary64.loanTenureMonths Binary64.sampleInputNoInterest)
       = (Binary64.loanPrincipal Binary64.sampleInputNoInterest
          / Binary64.Number_of_Z
              (Binary64.loanTenureMonths Binary64.sampleInputNoInterest))%float
    /\ (Binary64.interest_after_prepayment result = 0%float
        \/ Binary64.interest_after_prepayment result = nan)
    /\ Binary64.interest_before_prepayment result
       = Binary64.Math_round
           (Binary64.loanPrincipal Binary64.sampleInputNoInterest
            / Binary64.Number_of_Z
                (Binary64.loanTenureMonths Binary64.sampleInputNoInterest)
            * Binary64.Number_of_Z
                (Binary64.loanTenureMonths Binary64.sampleInputNoInterest)
            - Binary64.loanPrincipal Binary64.sampleInputNoInterest)%float.
Proof.
  apply C8_zero_rate_binary64; [|reflexivity].
  unfold Binary64.validPrepaymentInput. cbn.
  repeat split; first [reflexivity | lia].
Defined.

(** Without interest, a principal of 7e15 over 41 months: the quotient is
    rounded, 41 times the quotient is 1 below the principal, and
    [interest_before_prepayment] is -1, not 0. *)
Lemma C8_counterexample :
  Binary64.validPrepaymentInput Binary64.inputLargeNoInterest
  /\ (Binary64.annualInterestRate Binary64.inputLargeNoInterest =? 0)%float = true
  /\ exists result,
    Binary64.calculateLoanPrepaymentImpact Binary64.Math_pow_rounded
      Binary64.toLocaleString_plain Binary64.inputLargeNoInterest = Normal result
    /\ Binary64.interest_before_prepayment result = (-1)%float
    /\ Binary64.interest_after_prepayment result = 0%float.
Proof.
  split; [|split; [reflexivity|]].
  - unfold Binary64.validPrepaymentInput. cbn.
    repeat split; first [reflexivity | lia].
  - eexists. split; [vm_compute; reflexivity|]. repeat split.
Qed.

(** ** optimizeDebtRepayment in binary64 *)

Section OptimizerBinary64.

Import Binary64.
Local Open Scope float_scope.

Lemma Baseline_loop_returns_binary64 (monthlyRate monthlyEMI : float) (fuel : nat)
    (st : Baseline.State) :
  (Z.to_nat (maxMonths - Baseline.months st) <= fuel)%nat ->
  exists st', Baseline.loop monthlyRate monthlyEMI fuel st = Normal st'.
Proof.
  apply (while_terminates _ _ _
           (fun st => Z.to_nat (maxMonths - Baseline.months st))).
  intros s Hc _. unfold Baseline.cond in Hc.
  apply andb_true_iff in Hc. destruct Hc as [_ Hc]. apply Z.ltb_lt in Hc.
  cbn [Baseline.body Baseline.months]. lia.
Qed.

Lemma calculateLoanInterest_returns_binary64 (balance rate emi : float) :
  exists st,
    Baseline.loop (rate / 12 / 100) emi (Z.to_nat maxMonths) (Baseline.init balance)
    = Normal st
    /\ calculateLoanInterest (Z.to_nat maxMonths) balance rate emi
       = Normal (round2 (Baseline.totalInterest st)).
Proof.
  destruct (Baseline_loop_returns_binary64 (rate / 12 / 100) emi
              (Z.to_nat maxMonths) (Baseline.init balance)) as [st Hst].
  { cbn [Baseline.init Baseline.months]. lia. }
  exists st. split; [exact Hst|].
  unfold calculateLoanInterest. rewrite Hst. reflexivity.
Qed.

Lemma calculateBaselineInterest_from_binary64 (l : list Loan) (total : float) :
  exists interest,
    fold_left
      (fun (acc : Completion float) (loan : Loan) =>
         total <- acc ;;
         interest <- calculateLoanInterest (Z.to_nat maxMonths)
                       (outstanding_balance loan) (annual_interest_rate loan)
                       (monthly_emi loan) ;;
         Normal (total + interest))
      l (Normal total)
    = Normal interest.
Proof.
  revert total. induction l as [|loan l IH]; intros total; cbn [fold_left].
  - exists total. reflexivity.
  - destruct (calculateLoanInterest_returns_binary64 (outstanding_balance loan)
                (annual_interest_rate loan) (monthly_emi loan)) as (st & _ & ->).
    cbn [bind]. apply IH.
Qed.

Lemma calculateBaselineInterest_returns_binary64 (l : list Loan) :
  exists interest,
    calculateBaselineInterest (Z.to_nat maxMonths) l = Normal interest.
Proof. apply calculateBaselineInterest_from_binary64. Qed.

Lemma loanStep_months_binary64 priority st loan :
  Simulation.months (Simulation.loanStep priority st loan) = Simulation.months st.
Proof.
  unfold Simulation.loanStep.
  destruct (bool_decide _); [reflexivity|].
  destruct (_ <=? 0.01); [reflexivity|].
  destruct (_ && _ && _); reflexivity.
Qed.

Lemma loanSteps_months_binary64 priority (l : list Loan) st :
  Simulation.months (fold_left (Simulation.loanStep priority) l st)
  = Simulation.months st.
Proof.
  revert st. induction l as [|loan l IH]; intros st; [reflexivity|].
  cbn [fold_left]. rewrite IH. apply loanStep_months_binary64.
Qed.

Lemma calculateStrategyInterest_returns_binary64 (l : list Loan)
    (order : list string) (surplus : float) :
  exists st,
    Simulation.loop l order surplus (Z.to_nat maxMonths)
      (Simulation.init l surplus) = Normal st
    /\ calculateStrategyInterest (Z.to_nat maxMonths) l order surplus
       = Normal (round2 (Simulation.totalInterest st)).
Proof.
  destruct (while_terminates (Simulation.cond l) (Simulation.allPaid order)
              (Simulation.body l order surplus)
              (fun st => Z.to_nat (maxMonths - Simulation.months st))) with
    (fuel := Z.to_nat maxMonths) (st := Simulation.init l surplus) as [st Hst].
  - intros s Hc _. unfold Simulation.cond in Hc.
    apply andb_true_iff in Hc. destruct Hc as [_ Hc]. apply Z.ltb_lt in Hc.
    unfold Simulation.body. cbn [Simulation.months].
    rewrite loanSteps_months_binary64. cbn [Simulation.months]. lia.
  - cbn [Simulation.init Simulation.months]. lia.
  - exists st. split; [exact Hst|].
    unfold calculateStrategyInterest, Simulation.loop. rewrite Hst. reflexivity.
Qed.

Lemma validLoans_pass (l : list Loan) :
  Forall validLoan l -> existsb loanInvalid l = false.
Proof.
  induction 1 as [|loan l (Hname & Hb & Hr & Hemi) _ IH]; [reflexivity|].
  cbn [existsb]. rewrite IH, orb_false_r. unfold loanInvalid.
  rewrite (ltb_0_leb_false _ Hb), (leb_0_ltb_false _ Hr),
    (ltb_0_leb_false _ Hemi), !orb_false_r.
  apply String.eqb_neq. exact Hname.
Qed.

Variable toLocaleString : float -> string.

Lemma decide_strategy_fst_binary64 (a s : float) (risk : RiskTolerance) :
  fst (decide_strategy toLocaleString a s risk)
  = let significant := Math_min a s * 0.05 <? Math_abs (a - s) in
    if (a <? s) && significant then avalanche
    else if (s <? a) && significant then snowball
    else match risk with
         | low => snowball
         | high => avalanche
         | medium => if a <=? s then avalanche else snowball
         end.
Proof.
  unfold decide_strategy. cbv zeta.
  destruct ((a <? s) && _); [reflexivity|].
  destruct ((s <? a) && _); [reflexivity|].
  destruct risk; [reflexivity| |reflexivity].
  destruct (a <=? s); reflexivity.
Qed.

Variable input : DebtRepaymentInput.
Hypothesis nonempty : loans input <> [].
Hypothesis loans_pass : existsb loanInvalid (loans input) = false.

Let surplus := default 0 (monthly_surplus input).
Let risk := default medium (risk_tolerance input).
Let fuel := Z.to_nat maxMonths.

(** The shape of the result: the three interests, and the record built
    from them. *)
Lemma optimizeDebtRepayment_valid_binary64 :
  exists avalancheInterest snowballInterest baselineInterest,
    calculateStrategyInterest fuel (loans input)
      (generateAvalancheOrder (loans input)) surplus = Normal avalancheInterest
    /\ calculateStrategyInterest fuel (loans input)
         (generateSnowballOrder (loans input)) surplus = Normal snowballInterest
    /\ calculateBaselineInterest fuel (loans input) = Normal baselineInterest
    /\ optimizeDebtRepayment toLocaleString input =
       Normal {|
         avalanche_order := generateAvalancheOrder (loans input);
         snowball_order := generateSnowballOrder (loans input);
         recommended_strategy :=
           fst (decide_strategy toLocaleString avalancheInterest
                  snowballInterest risk);
         reason :=
           snd (decide_strategy toLocaleString avalancheInterest
                  snowballInterest risk);
         estimated_interest_saved :=
           round2 (match fst (decide_strategy toLocaleString avalancheInterest
                                snowballInterest risk) with
                   | avalanche => baselineInterest - avalancheInterest
                   | snowball => baselineInterest - snowballInterest
                   end)
       |}.
Proof using nonempty loans_pass.
  destruct (calculateStrategyInterest_returns_binary64 (loans input)
              (generateAvalancheOrder (loans input)) surplus) as (stA & _ & HA).
  destruct (calculateStrategyInterest_returns_binary64 (loans input)
              (generateSnowballOrder (loans input)) surplus) as (stS & _ & HS).
  destruct (calculateBaselineInterest_returns_binary64 (loans input)) as [b HB].
  exists (round2 (Simulation.totalInterest stA)),
    (round2 (Simulation.totalInterest stS)), b.
  split; [exact HA|]. split; [exact HS|]. split; [exact HB|].
  unfold optimizeDebtRepayment, optimizeDebtRepayment_fuel. cbv zeta.
  assert (Hlen : (length (loans input) =? 0)%nat = false)
    by (destruct (loans input); [contradiction|reflexivity]).
  rewrite Hlen, loans_pass.
  fold surplus risk. unfold fuel in HA, HS, HB. rewrite HA, HS, HB. cbn [bind].
  destruct (decide_strategy _ _ _ _) as [strategy why]. reflexivity.
Qed.

End OptimizerBinary64.

(** C2: in binary64 arithmetic, for every valid input: with the
    interests that [calculateStrategyInterest] returns for the avalanche
    and the snowball order of the loans, [diff] the absolute value of
    their difference and [significant] the test
    [diff > min(avalancheInterest, snowballInterest) * 0.05], every
    operation being the one of binary64 numbers, the recommended strategy
    is avalanche when avalanche is cheaper and the difference
    significant; else snowball when snowball is cheaper and the difference
    significant; else snowball for [low], avalanche for [high], and for
    [medium] avalanche when [avalancheInterest <= snowballInterest] and
    snowball when not. *)
Theorem C2_recommended_strategy_binary64 (toLocaleString : float -> string)
    (input : Binary64.DebtRepaymentInput) :
  Binary64.validDebtRepaymentInput input ->
  exists result avalancheInterest snowballInterest,
    Binary64.optimizeDebtRepayment toLocaleString input = Normal result
    /\ Binary64.avalanche_order result
       = Binary64.generateAvalancheOrder (Binary64.loans input)
    /\ Binary64.snowball_order result
       = Binary64.generateSnowballOrder (Binary64.loans input)
    /\ Binary64.calculateStrategyInterest (Z.to_nat maxMonths)
         (Binary64.loans input)
         (Binary64.generateAvalancheOrder (Binary64.loans input))
         (default 0%float (Binary64.monthly_surplus input))
       = Normal avalancheInterest
    /\ Binary64.calculateStrategyInterest (Z.to_nat maxMonths)
         (Binary64.loans input)
         (Binary64.generateSnowballOrder (Binary64.loans input))
         (default 0%float (Binary64.monthly_surplus input))
       = Normal snowballInterest
    /\ let risk := default medium (Binary64.risk_tolerance input) in
       let diff := Binary64.Math_abs (avalancheInterest - snowballInterest)%float in
       let significant :=
         (Binary64.Math_min avalancheInterest snowballInterest * 0.05 <? diff)%float
         = true in
       let cheaperA :=
         (avalancheInterest <? snowballInterest)%float = true /\ significant in
       let cheaperS :=
         (snowballInterest <? avalancheInterest)%float = true /\ significant in
       (cheaperA -> Binary64.recommended_strategy result = avalanche)
       /\ (~ cheaperA -> cheaperS ->
           Binary64.recommended_strategy result = snowball)
       /\ (~ cheaperA -> ~ cheaperS ->
           (risk = low -> Binary64.recommended_strategy result = snowball)
           /\ (risk = high -> Binary64.recommended_strategy result = avalanche)
           /\ (risk = medium ->
               ((avalancheInterest <=? snowballInterest)%float = true ->
                Binary64.recommended_strategy result = avalanche)
               /\ ((avalancheInterest <=? snowballInterest)%float = false ->
                   Binary64.recommended_strategy result = snowball))).
Proof.
  intros (Hne & Hv & _).
  destruct (optimizeDebtRepayment_valid_binary64 toLocaleString input Hne
              (validLoans_pass _ Hv))
    as (a & s & b & HA & HS & _ & ->).
  eexists. exists a, s. split; [reflexivity|].
  cbn [Binary64.avalanche_order Binary64.snowball_order
       Binary64.recommended_strategy].
  split; [reflexivity|]. split; [reflexivity|].
  split; [exact HA|]. split; [exact HS|].
  cbv zeta. rewrite decide_strategy_fst_binary64. cbv zeta.
  set (significant := (Binary64.Math_min a s * 0.05
                       <? Binary64.Math_abs (a - s))%float).
  split; [|split].
  - intros [H1 H2]. rewrite H1, H2. reflexivity.
  - intros HnA [H1 H2].
    assert (E : (a <? s)%float = false)
      by (destruct (a <? s)%float; [exfalso; apply HnA; auto|reflexivity]).
    rewrite E, H1, H2. reflexivity.
  - intros HnA HnS.
    assert (E1 : (a <? s)%float && significant = false)
      by (destruct (a <? s)%float, significant; try reflexivity;
          exfalso; apply HnA; auto).
    assert (E2 : (s <? a)%float && significant = false)
      by (destruct (s <? a)%float, significant; try reflexivity;
          exfalso; apply HnS; auto).
    rewrite E1, E2.
    split; [intros Hr; rewrite Hr; reflexivity|].
    split; [intros Hr; rewrite Hr; reflexivity|].
    intros Hr. rewrite Hr. split; intros Hle; rewrite Hle; reflexivity.
Qed.

Lemma C2_witness_binary64 :
  exists result avalancheInterest snowballInterest,
    Binary64.optimizeDebtRepayment Binary64.toLocaleString_plain
      Binary64.sampleLoans = Normal result
    /\ Binary64.avalanche_order result
       = Binary64.generateAvalancheOrder (Binary64.loans Binary64.sampleLoans)
    /\ Binary64.snowball_order result
       = Binary64.generateSnowballOrder (Binary64.loans Binary64.sampleLoans)
    /\ Binary64.calculateStrategyInterest (Z.to_nat maxMonths)
         (Binary64.loans Binary64.sampleLoans)
         (Binary64.generateAvalancheOrder (Binary64.loans Binary64.sampleLoans))
         (default 0%float (Binary64.monthly_surplus Binary64.sampleLoans))
       = Normal avalancheInterest
    /\ Binary64.calculateStrategyInterest (Z.to_nat maxMonths)
         (Binary64.loans Binary64.sampleLoans)
         (Binary64.generateSnowballOrder (Binary64.loans Binary64.sampleLoans))
         (default 0%float (Binary64.monthly_surplus Binary64.sampleLoans))
       = Normal snowballInterest
    /\ let risk := default medium (Binary64.risk_tolerance Binary64.sampleLoans) in
       let diff := Binary64.Math_abs (avalancheInterest - snowballInterest)%float in
       let significant :=
         (Binary64.Math_min avalancheInterest snowballInterest * 0.05 <? diff)%float
         = true in
       let cheaperA :=
         (avalancheInterest <? snowballInterest)%float = true /\ significant in
       let cheaperS :=
         (snowballInterest <? avalancheInterest)%float = true /\ significant in
       (cheaperA -> Binary64.recommended_strategy result = avalanche)
       /\ (~ cheaperA -> cheaperS ->
           Binary64.recommended_strategy result = snowball)
       /\ (~ cheaperA -> ~ cheaperS ->
           (risk = low -> Binary64.recommended_strategy result = snowball)
           /\ (risk = high -> Binary64.recommended_strategy result = avalanche)
           /\ (risk = medium ->
               ((avalancheInterest <=? snowballInterest)%float = true ->
                Binary64.recommended_strategy result = avalanche)
               /\ ((avalancheInterest <=? snowballInterest)%float = false ->
                   Binary64.recommended_strategy result = snowball))).
Proof.
  apply C2_recommended_strategy_binary64.
  unfold Binary64.validDebtRepaymentInput. cbn.
  repeat first [split | constructor | reflexivity | discriminate].
Defined.

(** The strategies of two loans cost 12.81 and 12.2.  In binary64
    [12.81 - 12.2] is above [12.2 * 0.05], the difference counts as
    significant, and snowball is recommended, also to a borrower of high
    risk tolerance. *)
Example loansAtThreshold_result :
  Binary64.calculateStrategyInterest (Z.to_nat maxMonths)
    (Binary64.loans Binary64.loansAtThreshold) ["A"; "B"]%string 200%float
  = Normal 12.81%float
  /\ Binary64.calculateStrategyInterest (Z.to_nat maxMonths)
       (Binary64.loans Binary64.loansAtThreshold) ["B"; "A"]%string 200%float
     = Normal 12.2%float
  /\ (12.81 - 12.2)%float = 0.6100000000000012%float
  /\ (12.2 * 0.05)%float = 0.61%float
  /\ exists result,
       Binary64.optimizeDebtRepayment Binary64.toLocaleString_plain
         Binary64.loansAtThreshold = Normal result
       /\ Binary64.avalanche_order result = ["A"; "B"]%string
       /\ Binary64.snowball_order result = ["B"; "A"]%string
       /\ Binary64.recommended_strategy result = snowball.
Proof.
  split; [vm_compute; reflexivity|]. split; [vm_compute; reflexivity|].
  split; [reflexivity|]. split; [reflexivity|].
  eexists. split; [vm_compute; reflexivity|]. repeat split.
Qed.

(** C1: in binary64 arithmetic, for every valid input,
    [estimated_interest_saved] is the baseline interest less the interest
    of the recommended strategy, as [calculateBaselineInterest] and
    [calculateStrategyInterest] return them for the loans and their two
    orders, rounded to two decimals; nothing keeps it at or above 0. *)
Theorem C1_estimated_interest_saved_binary64 (toLocaleString : float -> string)
    (input : Binary64.DebtRepaymentInput) :
  Binary64.validDebtRepaymentInput input ->
  exists result avalancheInterest snowballInterest baselineInterest,
    Binary64.optimizeDebtRepayment toLocaleString input = Normal result
    /\ Binary64.calculateStrategyInterest (Z.to_nat maxMonths)
         (Binary64.loans input)
         (Binary64.generateAvalancheOrder (Binary64.loans input))
         (default 0%float (Binary64.monthly_surplus input))
       = Normal avalancheInterest
    /\ Binary64.calculateStrategyInterest (Z.to_nat maxMonths)
         (Binary64.loans input)
         (Binary64.generateSnowballOrder (Binary64.loans input))
         (default 0%float (Binary64.monthly_surplus input))
       = Normal snowballInterest
    /\ Binary64.calculateBaselineInterest (Z.to_nat maxMonths)
         (Binary64.loans input)
       = Normal baselineInterest
    /\ Binary64.estimated_interest_saved result
       = Binary64.round2
           (baselineInterest
            - match Binary64.recommended_strategy result with
              | avalanche => avalancheInterest
              | snowball => snowballInterest
              end)%float.
Proof.
  intros (Hne & Hv & _).
  destruct (optimizeDebtRepayment_valid_binary64 toLocaleString input Hne
              (validLoans_pass _ Hv))
    as (a & s & b & HA & HS & HB & ->).
  eexists. exists a, s, b. split; [reflexivity|].
  cbn [Binary64.estimated_interest_saved Binary64.recommended_strategy].
  split; [exact HA|]. split; [exact HS|]. split; [exact HB|].
  destruct (fst _); reflexivity.
Qed.

Lemma C1_witness_binary64 :
  exists result avalancheInterest snowballInterest baselineInterest,
    Binary64.optimizeDebtRepayment Binary64.toLocaleString_plain
      Binary64.loanBelowInterest = Normal result
    /\ Binary64.calculateStrategyInterest (Z.to_nat maxMonths)
         (Binary64.loans Binary64.loanBelowInterest)
         (Binary64.generateAvalancheOrder
            (Binary64.loans Binary64.loanBelowInterest))
         (default 0%float (Binary64.monthly_surplus Binary64.loanBelowInterest))
       = Normal avalancheInterest
    /\ Binary64.calculateStrategyInterest (Z.to_nat maxMonths)
         (Binary64.loans Binary64.loanBelowInterest)
         (Binary64.generateSnowballOrder
            (Binary64.loans Binary64.loanBelowInterest))
         (default 0%float (Binary64.monthly_surplus Binary64.loanBelowInterest))
       = Normal snowballInterest
    /\ Binary64.calculateBaselineInterest (Z.to_nat maxMonths)
         (Binary64.loans Binary64.loanBelowInterest)
       = Normal baselineInterest
    /\ Binary64.estimated_interest_saved result
       = Binary64.round2
           (baselineInterest
            - match Binary64.recommended_strategy result with
              | avalanche => avalancheInterest
              | snowball => snowballInterest
              end)%float.
Proof.
  apply C1_estimated_interest_saved_binary64.
  unfold Binary64.validDebtRepaymentInput. cbn.
  repeat first [split | constructor | reflexivity | discriminate].
Defined.

(** Negative savings in binary64 arithmetic.  The two loans of 1 at 4.8%
    a year: -0.01, the baseline rounding each loan and the strategy their
    sum.  A loan whose EMI falls short of a month of interest: the
    baseline is 0, the strategy runs its 600 months.  And a loan whose EMI
    is above a month of interest by less than the rounding of the monthly
    rate. *)
Example negative_savings_binary64 :
  (exists result,
     Binary64.optimizeDebtRepayment Binary64.toLocaleString_plain
       Binary64.sampleLoans = Normal result
     /\ Binary64.estimated_interest_saved result = (-0.01)%float)
  /\ Binary64.calculateBaselineInterest (Z.to_nat maxMonths)
    (Binary64.loans Binary64.loanBelowInterest) = Normal 0%float
  /\ (exists result,
        Binary64.optimizeDebtRepayment Binary64.toLocaleString_plain
          Binary64.loanBelowInterest = Normal result
        /\ Binary64.estimated_interest_saved result = (-198291.7)%float)
  /\ (exists result,
        Binary64.optimizeDebtRepayment Binary64.toLocaleString_plain
          Binary64.loanAtInterest = Normal result
        /\ Binary64.estimated_interest_saved result = (-26250)%float).
Proof.
  split; [eexists; split; [vm_compute; reflexivity|reflexivity]|].
  split; [vm_compute; reflexivity|].
  split; eexists; (split; [vm_compute; reflexivity|reflexivity]).
Qed.

(** ** The baseline of a loan whose EMI is too small, in binary64 *)

(** X19: in binary64 arithmetic, [calculateLoanInterest] returns 0 for a
    loan whose balance is above 0.01 and whose EMI less the interest of
    the first month, both as the code computes them, is not above 0: the
    loop is left at its first test, before any interest is counted. *)
Theorem X19_baseline_emi_too_small_binary64 (balance rate emi : float) :
  (0.01 <? balance)%float = true ->
  (emi - balance * (rate / 12 / 100) <=? 0)%float = true ->
  Binary64.calculateLoanInterest (Z.to_nat maxMonths) balance rate emi
  = Normal 0%float.
Proof.
  intros Hb Hemi. unfold Binary64.calculateLoanInterest, Binary64.Baseline.loop.
  replace (Z.to_nat maxMonths) with (S 599) by reflexivity.
  rewrite while_unfold.
  unfold Binary64.Baseline.cond, Binary64.Baseline.emiTooSmall.
  cbn [Binary64.Baseline.init Binary64.Baseline.remainingBalance
       Binary64.Baseline.months].
  rewrite Hb, Hemi. reflexivity.
Qed.

Lemma X19_witness_binary64 :
  Binary64.calculateLoanInterest (Z.to_nat maxMonths) 1000 12 5
  = Normal 0%float.
Proof.
  apply X19_baseline_emi_too_small_binary64; reflexivity.
Defined.

(** The test is the one of the code: at 35% a year the monthly rate is
    rounded down, the interest 1179.9374999999998 of the first month is
    below an EMI of 1179.9375, and the loop runs its 600 months. *)
Example calculateLoanInterest_at_the_interest :
  (40455 * (35 / 12 / 100) <? 1179.9375)%float = true
  /\ Binary64.calculateLoanInterest (Z.to_nat maxMonths) 40455 35 1179.9375
     = Normal 707962.5%float.
Proof. split; vm_compute; reflexivity. Qed.

(** ** Validation, the unused fields and the caps, in binary64 *)

Section MoreFuelBinary64.

Import Binary64.
Local Open Scope float_scope.

Lemma Baseline_loop_months_binary64 (monthlyRate monthlyEMI : float) (fuel : nat)
    (st st' : Baseline.State) :
  (0 <= Baseline.months st <= maxMonths)%Z ->
  Baseline.loop monthlyRate monthlyEMI fuel st = Normal st' ->
  (0 <= Baseline.months st' <= maxMonths)%Z.
Proof.
  intros Hle Hrun.
  apply (while_invariant _ _ _
           (fun s => (0 <= Baseline.months s <= maxMonths)%Z))
    in Hrun; [tauto| |exact Hle].
  intros s Hs Hc _. unfold Baseline.cond in Hc.
  apply andb_true_iff in Hc. destruct Hc as [_ Hc]. apply Z.ltb_lt in Hc.
  cbn [Baseline.body Baseline.months]. lia.
Qed.

Lemma Simulation_loop_months_binary64 (l : list Loan) (order : list string)
    (surplus : float) (fuel : nat) (st st' : Simulation.State) :
  (0 <= Simulation.months st <= maxMonths)%Z ->
  Simulation.loop l order surplus fuel st = Normal st' ->
  (0 <= Simulation.months st' <= maxMonths)%Z.
Proof.
  intros Hle Hrun.
  apply (while_invariant _ _ _
           (fun s => (0 <= Simulation.months s <= maxMonths)%Z))
    in Hrun; [tauto| |exact Hle].
  intros s Hs Hc _. unfold Simulation.cond in Hc.
  apply andb_true_iff in Hc. destruct Hc as [_ Hc]. apply Z.ltb_lt in Hc.
  unfold Simulation.body. cbn [Simulation.months].
  rewrite loanSteps_months_binary64. cbn [Simulation.months]. lia.
Qed.

Lemma calculateStrategyInterest_more_fuel_binary64 (l : list Loan)
    (order : list string) (surplus : float) (fuel : nat) :
  (Z.to_nat maxMonths <= fuel)%nat ->
  calculateStrategyInterest fuel l order surplus
  = calculateStrategyInterest (Z.to_nat maxMonths) l order surplus.
Proof.
  intros Hfuel.
  destruct (calculateStrategyInterest_returns_binary64 l order surplus)
    as (st & Hrun & Hres).
  rewrite Hres. unfold calculateStrategyInterest, Simulation.loop in *.
  rewrite (while_more_fuel _ _ _ _ fuel _ _ Hrun Hfuel). reflexivity.
Qed.

Lemma calculateLoanInterest_more_fuel_binary64 (balance rate emi : float)
    (fuel : nat) :
  (Z.to_nat maxMonths <= fuel)%nat ->
  calculateLoanInterest fuel balance rate emi
  = calculateLoanInterest (Z.to_nat maxMonths) balance rate emi.
Proof.
  intros Hfuel.
  destruct (calculateLoanInterest_returns_binary64 balance rate emi)
    as (st & Hrun & Hres).
  rewrite Hres. unfold calculateLoanInterest, Baseline.loop in *.
  rewrite (while_more_fuel _ _ _ _ fuel _ _ Hrun Hfuel). reflexivity.
Qed.

Lemma calculateBaselineInterest_more_fuel_binary64 (l : list Loan) (fuel : nat) :
  (Z.to_nat maxMonths <= fuel)%nat ->
  calculateBaselineInterest fuel l
  = calculateBaselineInterest (Z.to_nat maxMonths) l.
Proof.
  intros Hfuel. unfold calculateBaselineInterest.
  generalize (Normal 0 : Completion float).
  induction l as [|loan l IH]; intros acc; [reflexivity|].
  cbn [fold_left].
  rewrite (calculateLoanInterest_more_fuel_binary64 _ _ _ fuel Hfuel).
  apply IH.
Qed.

Lemma loansInvalid_binary64 (l : list Loan) :
  existsb loanInvalid l = true
  <-> Exists (fun loan => loan_name loan = ""%string
                          \/ (outstanding_balance loan <=? 0) = true
                          \/ (annual_interest_rate loan <? 0) = true
                          \/ (monthly_emi loan <=? 0) = true) l.
Proof.
  rewrite existsb_exists, List.Exists_exists.
  split; intros (loan & Hin & H); exists loan; (split; [exact Hin|]).
  - unfold loanInvalid in H.
    repeat (apply orb_true_iff in H; destruct H as [H|H]); auto.
    left. apply String.eqb_eq. exact H.
  - unfold loanInvalid. destruct H as [H|[H|[H|H]]].
    + apply String.eqb_eq in H. rewrite H. reflexivity.
    + rewrite H, orb_true_r. reflexivity.
    + rewrite H, !orb_true_r. reflexivity.
    + rewrite H, !orb_true_r. reflexivity.
Qed.

Lemma prepaymentInputInvalid_binary64 (input : LoanPrepaymentInput) :
  prepaymentInputInvalid input = true
  <-> ((loanPrincipal input <=? 0) = true
       \/ (annualInterestRate input <? 0) = true
       \/ (loanTenureMonths input <= 0)%Z
       \/ (prepaymentAmount input <=? 0) = true
       \/ (prepaymentMonth input <= 0)%Z
       \/ (loanTenureMonths input < prepaymentMonth input)%Z).
Proof.
  unfold prepaymentInputInvalid.
  rewrite !orb_true_iff, !Z.leb_le, Z.ltb_lt. tauto.
Qed.

End MoreFuelBinary64.

(** X20: in binary64 arithmetic, [calculateLoanPrepaymentImpact] throws
    exactly when one of the six tests of its validation holds, and
    [optimizeDebtRepayment] exactly when the list of loans is empty or one
    of the four tests holds of a loan; the tests are the comparisons of
    the code, which are false of NaN, so that an amount that is not a
    number passes.  Every input either throws one of the three messages
    or returns a result. *)
Theorem X20_validation_binary64 (Math_pow : float -> Z -> float)
    (toLocaleString : float -> string) :
  (forall input,
     (exists message,
        Binary64.calculateLoanPrepaymentImpact Math_pow toLocaleString input
        = Throw message)
     <-> ((Binary64.loanPrincipal input <=? 0)%float = true
          \/ (Binary64.annualInterestRate input <? 0)%float = true
          \/ (Binary64.loanTenureMonths input <= 0)%Z
          \/ (Binary64.prepaymentAmount input <=? 0)%float = true
          \/ (Binary64.prepaymentMonth input <= 0)%Z
          \/ (Binary64.loanTenureMonths input < Binary64.prepaymentMonth input)%Z))
  /\ (forall input,
        (exists result,
           Binary64.calculateLoanPrepaymentImpact Math_pow toLocaleString input
           = Normal result)
        \/ Binary64.calculateLoanPrepaymentImpact Math_pow toLocaleString input
           = Throw "Invalid input parameters")
  /\ (forall input,
        (exists message,
           Binary64.optimizeDebtRepayment toLocaleString input = Throw message)
        <-> (Binary64.loans input = []
             \/ Exists
                  (fun loan =>
                     Binary64.loan_name loan = ""%string
                     \/ (Binary64.outstanding_balance loan <=? 0)%float = true
                     \/ (Binary64.annual_interest_rate loan <? 0)%float = true
                     \/ (Binary64.monthly_emi loan <=? 0)%float = true)
                  (Binary64.loans input)))
  /\ (forall input,
        (exists result,
           Binary64.optimizeDebtRepayment toLocaleString input = Normal result)
        \/ Binary64.optimizeDebtRepayment toLocaleString input
           = Throw "At least one loan is required"
        \/ Binary64.optimizeDebtRepayment toLocaleString input
           = Throw "Invalid loan data").
Proof.
  assert (Hpre : forall input,
             Binary64.prepaymentInputInvalid input = true ->
             Binary64.calculateLoanPrepaymentImpact Math_pow toLocaleString input
             = Throw "Invalid input parameters").
  { intros input H.
    unfold Binary64.calculateLoanPrepaymentImpact,
      Binary64.calculateLoanPrepaymentImpact_fuel.
    cbv zeta. rewrite H. reflexivity. }
  assert (Hpass : forall input,
             Binary64.prepaymentInputInvalid input = false ->
             exists result,
               Binary64.calculateLoanPrepaymentImpact Math_pow toLocaleString input
               = Normal result).
  { intros input H.
    destruct (calculateLoanPrepaymentImpact_valid_binary64 Math_pow toLocaleString
                input H) as (st & _ & _ & ->). eauto. }
  assert (Hempty : forall input,
             Binary64.loans input = [] ->
             Binary64.optimizeDebtRepayment toLocaleString input
             = Throw "At least one loan is required").
  { intros input H.
    unfold Binary64.optimizeDebtRepayment, Binary64.optimizeDebtRepayment_fuel.
    cbv zeta. rewrite H. reflexivity. }
  assert (Hloan : forall input,
             Binary64.loans input <> [] ->
             existsb Binary64.loanInvalid (Binary64.loans input) = true ->
             Binary64.optimizeDebtRepayment toLocaleString input
             = Throw "Invalid loan data").
  { intros input Hne H.
    unfold Binary64.optimizeDebtRepayment, Binary64.optimizeDebtRepayment_fuel.
    cbv zeta. rewrite H.
    destruct (Binary64.loans input); [contradiction|reflexivity]. }
  assert (Hopt : forall input,
             Binary64.loans input <> [] ->
             existsb Binary64.loanInvalid (Binary64.loans input) = false ->
             exists result,
               Binary64.optimizeDebtRepayment toLocaleString input = Normal result).
  { intros input Hne H.
    destruct (optimizeDebtRepayment_valid_binary64 toLocaleString input Hne H)
      as (a & s & b & _ & _ & _ & ->). eauto. }
  split; [|split; [|split]].
  - intros input. rewrite <- prepaymentInputInvalid_binary64. split.
    + intros [message H].
      destruct (Binary64.prepaymentInputInvalid input) eqn:E; [reflexivity|].
      destruct (Hpass input E) as [result Hr]. congruence.
    + intros H. eexists. apply Hpre. exact H.
  - intros input.
    destruct (Binary64.prepaymentInputInvalid input) eqn:E; [right|left]; auto.
  - intros input. rewrite <- loansInvalid_binary64. split.
    + intros [message H].
      destruct (Binary64.loans input) as [|loan rest] eqn:El; [left; reflexivity|].
      right. rewrite <- El in *.
      destruct (existsb Binary64.loanInvalid (Binary64.loans input)) eqn:E;
        [reflexivity|].
      destruct (Hopt input) as [result Hr]; [rewrite El; discriminate|exact E|].
      congruence.
    + intros [H|H].
      * eexists. apply Hempty. exact H.
      * destruct (Binary64.loans input) as [|loan rest] eqn:El;
          [discriminate H|].
        eexists. apply Hloan; [rewrite El; discriminate|].
        rewrite El. exact H.
  - intros input.
    destruct (Binary64.loans input) as [|loan rest] eqn:El.
    + right. left. apply Hempty. exact El.
    + destruct (existsb Binary64.loanInvalid (Binary64.loans input)) eqn:E.
      * right. right. apply Hloan; [rewrite El; discriminate|exact E].
      * left. apply Hopt; [rewrite El; discriminate|exact E].
Qed.

(** A principal that is not a number passes the validation: the loop
    does not run, and the interest before the prepayment and the interest
    saved are NaN. *)
Example sampleInputNaN_result :
  exists result,
    Binary64.calculateLoanPrepaymentImpact Binary64.Math_pow_rounded
      Binary64.toLocaleString_plain Binary64.sampleInputNaN = Normal result
    /\ is_nan (Binary64.interest_before_prepayment result) = true
    /\ Binary64.interest_after_prepayment result = 0%float
    /\ is_nan (Binary64.interest_saved result) = true
    /\ Binary64.new_tenure_months result = 0%Z.
Proof. eexists. split; [vm_compute; reflexivity|]. repeat split. Qed.

(** X21: in binary64 arithmetic, the outcome of
    [calculateLoanPrepaymentImpact] does not depend on the fields
    [monthlyEMI] and [outstandingPrincipal]: two inputs that agree on the
    five other fields have the same outcome, a thrown error or a result
    with the same fields. *)
Theorem X21_ignores_emi_and_outstanding_binary64 (Math_pow : float -> Z -> float)
    (toLocaleString : float -> string) (i1 i2 : Binary64.LoanPrepaymentInput) :
  Binary64.loanPrincipal i1 = Binary64.loanPrincipal i2 ->
  Binary64.annualInterestRate i1 = Binary64.annualInterestRate i2 ->
  Binary64.loanTenureMonths i1 = Binary64.loanTenureMonths i2 ->
  Binary64.prepaymentAmount i1 = Binary64.prepaymentAmount i2 ->
  Binary64.prepaymentMonth i1 = Binary64.prepaymentMonth i2 ->
  Binary64.calculateLoanPrepaymentImpact Math_pow toLocaleString i1
  = Binary64.calculateLoanPrepaymentImpact Math_pow toLocaleString i2.
Proof.
  intros HP Hr Hn Hpp Hpm.
  unfold Binary64.calculateLoanPrepaymentImpact,
    Binary64.calculateLoanPrepaymentImpact_fuel, Binary64.prepaymentInputInvalid.
  rewrite HP, Hr, Hn, Hpp, Hpm. reflexivity.
Qed.

Lemma X21_witness_binary64 :
  Binary64.calculateLoanPrepaymentImpact Binary64.Math_pow_rounded
    Binary64.toLocaleString_plain Binary64.sampleInput
  = Binary64.calculateLoanPrepaymentImpact Binary64.Math_pow_rounded
      Binary64.toLocaleString_plain Binary64.sampleInputOtherEMI.
Proof.
  apply X21_ignores_emi_and_outstanding_binary64; reflexivity.
Defined.

(** X22: in binary64 arithmetic, the loops stop at their caps and every
    call that passes the validation returns.  The loop of
    [calculateLoanPrepaymentImpact] runs at most [2 * loanTenureMonths]
    months; the loops of [calculateStrategyInterest] and of
    [calculateLoanInterest] run at most 600 months and return the interest
    added so far, rounded to two decimals.  A fuel above the caps does not
    change an outcome: the caps, not the fuel, stop the loops. *)
Theorem X22_simulations_terminate_binary64 (Math_pow : float -> Z -> float)
    (toLocaleString : float -> string) :
  (forall input, Binary64.prepaymentInputInvalid input = false ->
     exists result,
       Binary64.calculateLoanPrepaymentImpact Math_pow toLocaleString input
       = Normal result
       /\ (0 <= Binary64.new_tenure_months result
           <= 2 * Binary64.loanTenureMonths input)%Z)
  /\ (forall loans repaymentOrder monthlySurplus,
        exists st,
          Binary64.Simulation.loop loans repaymentOrder monthlySurplus
            (Z.to_nat maxMonths) (Binary64.Simulation.init loans monthlySurplus)
          = Normal st
          /\ (0 <= Binary64.Simulation.months st <= 600)%Z
          /\ Binary64.calculateStrategyInterest (Z.to_nat maxMonths) loans
               repaymentOrder monthlySurplus
             = Normal (Binary64.round2 (Binary64.Simulation.totalInterest st)))
  /\ (forall outstandingBalance annualInterestRate monthlyEMI,
        exists st,
          Binary64.Baseline.loop (annualInterestRate / 12 / 100)%float monthlyEMI
            (Z.to_nat maxMonths) (Binary64.Baseline.init outstandingBalance)
          = Normal st
          /\ (0 <= Binary64.Baseline.months st <= 600)%Z
          /\ Binary64.calculateLoanInterest (Z.to_nat maxMonths)
               outstandingBalance annualInterestRate monthlyEMI
             = Normal (Binary64.round2 (Binary64.Baseline.totalInterest st)))
  /\ (forall input fuel,
        (Z.to_nat (2 * Binary64.loanTenureMonths input) <= fuel)%nat ->
        Binary64.calculateLoanPrepaymentImpact_fuel Math_pow toLocaleString
          fuel input
        = Binary64.calculateLoanPrepaymentImpact Math_pow toLocaleString input)
  /\ (forall input fuel, (600 <= fuel)%nat ->
        Binary64.optimizeDebtRepayment_fuel toLocaleString fuel input
        = Binary64.optimizeDebtRepayment toLocaleString input).
Proof.
  split; [|split; [|split; [|split]]].
  - intros input E.
    destruct (calculateLoanPrepaymentImpact_valid_binary64 Math_pow toLocaleString
                input E) as (st & _ & Hm & ->).
    eexists. split; [reflexivity|]. cbn [Binary64.new_tenure_months]. lia.
  - intros loans repaymentOrder monthlySurplus.
    destruct (calculateStrategyInterest_returns_binary64 loans repaymentOrder
                monthlySurplus) as (st & Hrun & Hres).
    exists st. split; [exact Hrun|]. split; [|exact Hres].
    apply Simulation_loop_months_binary64 in Hrun; [exact Hrun|].
    cbn [Binary64.Simulation.init Binary64.Simulation.months].
    unfold maxMonths. lia.
  - intros balance rate emi.
    destruct (calculateLoanInterest_returns_binary64 balance rate emi)
      as (st & Hrun & Hres).
    exists st. split; [exact Hrun|]. split; [|exact Hres].
    apply Baseline_loop_months_binary64 in Hrun; [exact Hrun|].
    cbn [Binary64.Baseline.init Binary64.Baseline.months].
    unfold maxMonths. lia.
  - intros input fuel Hfuel.
    unfold Binary64.calculateLoanPrepaymentImpact,
      Binary64.calculateLoanPrepaymentImpact_fuel. cbv zeta.
    destruct (Binary64.prepaymentInputInvalid input) eqn:E; [reflexivity|].
    destruct (calculateLoanPrepaymentImpact_valid_binary64 Math_pow toLocaleString
                input E) as (st & Hrun & _ & _).
    unfold Binary64.prepaymentInit in Hrun.
    unfold Binary64.prepaymentLoop in *.
    rewrite Hrun.
    rewrite (while_more_fuel _ _ _ _ fuel _ _ Hrun); [reflexivity|].
    rewrite Z.mul_comm. exact Hfuel.
  - intros input fuel Hfuel.
    unfold Binary64.optimizeDebtRepayment, Binary64.optimizeDebtRepayment_fuel.
    cbv zeta.
    change (Z.to_nat maxMonths) with 600%nat in *.
    rewrite !(calculateStrategyInterest_more_fuel_binary64 _ _ _ fuel Hfuel).
    rewrite (calculateBaselineInterest_more_fuel_binary64 _ fuel Hfuel).
    reflexivity.
Qed.

(** ** A single loan without a surplus *)

Section SingleLoan.

Import Binary64.
Local Open Scope float_scope.

Variable loan : Loan.
Hypothesis valid : validLoan loan.

Let name := loan_name loan.
Let rate := annual_interest_rate loan / 12 / 100.
Let emi := monthly_emi loan.

Lemma ltb_001 : (0 <? 0.01) = true.
Proof. reflexivity. Qed.

Lemma sub_nan_r (x : float) : x - nan = nan.
Proof.
  rewrite <- (SF2Prim_Prim2SF (x - nan)), sub_spec.
  change (Prim2SF nan) with S754_nan.
  destruct (Prim2SF x) as [s|s| |s m e]; reflexivity.
Qed.

Lemma ltb_0_not_zero (x : float) : (0 <? x) = true -> is_zero x = false.
Proof.
  intros H. unfold is_zero. rewrite FloatAxioms.eqb_spec.
  destruct (ltb_0_spec x H) as [-> | (m & e & ->)]; reflexivity.
Qed.

Lemma getOrZero_insert (m : gmap string float) (v : float) :
  Simulation.getOrZero (<[name := v]> m) name
  = if is_nan v || is_zero v then 0 else v.
Proof. unfold Simulation.getOrZero. rewrite lookup_insert_eq. reflexivity. Qed.

(** The balance that a month leaves, as the [Map] holds it. *)
Lemma sameBalance_insert (m : gmap string float) (nb : float) :
  (nb <=? 0.01) = false ->
  sameBalance name nb (<[name := Math_max 0 nb]> m).
Proof.
  intros Hle. unfold sameBalance. rewrite getOrZero_insert.
  destruct (0.01 <? nb) eqn:E.
  - destruct (above_positive 0.01 nb ltb_001 E) as (Hpos & Hn & Hz).
    rewrite (Math_max_0_positive _ Hpos), Hn, Hz. reflexivity.
  - destruct (is_nan nb) eqn:En.
    + apply is_nan_eq in En. subst nb. reflexivity.
    + apply ltb_false_leb in E; [congruence|reflexivity|exact En].
Qed.

Lemma sameBalance_init :
  sameBalance name (outstanding_balance loan) (Simulation.initialBalances [loan]).
Proof.
  destruct valid as (_ & Hb & _).
  unfold Simulation.initialBalances. cbn [fold_left]. fold name.
  unfold sameBalance. rewrite getOrZero_insert.
  destruct (ltb_not_nan _ _ Hb) as [_ Hn].
  rewrite Hn, (ltb_0_not_zero _ Hb). cbn [orb].
  destruct (0.01 <? outstanding_balance loan) eqn:E; [reflexivity|].
  apply ltb_false_leb; [reflexivity|exact Hn|exact E].
Qed.

(** The two simulations side by side: no loan is paid off yet, and the
    months, the totals and the balances agree. *)
Let live (bs : Baseline.State) (ss : Simulation.State) : Prop :=
  Simulation.paidOffLoans ss = ∅
  /\ Simulation.months ss = Baseline.months bs
  /\ Simulation.totalInterest ss = Baseline.totalInterest bs
  /\ sameBalance name (Baseline.remainingBalance bs) (Simulation.balances ss).

(** The loan has been paid off by the strategy, and its own loop is about
    to end, with the same total. *)
Let paid (bs : Baseline.State) (ss : Simulation.State) : Prop :=
  Simulation.paidOffLoans ss = {[ name ]}
  /\ Simulation.totalInterest ss = Baseline.totalInterest bs
  /\ (0.01 <? Baseline.remainingBalance bs) = false.

Lemma name_not_empty : String.eqb name "" = false.
Proof. destruct valid as (H & _). apply String.eqb_neq. exact H. Qed.

Lemma live_goes_on bs ss :
  live bs ss -> (Baseline.months bs < maxMonths)%Z ->
  Simulation.cond [loan] ss = true /\ Simulation.allPaid [name] ss = false.
Proof.
  intros (Hp & Hm & _) Hlt. unfold Simulation.cond, Simulation.allPaid,
    Simulation.findPriority.
  rewrite Hp, Hm. cbn [find]. rewrite size_empty.
  rewrite bool_decide_eq_false_2 by apply not_elem_of_empty.
  cbn [negb Simulation.noPriority length]. rewrite name_not_empty.
  split; [|reflexivity].
  apply andb_true_iff. split; [reflexivity|apply Z.ltb_lt; exact Hlt].
Qed.

Lemma paid_stops bs ss :
  paid bs ss -> Simulation.cond [loan] ss = false.
Proof.
  intros (Hp & _). unfold Simulation.cond. rewrite Hp, size_singleton.
  reflexivity.
Qed.

Lemma body_live ss :
  Simulation.paidOffLoans ss = ∅ ->
  Simulation.body [loan] [name] 0 ss
  = let st1 :=
      {| Simulation.balances := Simulation.balances ss;
         Simulation.paidOffLoans := ∅;
         Simulation.totalInterest := Simulation.totalInterest ss;
         Simulation.availableExtra := 0;
         Simulation.months := Simulation.months ss |} in
    let st2 := Simulation.loanStep (Some name) st1 loan in
    {| Simulation.balances := Simulation.balances st2;
       Simulation.paidOffLoans := Simulation.paidOffLoans st2;
       Simulation.totalInterest := Simulation.totalInterest st2;
       Simulation.availableExtra := Simulation.availableExtra st2;
       Simulation.months := (Simulation.months st2 + 1)%Z |}.
Proof.
  intros Hp. unfold Simulation.body, Simulation.findPriority, Simulation.freedUp.
  rewrite Hp. cbn [find fold_left]. fold name.
  rewrite bool_decide_eq_false_2 by apply not_elem_of_empty.
  reflexivity.
Qed.

(** What the minimum payment takes off a balance above 0.01, when the EMI
    is above the interest: the principal part of the EMI, or the whole
    balance when that part is larger, and then the loop of the loan on
    its own ends as well. *)
Lemma principalFromEMI_cases (rb pc : float) :
  (0.01 <? rb) = true -> (pc <=? 0) = false ->
  Math_min pc rb = pc
  \/ (Math_min pc rb = rb /\ rb - rb = 0 /\ (0.01 <? rb - pc) = false).
Proof.
  intros Hrb Hpc.
  destruct (above_positive 0.01 rb ltb_001 Hrb) as (_ & Hnrb & _).
  destruct (is_nan pc) eqn:En.
  { apply is_nan_eq in En. subst pc. left. reflexivity. }
  assert (Hpos : (0 <? pc) = true)
    by (apply leb_false_ltb; [exact En|reflexivity|exact Hpc]).
  destruct (pc <? rb) eqn:E1; [left; apply Math_min_l; exact E1|].
  destruct (rb <? pc) eqn:E2.
  - right. split; [apply Math_min_r; exact E2|]. split.
    + destruct (between_finite 0.01 rb pc ltb_001 Hrb E2) as (m & e & H).
      apply (sub_self_finite _ _ _ _ H).
    + apply signed_not_above; [reflexivity|].
      apply sub_lt_signed. exact E2.
  - left. apply Math_min_eq; auto. apply ltb_0_not_zero. exact Hpos.
Qed.

Lemma step_above bs ss :
  live bs ss ->
  (0.01 <? Baseline.remainingBalance bs) = true ->
  Baseline.emiTooSmall rate emi bs = false ->
  live (Baseline.body rate emi bs) (Simulation.body [loan] [name] 0 ss)
  \/ paid (Baseline.body rate emi bs) (Simulation.body [loan] [name] 0 ss).
Proof.
  intros (Hp & Hm & Ht & Hv) Habove Hemi.
  unfold sameBalance in Hv. rewrite Habove in Hv.
  unfold Baseline.emiTooSmall in Hemi.
  rewrite (body_live ss Hp). cbv zeta. unfold Simulation.loanStep.
  cbn [Simulation.paidOffLoans Simulation.balances Simulation.totalInterest
       Simulation.availableExtra Simulation.months].
  fold name. rewrite bool_decide_eq_false_2 by apply not_elem_of_empty.
  rewrite Hv, (ltb_leb_false _ _ Habove).
  fold rate emi.
  change (0 <? 0) with false. rewrite andb_false_r. cbn [andb].
  unfold live, paid. cbn [Baseline.body Baseline.remainingBalance
    Baseline.totalInterest Baseline.months Simulation.paidOffLoans
    Simulation.balances Simulation.totalInterest Simulation.months].
  rewrite Hm, Ht.
  destruct (principalFromEMI_cases _ _ Habove Hemi) as [-> | (-> & -> & Hend)].
  - destruct (_ - _ <=? 0.01) eqn:Ele.
    + right. split; [apply union_empty_r_L|]. split; [reflexivity|].
      apply leb_ltb_false. exact Ele.
    + left. split; [reflexivity|]. split; [reflexivity|]. split; [reflexivity|].
      apply sameBalance_insert. exact Ele.
  - right. change (0 <=? 0.01) with true. cbv iota.
    split; [apply union_empty_r_L|]. split; [reflexivity|exact Hend].
Qed.

Lemma step_below bs ss :
  live bs ss ->
  (0.01 <? Baseline.remainingBalance bs) = false ->
  paid bs (Simulation.body [loan] [name] 0 ss).
Proof.
  intros (Hp & Hm & Ht & Hv) Hbelow.
  unfold sameBalance in Hv. rewrite Hbelow in Hv.
  rewrite (body_live ss Hp). cbv zeta. unfold Simulation.loanStep.
  cbn [Simulation.paidOffLoans Simulation.balances Simulation.totalInterest
       Simulation.availableExtra Simulation.months].
  fold name. rewrite bool_decide_eq_false_2 by apply not_elem_of_empty.
  rewrite Hv. unfold paid. cbn [Simulation.paidOffLoans Simulation.totalInterest].
  split; [apply union_empty_r_L|]. split; [exact Ht|exact Hbelow].
Qed.

(** The strategy simulation of the one loan adds the interests that the
    loop of the loan on its own adds, as long as that loop is not left by
    its [break]. *)
Lemma single_loan_lockstep (fuel : nat) :
  forall bs ss bs',
    Z.of_nat fuel = (maxMonths - Baseline.months bs)%Z ->
    live bs ss ->
    Baseline.loop rate emi fuel bs = Normal bs' ->
    Baseline.cond bs' = false ->
    exists ss',
      Simulation.loop [loan] [name] 0 fuel ss = Normal ss'
      /\ Simulation.totalInterest ss' = Baseline.totalInterest bs'.
Proof.
  induction fuel as [|fuel IH]; intros bs ss bs' Hfuel Hlive Hrun Hend.
  - assert (Hc : Baseline.cond bs = false).
    { unfold Baseline.cond. replace (Baseline.months bs <? maxMonths)%Z with false
        by (symmetry; apply Z.ltb_ge; unfold maxMonths in *; lia).
      apply andb_false_r. }
    unfold Baseline.loop in Hrun. cbn [while] in Hrun. rewrite Hc in Hrun.
    injection Hrun as <-.
    exists ss. split; [|apply Hlive].
    unfold Simulation.loop. cbn [while].
    unfold Simulation.cond. destruct Hlive as (_ & Hm & _). rewrite Hm.
    replace (Baseline.months bs <? maxMonths)%Z with false
      by (symmetry; apply Z.ltb_ge; unfold maxMonths in *; lia).
    rewrite andb_false_r. reflexivity.
  - assert (Hlt : (Baseline.months bs < maxMonths)%Z)
      by (unfold maxMonths in *; lia).
    destruct (live_goes_on bs ss Hlive Hlt) as [Hc Hl].
    unfold Simulation.loop, Baseline.loop in *. rewrite while_unfold in Hrun.
    rewrite while_unfold, Hc, Hl.
    destruct (0.01 <? Baseline.remainingBalance bs) eqn:Eabove.
    + assert (Hcb : Baseline.cond bs = true).
      { unfold Baseline.cond. rewrite Eabove. apply Z.ltb_lt. exact Hlt. }
      rewrite Hcb in Hrun.
      destruct (Baseline.emiTooSmall rate emi bs) eqn:Eemi.
      { injection Hrun as <-. congruence. }
      destruct (step_above bs ss Hlive Eabove Eemi) as [Hlive' | Hpaid].
      * apply (IH (Baseline.body rate emi bs) _ bs');
          [|exact Hlive'|exact Hrun|exact Hend].
        cbn [Baseline.body Baseline.months]. unfold maxMonths in *. lia.
      * assert (Hcb' : Baseline.cond (Baseline.body rate emi bs) = false).
        { unfold Baseline.cond. destruct Hpaid as (_ & _ & ->). reflexivity. }
        destruct fuel; cbn [while] in Hrun; rewrite Hcb' in Hrun;
          injection Hrun as <-;
          (eexists; split; [|apply Hpaid]);
          cbn [while]; rewrite (paid_stops _ _ Hpaid); reflexivity.
    + assert (Hcb : Baseline.cond bs = false).
      { unfold Baseline.cond. rewrite Eabove. reflexivity. }
      rewrite Hcb in Hrun. injection Hrun as <-.
      pose proof (step_below bs ss Hlive Eabove) as Hpaid.
      eexists. split; [|apply Hpaid].
      destruct fuel; cbn [while]; rewrite (paid_stops _ _ Hpaid); reflexivity.
Qed.

End SingleLoan.

Lemma sub_after_add_0 (x : float) :
  ((0 + x) - x = 0 \/ (0 + x) - x = nan)%float.
Proof.
  rewrite <- (SF2Prim_Prim2SF ((0 + x) - x)), sub_spec, add_spec.
  change (Prim2SF 0) with (S754_zero false).
  unfold SF64sub, SF64add.
  destruct (Prim2SF x) as [s|s| |s m e]; cbn [SFadd SFsub].
  - left. destruct s; reflexivity.
  - right. destruct s; reflexivity.
  - right. reflexivity.
  - left.
    match goal with
    | |- context [binary_normalize _ _ ?d _ _] =>
        replace d with 0%Z by (symmetry; apply Z.sub_diag)
    end.
    reflexivity.
Qed.

(** X23: in binary64 arithmetic, for a single valid loan without a
    monthly surplus whose own amortization is not left by the [break] of
    [calculateLoanInterest] (the EMI is above the interest of every month,
    as the code computes them), the strategy simulation adds the same
    interests in the same order as the loop of the loan on its own: the
    two totals are the same number, and [estimated_interest_saved] is 0,
    or NaN when that number is not finite. *)
Theorem X23_single_loan_saves_nothing_binary64 (toLocaleString : float -> string)
    (input : Binary64.DebtRepaymentInput) (loan : Binary64.Loan) :
  Binary64.loans input = [loan] ->
  Binary64.validLoan loan ->
  default 0%float (Binary64.monthly_surplus input) = 0%float ->
  (exists st,
     Binary64.Baseline.loop (Binary64.annual_interest_rate loan / 12 / 100)%float
       (Binary64.monthly_emi loan) (Z.to_nat maxMonths)
       (Binary64.Baseline.init (Binary64.outstanding_balance loan)) = Normal st
     /\ Binary64.Baseline.cond st = false) ->
  exists result interest,
    Binary64.optimizeDebtRepayment toLocaleString input = Normal result
    /\ Binary64.calculateStrategyInterest (Z.to_nat maxMonths) [loan]
         [Binary64.loan_name loan] 0%float = Normal interest
    /\ Binary64.calculateLoanInterest (Z.to_nat maxMonths)
         (Binary64.outstanding_balance loan) (Binary64.annual_interest_rate loan)
         (Binary64.monthly_emi loan) = Normal interest
    /\ (Binary64.estimated_interest_saved result = 0%float
        \/ Binary64.estimated_interest_saved result = nan).
Proof.
  intros Hloans Hvalid Hsurplus (bs' & Hrun & Hend).
  destruct (single_loan_lockstep loan Hvalid (Z.to_nat maxMonths)
              (Binary64.Baseline.init (Binary64.outstanding_balance loan))
              (Binary64.Simulation.init [loan] 0%float) bs')
    as (ss' & Hsim & Htotal); [reflexivity| |exact Hrun|exact Hend|].
  { split; [reflexivity|]. split; [reflexivity|]. split; [reflexivity|].
    apply sameBalance_init. exact Hvalid. }
  set (interest := Binary64.round2 (Binary64.Baseline.totalInterest bs')).
  assert (HS : Binary64.calculateStrategyInterest (Z.to_nat maxMonths) [loan]
                 [Binary64.loan_name loan] 0%float = Normal interest).
  { unfold Binary64.calculateStrategyInterest. rewrite Hsim. cbn [bind].
    rewrite Htotal. reflexivity. }
  assert (HL : Binary64.calculateLoanInterest (Z.to_nat maxMonths)
                 (Binary64.outstanding_balance loan)
                 (Binary64.annual_interest_rate loan)
                 (Binary64.monthly_emi loan) = Normal interest).
  { unfold Binary64.calculateLoanInterest. rewrite Hrun. reflexivity. }
  destruct (optimizeDebtRepayment_valid_binary64 toLocaleString input)
    as (a & s & b & HA & HS' & HB & ->).
  { rewrite Hloans. discriminate. }
  { rewrite Hloans. apply validLoans_pass.
    constructor; [exact Hvalid|constructor]. }
  rewrite Hloans, Hsurplus in HA, HS'. rewrite Hloans in HB.
  change (Binary64.generateAvalancheOrder [loan])
    with [Binary64.loan_name loan] in HA.
  change (Binary64.generateSnowballOrder [loan])
    with [Binary64.loan_name loan] in HS'.
  rewrite HS in HA, HS'. injection HA as <-. injection HS' as <-.
  unfold Binary64.calculateBaselineInterest in HB. cbn [fold_left bind] in HB.
  rewrite HL in HB. cbn [bind] in HB. injection HB as <-.
  eexists. exists interest. split; [reflexivity|].
  split; [exact HS|]. split; [exact HL|].
  cbn [Binary64.estimated_interest_saved].
  assert (E : forall strategy : Strategy,
             match strategy with
             | avalanche => (0 + interest - interest)%float
             | snowball => (0 + interest - interest)%float
             end = (0 + interest - interest)%float)
    by (intros []; reflexivity).
  rewrite E.
  destruct (sub_after_add_0 interest) as [-> | ->]; [left|right]; reflexivity.
Qed.

Lemma X23_witness_binary64 :
  exists result interest,
    Binary64.optimizeDebtRepayment Binary64.toLocaleString_plain
      Binary64.loanRepaid = Normal result
    /\ Binary64.calculateStrategyInterest (Z.to_nat maxMonths)
         (Binary64.loans Binary64.loanRepaid) ["A"]%string 0%float
       = Normal interest
    /\ Binary64.calculateLoanInterest (Z.to_nat maxMonths) 1000 12 100
       = Normal interest
    /\ (Binary64.estimated_interest_saved result = 0%float
        \/ Binary64.estimated_interest_saved result = nan).
Proof.
  apply (X23_single_loan_saves_nothing_binary64 Binary64.toLocaleString_plain
           Binary64.loanRepaid
           {| Binary64.loan_name := "A"; Binary64.outstanding_balance := 1000;
              Binary64.annual_interest_rate := 12; Binary64.monthly_emi := 100 |}).
  - reflexivity.
  - repeat split; first [discriminate | reflexivity].
  - reflexivity.
  - eexists. split; [vm_compute; reflexivity|reflexivity].
Defined.

(** ** The two orders coincide, in binary64 *)

Lemma ltb_irrefl (x : float) : (x <? x)%float = false.
Proof.
  rewrite FloatAxioms.ltb_spec. unfold SFltb.
  pose proof (SFcompare_antisym (Prim2SF x) (Prim2SF x)) as H.
  destruct (SFcompare (Prim2SF x) (Prim2SF x)) as [[| |]|];
    first [reflexivity | discriminate H].
Qed.

Lemma leb_refl_not_nan (x : float) : (x <=? x)%float = negb (is_nan x).
Proof.
  destruct (is_nan x) eqn:En; cbn [negb].
  - destruct (x <=? x)%float eqn:E; [|reflexivity].
    apply leb_not_nan in E. destruct E as [E _]. congruence.
  - apply ltb_false_leb; [exact En|exact En|apply ltb_irrefl].
Qed.

(** X24: in binary64 arithmetic, when the avalanche order and the
    snowball order of the loans are the same list, as they are for a
    single loan, the two strategies cost the same number and neither
    counts as cheaper: snowball is recommended for [low], avalanche for
    [high], and for [medium] or no tolerance avalanche, unless the
    interest is NaN, which is not [<=] itself, and then snowball. *)
Theorem X24_same_order_risk_decides_binary64 (toLocaleString : float -> string)
    (input : Binary64.DebtRepaymentInput) :
  Binary64.loans input <> [] ->
  Forall Binary64.validLoan (Binary64.loans input) ->
  Binary64.generateAvalancheOrder (Binary64.loans input)
  = Binary64.generateSnowballOrder (Binary64.loans input) ->
  exists result interest,
    Binary64.optimizeDebtRepayment toLocaleString input = Normal result
    /\ Binary64.calculateStrategyInterest (Z.to_nat maxMonths)
         (Binary64.loans input)
         (Binary64.generateAvalancheOrder (Binary64.loans input))
         (default 0%float (Binary64.monthly_surplus input))
       = Normal interest
    /\ Binary64.avalanche_order result = Binary64.snowball_order result
    /\ Binary64.recommended_strategy result
       = match Binary64.risk_tolerance input with
         | Some low => snowball
         | Some high => avalanche
         | _ => if is_nan interest then snowball else avalanche
         end.
Proof.
  intros Hne Hv Horder.
  destruct (optimizeDebtRepayment_valid_binary64 toLocaleString input Hne
              (validLoans_pass _ Hv)) as (a & s & b & HA & HS & _ & ->).
  rewrite <- Horder, HA in HS. injection HS as <-.
  eexists. exists a. split; [reflexivity|]. split; [exact HA|].
  cbn [Binary64.avalanche_order Binary64.snowball_order
       Binary64.recommended_strategy].
  split; [exact Horder|].
  rewrite decide_strategy_fst_binary64. cbv zeta.
  rewrite ltb_irrefl, leb_refl_not_nan. cbn [andb].
  destruct (Binary64.risk_tolerance input) as [[| |]|]; cbn [default];
    try reflexivity; destruct (is_nan a); reflexivity.
Qed.

Lemma X24_witness_binary64 :
  exists result interest,
    Binary64.optimizeDebtRepayment Binary64.toLocaleString_plain
      Binary64.loanBelowInterest = Normal result
    /\ Binary64.calculateStrategyInterest (Z.to_nat maxMonths)
         (Binary64.loans Binary64.loanBelowInterest)
         (Binary64.generateAvalancheOrder
            (Binary64.loans Binary64.loanBelowInterest))
         (default 0%float (Binary64.monthly_surplus Binary64.loanBelowInterest))
       = Normal interest
    /\ Binary64.avalanche_order result = Binary64.snowball_order result
    /\ Binary64.recommended_strategy result
       = match Binary64.risk_tolerance Binary64.loanBelowInterest with
         | Some low => snowball
         | Some high => avalanche
         | _ => if is_nan interest then snowball else avalanche
         end.
Proof.
  apply X24_same_order_risk_decides_binary64; [discriminate| |reflexivity].
  repeat constructor; cbn; first [discriminate | reflexivity].
Defined.

(** A balance that is infinite, at no interest: the interest of a month
    is [Infinity * 0], the total is NaN, and snowball is recommended to a
    borrower of medium tolerance. *)
Example loanWithoutBound_result :
  Forall Binary64.validLoan (Binary64.loans Binary64.loanWithoutBound)
  /\ exists result,
       Binary64.optimizeDebtRepayment Binary64.toLocaleString_plain
         Binary64.loanWithoutBound = Normal result
       /\ Binary64.recommended_strategy result = snowball
       /\ is_nan (Binary64.estimated_interest_saved result) = true.
Proof.
  split.
  - repeat constructor; cbn; first [discriminate | reflexivity].
  - eexists. split; [vm_compute; reflexivity|]. split; reflexivity.
Qed.
